(** * Label synthesis and walk-forward backtest: a shallow embedding

    The development follows the scripts of the repository:

    - [scripts/generate-capacity-labels.mjs]  (modules [Taxonomy] and
                                               [GenerateCapacityLabels])
    - [scripts/train-robust-models.mjs]       (module [TrainRobust])
    - [scripts/backtest-robust-models.mjs]    (module [BacktestRobust])
    - the walk-forward backtest script        (module [WalkForward])
    - the baseline backtest script            (module [BacktestBaseline])

    Number model.  A JavaScript number is either [NaN], an infinity or a
    finite value; finite values are taken as exact rationals ([Q]), so the
    rounding and the overflow of IEEE-754 binary64 are not part of this
    model.  Values that the code has already passed through [safeNum] are
    finite and are carried as [Q] directly.  The built-ins whose values are
    not rational or whose grammar is outside the repository ([Number] on
    strings, [Date.prototype.getTime], [Math.exp], [Math.sqrt]) are
    parameters, collected in the class [Builtins].

    Comparisons are exact in binary64, so what rests on comparisons alone
    (the capacity minimum, the phase buckets, the order of the tuning
    entries, the window guards) does not depend on this choice.  The indices
    of the chronological split are computed on the kernel's binary64 floats
    (module [Float64]), as the script computes them.  What rests on the
    monotonicity of a rounded expression depends on the rounding: the module
    [Binary64] repeats the regression path of [train-robust-models.mjs] on
    binary64 floats, the numbers the scripts run on, to evaluate [quantile]
    and the clipped predictions where rounding decides the outcome.
    Statements about the profits and uplifts of the label script that need
    them to be finite numbers carry the bound [profitsBounded], under which
    the arithmetic of the script neither overflows nor yields [NaN]. *)

From Stdlib Require Import QArith Qminmax Qround Lqa Lia ZArith List String Bool.
From Stdlib Require Import Sorted Permutation Floats.
From stdpp Require Import gmap strings.
Import ListNotations.
Local Open Scope Q_scope.

(* Decimal literals of binary64 are read to the nearest float, as the
   scripts read theirs. *)
Set Warnings "-inexact-float".

(** ** JavaScript numbers and values *)

Inductive num : Type :=
  | NaN
  | Infinity (negative : bool)
  | Fin (q : Q).

Definition Qltb (x y : Q) : bool := negb (Qle_bool y x).

Definition Qsign (q : Q) : comparison := (Qnum q ?= 0)%Z.

Definition num_neg (a : num) : num :=
  match a with
  | NaN => NaN
  | Infinity s => Infinity (negb s)
  | Fin x => Fin (- x)
  end.

Definition num_add (a b : num) : num :=
  match a, b with
  | NaN, _ | _, NaN => NaN
  | Infinity s, Infinity t => if Bool.eqb s t then Infinity s else NaN
  | Infinity s, Fin _ => Infinity s
  | Fin _, Infinity t => Infinity t
  | Fin x, Fin y => Fin (x + y)
  end.

Definition num_sub (a b : num) : num := num_add a (num_neg b).

Definition num_mul (a b : num) : num :=
  match a, b with
  | NaN, _ | _, NaN => NaN
  | Infinity s, Infinity t => Infinity (xorb s t)
  | Infinity s, Fin y | Fin y, Infinity s =>
      match Qsign y with
      | Eq => NaN
      | Gt => Infinity s
      | Lt => Infinity (negb s)
      end
  | Fin x, Fin y => Fin (x * y)
  end.

Definition num_div (a b : num) : num :=
  match a, b with
  | NaN, _ | _, NaN => NaN
  | Infinity _, Infinity _ => NaN
  | Infinity s, Fin y =>
      match Qsign y with
      | Lt => Infinity (negb s)
      | _ => Infinity s
      end
  | Fin _, Infinity _ => Fin 0
  | Fin x, Fin y =>
      match Qsign y with
      | Eq => match Qsign x with
              | Eq => NaN
              | Gt => Infinity false
              | Lt => Infinity true
              end
      | _ => Fin (x / y)
      end
  end.

(** [a < b]; every comparison with [NaN] is false. *)
Definition num_ltb (a b : num) : bool :=
  match a, b with
  | NaN, _ | _, NaN => false
  | Infinity s, Infinity t => s && negb t
  | Infinity s, Fin _ => s
  | Fin _, Infinity t => negb t
  | Fin x, Fin y => Qltb x y
  end.

(** [a <= b]. *)
Definition num_leb (a b : num) : bool :=
  match a, b with
  | NaN, _ | _, NaN => false
  | Infinity s, Infinity t => s || negb t
  | Infinity s, Fin _ => s
  | Fin _, Infinity t => negb t
  | Fin x, Fin y => Qle_bool x y
  end.

Definition num_gtb (a b : num) : bool := num_ltb b a.
Definition num_geb (a b : num) : bool := num_leb b a.

(** [Math.min] and [Math.max] of two arguments. *)
Definition Math_min (a b : num) : num :=
  match a, b with
  | NaN, _ | _, NaN => NaN
  | _, _ => if num_leb a b then a else b
  end.

Definition Math_max (a b : num) : num :=
  match a, b with
  | NaN, _ | _, NaN => NaN
  | _, _ => if num_leb a b then b else a
  end.

(** A value as [JSON.parse] delivers it in a field of a row, [JUndefined]
    standing for a field that is absent.  JSON numbers are finite.  Arrays
    and objects do not occur in the fields the scripts read as numbers or
    dates. *)
Inductive jsval : Type :=
  | JUndefined
  | JNull
  | JBool (b : bool)
  | JNumber (n : Q)
  | JString (s : string).

(** [v === w] for the cases the scripts use (comparison with [null],
    [undefined] and the empty string). *)
Definition is_null (v : jsval) : bool :=
  match v with JNull => true | _ => false end.

Definition is_undefined (v : jsval) : bool :=
  match v with JUndefined => true | _ => false end.

Definition is_empty_string (v : jsval) : bool :=
  match v with JString EmptyString => true | _ => false end.

(** [Boolean(v)]: truthiness. *)
Definition truthy (v : jsval) : bool :=
  match v with
  | JUndefined | JNull => false
  | JBool b => b
  | JNumber n => negb (Qeq_bool n 0)
  | JString s => negb (String.eqb s EmptyString)
  end.

(** The built-ins the embedding does not define. *)
Class Builtins : Type := {
  (** [Number(s)] for a string [s] (ECMAScript's StringToNumber). *)
  StringToNumber : string -> num;
  (** [new Date(v).getTime()]: a time value in milliseconds, or [NaN]. *)
  Date_getTime : jsval -> num;
  Math_exp : Q -> Q;
  Math_sqrt : Q -> Q;
  (** [s.toLowerCase()]. *)
  String_toLowerCase : string -> string
}.

(** Built-ins for the worked examples: [new Date(v).getTime()] for the
    ISO strings the examples use (and for a number of milliseconds, which is
    its own time value), and [toLowerCase] on the letters of ASCII; the
    other three are arbitrary, and no statement of an example depends on
    them. *)
Definition exampleDates : list (string * Q) := [
  ("2026-01-01T00:00:00.000Z"%string, 1767225600000);
  ("2026-01-01T00:01:00.000Z"%string, 1767225660000);
  ("2026-01-01T00:30:00.000Z"%string, 1767227400000);
  ("2026-01-01T01:30:00.000Z"%string, 1767231000000)
].

Fixpoint timeValue (table : list (string * Q)) (s : string) : num :=
  match table with
  | [] => NaN
  | (iso, ms) :: rest => if String.eqb iso s then Fin ms else timeValue rest s
  end.

Definition lowerLetter (c : Ascii.ascii) : Ascii.ascii :=
  let n := Ascii.nat_of_ascii c in
  if (65 <=? n)%nat && (n <=? 90)%nat then Ascii.ascii_of_nat (n + 32) else c.

Fixpoint lowerAscii (s : string) : string :=
  match s with
  | EmptyString => EmptyString
  | String c rest => String (lowerLetter c) (lowerAscii rest)
  end.

Definition exampleBuiltins : Builtins := {|
  StringToNumber := fun _ => NaN;
  Date_getTime := fun v =>
    match v with
    | JNumber n => Fin n
    | JString s => timeValue exampleDates s
    | _ => NaN
    end;
  Math_exp := fun _ => 1;
  Math_sqrt := fun x => x;
  String_toLowerCase := lowerAscii
|}.

(** Completion of a call: a value, or a thrown exception. *)
Inductive completion (A : Type) : Type :=
  | Normal (a : A)
  | Throw (error : string).
Arguments Normal {A} a.
Arguments Throw {A} error.

(** ** Helpers shared by the scripts *)

Section Helpers.
Context `{Builtins}.

(** [Number(v)]. *)
Definition Number_ (v : jsval) : num :=
  match v with
  | JUndefined => NaN
  | JNull => Fin 0
  | JBool b => Fin (if b then 1 else 0)
  | JNumber n => Fin n
  | JString s => StringToNumber s
  end.

(** [Number.isFinite(n) ? n : null]. *)
Definition finite_or_null (n : num) : option Q :=
  match n with
  | Fin q => Some q
  | _ => None
  end.

Definition safeNum (v : jsval) : option Q :=
  if is_null v || is_undefined v || is_empty_string v then None
  else finite_or_null (Number_ v).

End Helpers.

(** [values.reduce((a, b) => a + b, 0)]. *)
Definition sum (values : list Q) : Q := fold_left Qplus values 0.

(** [mean]: [null] on the empty array. *)
Definition mean (values : list Q) : option Q :=
  match values with
  | [] => None
  | _ => Some (sum values / inject_Z (Z.of_nat (length values)))
  end.

(** [dot]: the loop [s += a[i] * b[i]] over the indices of [a]; the two
    arrays have the same length at every call (weights and feature vector
    of one schema). *)
Fixpoint dot_from (s : Q) (a b : list Q) : Q :=
  match a, b with
  | x :: a', y :: b' => dot_from (s + x * y) a' b'
  | _, _ => s
  end.

Definition dot (a b : list Q) : Q := dot_from 0 a b.

(** [Math.max(lo, Math.min(hi, v))]. *)
Definition clip (v lo hi : Q) : Q := Qmax lo (Qmin hi v).

(** [Math.min(...xs)] for a non-empty argument list [x, ...xs] of finite
    numbers. *)
Definition Math_min_spread (x : Q) (xs : list Q) : Q := fold_left Qmin xs x.

(** [best === null || x > best]: the strict test of every best-so-far
    tracker. *)
Definition improves (best : option Q) (x : Q) : bool :=
  match best with
  | None => true
  | Some b => Qltb b x
  end.

(** ** scripts/generate-capacity-labels.mjs: the taxonomy classifier *)

Module Taxonomy.

(** [classifyTaxonomy]

    The market metadata of a row, as the extraction script writes it: every
    category, subcategory and title is a string or [null], the tags of a leg
    are an array of strings ([None] where the field is [null] or absent). *)
Record metadata : Type := {
  leg1MarketCategory : option string;
  leg2MarketCategory : option string;
  leg1MarketSubcategory : option string;
  leg2MarketSubcategory : option string;
  leg1MarketTags : option (list string);
  leg2MarketTags : option (list string);
  leg1MarketTitle : option string;
  leg2MarketTitle : option string;
  leg1EventTitle : option string;
  leg2EventTitle : option string
}.

Record taxonomy : Type := {
  domain : string;
  subdomain : string;
  topic : string;
  source : string
}.

(** [s.includes(term)]. *)
Fixpoint includes (s term : string) : bool :=
  String.prefix term s
  || match s with
     | EmptyString => false
     | String _ s' => includes s' term
     end.

(** [xs.filter(Boolean)] on strings and [null]s: the non-empty strings. *)
Definition nonEmpty (xs : list (option string)) : list string :=
  omap (fun x => match x with
                 | Some s => if String.eqb s EmptyString then None else Some s
                 | None => None
                 end) xs.

(** The text [Array.prototype.join] writes for an element: nothing for
    [null]. *)
Definition joined (x : option string) : string :=
  match x with
  | Some s => s
  | None => EmptyString
  end.

(** [xs ?? []]. *)
Definition orEmpty (xs : option (list string)) : list string :=
  match xs with
  | Some l => l
  | None => []
  end.

Section Classifier.
(** [String.prototype.toLowerCase]. *)
Variable toLowerCase : string -> string.

(** [lowerText] on a string. *)
Definition lowerText (v : string) : string := toLowerCase v.

Definition classifyTaxonomy (row : metadata) : taxonomy :=
  let primaryCategories :=
    map lowerText (nonEmpty [leg1MarketCategory row; leg2MarketCategory row]) in
  let subcategories :=
    map lowerText (nonEmpty [leg1MarketSubcategory row; leg2MarketSubcategory row]) in
  let tags :=
    map lowerText
      (nonEmpty (map Some (orEmpty (leg1MarketTags row) ++ orEmpty (leg2MarketTags row)))) in
  let corpus :=
    lowerText
      (String.concat " "
         ([joined (leg1MarketTitle row); joined (leg2MarketTitle row);
           joined (leg1EventTitle row); joined (leg2EventTitle row)]
          ++ primaryCategories ++ subcategories ++ tags)) in
  let hasAny (terms : list string) := existsb (fun term => includes corpus term) terms in
  let hasCategory (terms : list string) :=
    existsb (fun c => existsb (fun term => includes c term) terms) primaryCategories in
  let hasTag (terms : list string) :=
    existsb (fun t => existsb (fun term => includes t term) terms) tags in
  let cryptoTerms := ["crypto"; "bitcoin"; "btc"; "ethereum"; "eth"; "solana"; "sol"]%string in
  let politicsTerms :=
    ["politic"; "election"; "president"; "senate"; "house"; "governor"]%string in
  let sportsTerms :=
    ["sports"; "nba"; "nfl"; "mlb"; "nhl"; "soccer"; "fifa"; "tennis"]%string in
  let macroTerms :=
    ["cpi"; "inflation"; "fed"; "fomc"; "interest rate"; "gdp"; "unemployment"]%string in
  let commoditiesTerms := ["gold"; "silver"; "oil"; "crude"; "natural gas"]%string in
  let normalizedDomainFromCategory : option string :=
    let joinedCategories := String.concat " " primaryCategories in
    if includes joinedCategories "politic" then Some "politics"%string
    else if includes joinedCategories "sport" then Some "sports"%string
    else if includes joinedCategories "finance"
            || includes joinedCategories "econom"
            || includes joinedCategories "crypto"
            || includes joinedCategories "business"
    then Some "finance"%string
    else if includes joinedCategories "culture"
            || includes joinedCategories "entertainment"
            || includes joinedCategories "awards"
    then Some "culture"%string
    else if includes joinedCategories "technology"
            || includes joinedCategories "tech"
            || includes joinedCategories "ai"
            || includes joinedCategories "science"
    then Some "technology"%string
    else None in
  if hasAny cryptoTerms || hasCategory ["crypto"%string] || hasTag ["crypto"%string] then
    {| domain := "finance"; subdomain := "crypto";
       topic := if hasAny ["bitcoin"; "btc"]%string then "btc"
                else if hasAny ["ethereum"; "eth"]%string then "eth"
                else if hasAny ["solana"; "sol"]%string then "sol"
                else "crypto_other";
       source := "market_metadata" |}
  else if hasAny commoditiesTerms then
    {| domain := "finance"; subdomain := "commodities";
       topic := if hasAny ["gold"%string] then "gold"
                else if hasAny ["silver"%string] then "silver"
                else if hasAny ["oil"; "crude"]%string then "oil"
                else "commodities_other";
       source := "market_metadata" |}
  else if hasAny macroTerms || hasCategory ["econom"; "finance"]%string then
    {| domain := "finance"; subdomain := "macro";
       topic := if hasAny ["cpi"; "inflation"]%string then "inflation" else "macro_other";
       source := "market_metadata" |}
  else if hasAny politicsTerms || hasCategory ["politic"%string] then
    {| domain := "politics"; subdomain := "elections";
       topic := if hasAny ["president"%string] then "presidential" else "politics_other";
       source := "market_metadata" |}
  else if hasAny sportsTerms || hasCategory ["sports"%string] then
    {| domain := "sports"; subdomain := "general";
       topic := if hasAny ["nba"%string] then "nba"
                else if hasAny ["nfl"%string] then "nfl"
                else if hasAny ["mlb"%string] then "mlb"
                else "sports_other";
       source := "market_metadata" |}
  else if (0 <? length primaryCategories)%nat
          || (0 <? length tags)%nat
          || (0 <? length subcategories)%nat
  then
    {| domain := match normalizedDomainFromCategory with
                 | Some d => d
                 | None => "other"
                 end;
       subdomain := match head subcategories with
                    | Some s => s
                    | None => match head tags with
                              | Some t => t
                              | None => "other"
                              end
                    end;
       topic := "metadata_other";
       source := "market_metadata" |}
  else
    {| domain := "other"; subdomain := "other"; topic := "unknown";
       source := "heuristic" |}.

End Classifier.

End Taxonomy.

(** ** scripts/generate-capacity-labels.mjs *)

Module GenerateCapacityLabels.

Definition HOUR_MS : Q := 60 * 60 * 1000.
Definition MINUTE_MS : Q := 60 * 1000.
Definition MAX_MODEL_WINDOW_MS : Q := 7 * 24 * 60 * 60 * 1000.
Definition LATE_WINDOW_HOURS : Q := 24.
Definition NEAR_RESOLUTION_HOURS : Q := 6.

Record phase : Type := {
  key : string;
  minHours : Q;
  maxHours : Q
}.

Definition RESOLUTION_PHASES : list phase := [
  {| key := "T_7d_3d"; minHours := 72; maxHours := 168 |};
  {| key := "T_3d_1d"; minHours := 24; maxHours := 72 |};
  {| key := "T_24h_6h"; minHours := 6; maxHours := 24 |};
  {| key := "T_6h_1h"; minHours := 1; maxHours := 6 |};
  {| key := "T_1h_close"; minHours := 0; maxHours := 1 |}
].

Definition POLICY_WINDOW_HOURS_BY_PHASE : gmap string Q :=
  list_to_map [
    ("T_7d_3d"%string, 24);
    ("T_3d_1d"%string, 12);
    ("T_24h_6h"%string, 6);
    ("T_6h_1h"%string, 1);
    ("T_1h_close"%string, 0.5)
  ].

(** The value of a tags field of a row: [null] or absent; an array of
    strings (a string counts as the array of its characters, which is what
    the spread makes of it); or a value that is not iterable, a number, a
    boolean or an object. *)
Inductive tagsValue : Type :=
  | TagsNullish
  | TagsArray (tags : list string)
  | TagsNotIterable.

(** The fields of a decision row that label synthesis reads.  The
    categories, subcategories and titles are strings or [null], as in
    [Taxonomy.metadata]. *)
Record row : Type := {
  decisionTs : jsval;
  dedupeKey : jsval;
  expectedEdgeAtDecision : jsval;
  targetContractsAtDecision : jsval;
  minKernelContractsAtDecision : jsval;
  leg1ExpiresAt : jsval;
  leg2ExpiresAt : jsval;
  oppLeg1ExpiresAt : jsval;
  oppLeg2ExpiresAt : jsval;
  leg1MarketCategory : option string;
  leg2MarketCategory : option string;
  leg1MarketSubcategory : option string;
  leg2MarketSubcategory : option string;
  leg1MarketTags : tagsValue;
  leg2MarketTags : tagsValue;
  leg1MarketTitle : option string;
  leg2MarketTitle : option string;
  leg1EventTitle : option string;
  leg2EventTitle : option string
}.

(** The best-so-far trackers of the candidate scan of
    [buildResolutionAnchoredLabels]; a timestamp tracker holds the raw
    [decisionTs] of the candidate, [null] before the first update. *)
Record trackers : Type := {
  bestEdge7d : option Q;
  bestEdgeTs : jsval;
  bestCapAdj7d : option Q;
  bestCapAdjTs : jsval;
  bestFillRatio7d : option Q;
  bestFutureCapacity7d : option Q;
  bestLateCapAdj : option Q;
  bestLateFillRatio : option Q;
  bestNearResCapAdj : option Q;
  bestPolicyWindowCapAdj : option Q;
  bestPolicyWindowFillRatio : option Q;
  bestPolicyWindowTs : jsval
}.

Definition noTrackers : trackers := {|
  bestEdge7d := None;
  bestEdgeTs := JNull;
  bestCapAdj7d := None;
  bestCapAdjTs := JNull;
  bestFillRatio7d := None;
  bestFutureCapacity7d := None;
  bestLateCapAdj := None;
  bestLateFillRatio := None;
  bestNearResCapAdj := None;
  bestPolicyWindowCapAdj := None;
  bestPolicyWindowFillRatio := None;
  bestPolicyWindowTs := JNull
|}.

(** The object [buildResolutionAnchoredLabels] returns. *)
Record resolutionAnchoredLabel : Type := {
  timeToResolutionHoursNow : option num;
  phaseNow : option string;
  edgeUplift7d : Q;
  improvesEdge7d : bool;
  bestFutureEdge7d : Q;
  minutesToBestEdge7d : option num;
  nowCapacityContracts : option Q;
  bestFutureCapacityContracts7d : option Q;
  capacityChangeContracts7d : option Q;
  capacityAdjustedUplift7d : option Q;
  improvesCapacityAdjusted7d : option bool;
  minutesToBestCapacityAdjusted7d : option num;
  bestFillRatioAtNowSize7d : option Q;
  bestLateWindowCapacityAdjustedUplift : option Q;
  bestLateWindowFillRatioAtNowSize : option Q;
  enterEarlyBetterThanLate : option bool;
  nearResolutionCapacityAdjustedUplift : option Q;
  policyWindowHours : num;
  deltaNetPnlPolicyWindowAtNowSize : option Q;
  buyNowBeatsWaitWindow : option bool;
  bestWaitFillRatioPolicyWindowAtNowSize : option Q;
  minutesToBestPolicyWindow : option num;
  labelCensoredPolicyWindow : bool
}.

(** The object stored under a fixed horizon key ([15m], [1h], [3h]). *)
Record horizonLabel : Type := {
  edgeUplift : Q;
  improvesEdge : bool;
  bestFutureEdge : Q;
  minutesToBestEdge : option num;
  h_nowCapacityContracts : option Q;
  bestFutureCapacityContracts : option Q;
  capacityChangeContracts : option Q;
  capacityAdjustedUplift : option Q;
  improvesCapacityAdjusted : option bool;
  bestFillRatioAtNowSize : option Q;
  minutesToBestCapacityAdjusted : option num
}.

Record horizon : Type := {
  h_key : string;
  ms : Q
}.

Definition HORIZONS : list horizon := [
  {| h_key := "15m"; ms := 15 * 60 * 1000 |};
  {| h_key := "1h"; ms := 60 * 60 * 1000 |};
  {| h_key := "3h"; ms := 3 * 60 * 60 * 1000 |}
].

(** The [labels] object of a row. *)
Record labels : Type := {
  horizons : list (string * option horizonLabel);
  resolutionAnchored : option resolutionAnchoredLabel;
  taxonomy : Taxonomy.taxonomy
}.

(** A row whose two tags fields can be spread: neither holds a value that
    is not iterable. *)
Definition iterableTags (r : row) : bool :=
  match leg1MarketTags r, leg2MarketTags r with
  | TagsNotIterable, _ | _, TagsNotIterable => false
  | _, _ => true
  end.

(** [row.legNMarketTags] as the classifier reads it once it is spread. *)
Definition spreadable (tags : tagsValue) : option (list string) :=
  match tags with
  | TagsArray l => Some l
  | _ => None
  end.

Section Script.
Context `{Builtins}.

(** A capacity field that parses to a positive finite number. *)
Definition positiveCapacity (v : jsval) : option Q :=
  match safeNum v with
  | Some q => if Qltb 0 q then Some q else None
  | None => None
  end.

Definition resolveCapacity (r : row) : option Q :=
  let candidates :=
    List.filter
      (fun x => match x with Some q => Qltb 0 q | None => false end)
      [safeNum (targetContractsAtDecision r);
       safeNum (minKernelContractsAtDecision r)] in
  match omap id candidates with
  | [] => None
  | c :: cs => Some (Math_min_spread c cs)
  end.

Definition parseResolutionTs (r : row) : option Q :=
  let candidates :=
    omap finite_or_null
      (map Date_getTime
         (List.filter truthy
            [leg1ExpiresAt r; leg2ExpiresAt r;
             oppLeg1ExpiresAt r; oppLeg2ExpiresAt r])) in
  match candidates with
  | [] => None
  | c :: cs => Some (Math_min_spread c cs)
  end.

Definition inPhase (ttrHours : num) (p : phase) : bool :=
  num_geb ttrHours (Fin (minHours p)) && num_ltb ttrHours (Fin (maxHours p)).

Definition resolvePhaseKey (ttrHours : option num) : option string :=
  match ttrHours with
  | None => None
  | Some h =>
      match List.find (inPhase h) RESOLUTION_PHASES with
      | Some p => Some (key p)
      | None => None
      end
  end.

Definition resolvePolicyWindowHours
    (phaseKey : option string) (ttrHoursNow : option num) : num :=
  let byTtr :=
    match ttrHoursNow with
    | None => Fin 24
    | Some t => Math_max (Fin 0.5) (Math_min (Fin 24) (num_div t (Fin 4)))
    end in
  match phaseKey with
  | Some k =>
      if String.eqb k EmptyString then byTtr
      else match POLICY_WINDOW_HOURS_BY_PHASE !! k with
           | Some hours => Fin hours
           | None => byTtr
           end
  | None => byTtr
  end.

(** The scan [for (j = idx + 1; ...)] of both label builders: the rows after
    [idx] up to the first one later than [maxTs], which ends the scan. *)
Fixpoint scanUntil (maxTs : num) (rest : list row) : list row :=
  match rest with
  | [] => []
  | r :: rest' =>
      if num_gtb (Date_getTime (decisionTs r)) maxTs then []
      else r :: scanUntil maxTs rest'
  end.

Definition futureRowsWithinHorizon
    (seq : list row) (idx : nat) (now : row) (horizonMs : Q)
    (resolutionTs : option Q) : list row :=
  let t0 := Date_getTime (decisionTs now) in
  let absoluteMaxTs :=
    match resolutionTs with
    | None => num_add t0 (Fin (Qmin horizonMs MAX_MODEL_WINDOW_MS))
    | Some r =>
        Math_min
          (Math_min (num_add t0 (Fin horizonMs))
                    (num_add t0 (Fin MAX_MODEL_WINDOW_MS)))
          (Fin r)
    end in
  scanUntil absoluteMaxTs (skipn (S idx) seq).

(** [t === null ? null : (new Date(t).getTime() - nowTsMs) / (60 * 1000)]. *)
Definition minutesSince (nowTsMs : num) (t : jsval) : option num :=
  if is_null t then None
  else Some (num_div (num_sub (Date_getTime t) nowTsMs) (Fin MINUTE_MS)).

(** [resolutionTs === null ? null : (resolutionTs - tsMs) / (60 * 60 * 1000)]. *)
Definition hoursToResolution (resolutionTs : option Q) (tsMs : num) : option num :=
  match resolutionTs with
  | None => None
  | Some r => Some (num_div (num_sub (Fin r) tsMs) (Fin HOUR_MS))
  end.

(** [h !== null && h <= bound]. *)
Definition withinHours (h : option num) (bound : Q) : bool :=
  match h with
  | None => false
  | Some x => num_leb x (Fin bound)
  end.

(** [hours * 60 * 60 * 1000]. *)
Definition hoursToMs (hours : num) : num :=
  num_mul (num_mul (num_mul hours (Fin 60)) (Fin 60)) (Fin 1000).

(** The window end of the resolution-anchored scan. *)
Definition windowEndTs (nowTsMs : num) (resolutionTs : option Q) : num :=
  match resolutionTs with
  | None => num_add nowTsMs (Fin MAX_MODEL_WINDOW_MS)
  | Some r => Math_min (Fin r) (num_add nowTsMs (Fin MAX_MODEL_WINDOW_MS))
  end.

(** The candidates of the resolution-anchored scan of the row at [idx]. *)
Definition resolutionCandidates
    (seq : list row) (idx : nat) (now : row) (resolutionTs : option Q) : list row :=
  scanUntil (windowEndTs (Date_getTime (decisionTs now)) resolutionTs)
            (skipn (S idx) seq).

(** One iteration of [for (const c of candidates)] in
    [buildResolutionAnchoredLabels]. *)
Definition scanCandidate
    (nowEdge : Q) (nowCapacity : option Q) (resolutionTs : option Q)
    (policyWindowEndTs : num) (t : trackers) (c : row) : trackers :=
  let cCap := resolveCapacity c in
  let cTsMs := Date_getTime (decisionTs c) in
  let cTtrHours := hoursToResolution resolutionTs cTsMs in
  match safeNum (expectedEdgeAtDecision c) with
  | None => t
  | Some cEdge =>
      let newEdge := improves (bestEdge7d t) cEdge in
      let newCapacity :=
        match cCap with
        | Some cc => improves (bestFutureCapacity7d t) cc
        | None => false
        end in
      (* the block guarded by
         nowCapacity !== null && nowCapacity > 0 && cCap !== null *)
      let sized :=
        match nowCapacity, cCap with
        | Some nc, Some cc =>
            if Qltb 0 nc then
              let fillable := Qmin nc cc in
              let fillRatio := fillable / nc in
              let currentProfit := nowEdge * nc in
              let futureProfit := cEdge * fillable in
              Some (futureProfit - currentProfit, fillRatio)
            else None
        | _, _ => None
        end in
      let upd (cond : bool) (best : option Q) : bool :=
        match sized with
        | Some (uplift, _) => cond && improves best uplift
        | None => false
        end in
      let uplift := option_map fst sized in
      let fillRatio := option_map snd sized in
      let new7d := upd true (bestCapAdj7d t) in
      let newLate :=
        upd (withinHours cTtrHours LATE_WINDOW_HOURS) (bestLateCapAdj t) in
      let newNear :=
        upd (withinHours cTtrHours NEAR_RESOLUTION_HOURS) (bestNearResCapAdj t) in
      let newPolicy :=
        upd (num_leb cTsMs policyWindowEndTs) (bestPolicyWindowCapAdj t) in
      {| bestEdge7d := if newEdge then Some cEdge else bestEdge7d t;
         bestEdgeTs := if newEdge then decisionTs c else bestEdgeTs t;
         bestCapAdj7d := if new7d then uplift else bestCapAdj7d t;
         bestCapAdjTs := if new7d then decisionTs c else bestCapAdjTs t;
         bestFillRatio7d := if new7d then fillRatio else bestFillRatio7d t;
         bestFutureCapacity7d :=
           if newCapacity then cCap else bestFutureCapacity7d t;
         bestLateCapAdj := if newLate then uplift else bestLateCapAdj t;
         bestLateFillRatio := if newLate then fillRatio else bestLateFillRatio t;
         bestNearResCapAdj := if newNear then uplift else bestNearResCapAdj t;
         bestPolicyWindowCapAdj :=
           if newPolicy then uplift else bestPolicyWindowCapAdj t;
         bestPolicyWindowFillRatio :=
           if newPolicy then fillRatio else bestPolicyWindowFillRatio t;
         bestPolicyWindowTs :=
           if newPolicy then decisionTs c else bestPolicyWindowTs t |}
  end.

Definition buildResolutionAnchoredLabels
    (seq : list row) (idx : nat) (resolutionTs : option Q)
    : completion (option resolutionAnchoredLabel) :=
  match nth_error seq idx with
  | None => Throw "TypeError"
  | Some now =>
      let nowEdge := safeNum (expectedEdgeAtDecision now) in
      let nowCapacity := resolveCapacity now in
      let nowTsMs := Date_getTime (decisionTs now) in
      let windowEnd := windowEndTs nowTsMs resolutionTs in
      let candidates := resolutionCandidates seq idx now resolutionTs in
      match candidates, nowEdge with
      | [], _ | _, None => Normal None
      | _ :: _, Some nowEdge =>
          let ttrHoursNow := hoursToResolution resolutionTs nowTsMs in
          let phaseNow := resolvePhaseKey ttrHoursNow in
          let policyWindowHours := resolvePolicyWindowHours phaseNow ttrHoursNow in
          let policyWindowEndTs :=
            Math_min windowEnd
              (num_add nowTsMs (hoursToMs policyWindowHours)) in
          let t :=
            fold_left
              (scanCandidate nowEdge nowCapacity resolutionTs policyWindowEndTs)
              candidates noTrackers in
          match bestEdge7d t with
          | None => Normal None
          | Some best =>
              let edgeUplift7d := best - nowEdge in
              Normal (Some {|
                timeToResolutionHoursNow := ttrHoursNow;
                phaseNow := phaseNow;
                edgeUplift7d := edgeUplift7d;
                improvesEdge7d := Qltb 0 edgeUplift7d;
                bestFutureEdge7d := best;
                minutesToBestEdge7d := minutesSince nowTsMs (bestEdgeTs t);
                nowCapacityContracts := nowCapacity;
                bestFutureCapacityContracts7d := bestFutureCapacity7d t;
                capacityChangeContracts7d :=
                  match nowCapacity, bestFutureCapacity7d t with
                  | Some nc, Some fc => Some (fc - nc)
                  | _, _ => None
                  end;
                capacityAdjustedUplift7d := bestCapAdj7d t;
                improvesCapacityAdjusted7d := option_map (Qltb 0) (bestCapAdj7d t);
                minutesToBestCapacityAdjusted7d :=
                  minutesSince nowTsMs (bestCapAdjTs t);
                bestFillRatioAtNowSize7d := bestFillRatio7d t;
                bestLateWindowCapacityAdjustedUplift := bestLateCapAdj t;
                bestLateWindowFillRatioAtNowSize := bestLateFillRatio t;
                enterEarlyBetterThanLate :=
                  option_map (fun u => Qle_bool u 0) (bestLateCapAdj t);
                nearResolutionCapacityAdjustedUplift := bestNearResCapAdj t;
                policyWindowHours := policyWindowHours;
                deltaNetPnlPolicyWindowAtNowSize := bestPolicyWindowCapAdj t;
                buyNowBeatsWaitWindow :=
                  option_map (fun u => Qle_bool u 0) (bestPolicyWindowCapAdj t);
                bestWaitFillRatioPolicyWindowAtNowSize :=
                  bestPolicyWindowFillRatio t;
                minutesToBestPolicyWindow :=
                  minutesSince nowTsMs (bestPolicyWindowTs t);
                labelCensoredPolicyWindow :=
                  match bestPolicyWindowCapAdj t with
                  | None => true
                  | Some _ => false
                  end
              |})
          end
      end
  end.

(** The trackers of a fixed-horizon scan in [buildLabelsForRow]. *)
Definition scanHorizonCandidate
    (nowEdge : Q) (nowCapacity : option Q)
    (t : option Q * jsval * option Q * jsval * option Q * option Q) (c : row)
    : option Q * jsval * option Q * jsval * option Q * option Q :=
  let '(bestEdge, bestEdgeTs, bestCapacityAdjustedUplift,
        bestCapacityAdjustedTs, bestFillRatio, bestFutureCapacity) := t in
  let cCapacity := resolveCapacity c in
  match safeNum (expectedEdgeAtDecision c) with
  | None => t
  | Some cEdge =>
      let newEdge := improves bestEdge cEdge in
      let newCapacity :=
        match cCapacity with
        | Some cc => improves bestFutureCapacity cc
        | None => false
        end in
      let sized :=
        match nowCapacity, cCapacity with
        | Some nc, Some cc =>
            if Qltb 0 nc then
              let fillable := Qmin nc cc in
              let fillRatio := fillable / nc in
              let currentProfitAtNowSize := nowEdge * nc in
              let futureProfitAtNowSize := cEdge * fillable in
              Some (futureProfitAtNowSize - currentProfitAtNowSize, fillRatio)
            else None
        | _, _ => None
        end in
      let newUplift :=
        match sized with
        | Some (uplift, _) => improves bestCapacityAdjustedUplift uplift
        | None => false
        end in
      (if newEdge then Some cEdge else bestEdge,
       if newEdge then decisionTs c else bestEdgeTs,
       if newUplift then option_map fst sized else bestCapacityAdjustedUplift,
       if newUplift then decisionTs c else bestCapacityAdjustedTs,
       if newUplift then option_map snd sized else bestFillRatio,
       if newCapacity then cCapacity else bestFutureCapacity)
  end.

(** The body of [for (const horizon of HORIZONS)] for one horizon. *)
Definition buildHorizonLabel
    (seq : list row) (idx : nat) (now : row) (resolutionTs : option Q)
    (hz : horizon) : option horizonLabel :=
  let nowEdge := safeNum (expectedEdgeAtDecision now) in
  let nowCapacity := resolveCapacity now in
  let nowTsMs := Date_getTime (decisionTs now) in
  let candidates := futureRowsWithinHorizon seq idx now (ms hz) resolutionTs in
  match candidates, nowEdge with
  | [], _ | _, None => None
  | _ :: _, Some nowEdge =>
      let '(bestEdge, bestEdgeTs, bestCapacityAdjustedUplift,
            bestCapacityAdjustedTs, bestFillRatio, bestFutureCapacity) :=
        fold_left (scanHorizonCandidate nowEdge nowCapacity) candidates
          (None, JNull, None, JNull, None, None) in
      match bestEdge with
      | None => None
      | Some best =>
          let edgeUplift := best - nowEdge in
          Some {|
            edgeUplift := edgeUplift;
            improvesEdge := Qltb 0 edgeUplift;
            bestFutureEdge := best;
            minutesToBestEdge := minutesSince nowTsMs bestEdgeTs;
            h_nowCapacityContracts := nowCapacity;
            bestFutureCapacityContracts := bestFutureCapacity;
            capacityChangeContracts :=
              match nowCapacity, bestFutureCapacity with
              | Some nc, Some fc => Some (fc - nc)
              | _, _ => None
              end;
            capacityAdjustedUplift := bestCapacityAdjustedUplift;
            improvesCapacityAdjusted :=
              option_map (Qltb 0) bestCapacityAdjustedUplift;
            bestFillRatioAtNowSize := bestFillRatio;
            minutesToBestCapacityAdjusted :=
              minutesSince nowTsMs bestCapacityAdjustedTs
          |}
      end
  end.

(** [classifyTaxonomy(row)] on a row of the dataset: the spread
    [[...(row.leg1MarketTags ?? []), ...(row.leg2MarketTags ?? [])]] throws
    a [TypeError] on a value that is not iterable, and no other statement of
    the classifier throws. *)
Definition classifyTaxonomyRow (r : row) : completion Taxonomy.taxonomy :=
  if iterableTags r then
    Normal
      (Taxonomy.classifyTaxonomy String_toLowerCase
         {| Taxonomy.leg1MarketCategory := leg1MarketCategory r;
            Taxonomy.leg2MarketCategory := leg2MarketCategory r;
            Taxonomy.leg1MarketSubcategory := leg1MarketSubcategory r;
            Taxonomy.leg2MarketSubcategory := leg2MarketSubcategory r;
            Taxonomy.leg1MarketTags := spreadable (leg1MarketTags r);
            Taxonomy.leg2MarketTags := spreadable (leg2MarketTags r);
            Taxonomy.leg1MarketTitle := leg1MarketTitle r;
            Taxonomy.leg2MarketTitle := leg2MarketTitle r;
            Taxonomy.leg1EventTitle := leg1EventTitle r;
            Taxonomy.leg2EventTitle := leg2EventTitle r |})
  else Throw "TypeError".

(** [buildLabelsForRow]: the taxonomy tag is computed first, so a row that
    the classifier rejects gets no label. *)
Definition buildLabelsForRow (seq : list row) (idx : nat) : completion labels :=
  match nth_error seq idx with
  | None => Throw "TypeError"
  | Some now =>
      match classifyTaxonomyRow now with
      | Throw e => Throw e
      | Normal tag =>
          let resolutionTs := parseResolutionTs now in
          let byHorizon :=
            map (fun hz => (h_key hz, buildHorizonLabel seq idx now resolutionTs hz))
                HORIZONS in
          match buildResolutionAnchoredLabels seq idx resolutionTs with
          | Throw e => Throw e
          | Normal res =>
              Normal {| horizons := byHorizon; resolutionAnchored := res;
                        taxonomy := tag |}
          end
      end
  end.



End Script.

End GenerateCapacityLabels.

(** ** Helpers of the modelling scripts *)

(** [Array.prototype.sort(cmp)].  The sort is stable, and for a comparator
    that orders its arguments consistently every stable sort returns the same
    array; it is computed here by insertion from the right, an element going
    before the first element it does not compare greater than. *)
Fixpoint insert_by {A : Type} (cmp : A -> A -> Q) (x : A) (sorted : list A) : list A :=
  match sorted with
  | [] => [x]
  | y :: rest =>
      if Qle_bool (cmp x y) 0 then x :: y :: rest
      else y :: insert_by cmp x rest
  end.

Fixpoint sort_by {A : Type} (cmp : A -> A -> Q) (l : list A) : list A :=
  match l with
  | [] => []
  | x :: rest => insert_by cmp x (sort_by cmp rest)
  end.

(** [s[i]] for an integer [i]: [None] outside the array, where JavaScript
    reads [undefined]. *)
Definition at_index {A : Type} (s : list A) (i : Z) : option A :=
  if (i <? 0)%Z then None else nth_error s (Z.to_nat i).

(** [quantile].  [None] is [null] on the empty array; it also stands for
    the non-numeric result ([undefined] or [NaN]) of a read outside the
    array, which needs [q] outside [[0, 1]]. *)
Definition quantile (values : list Q) (q : Q) : option Q :=
  match values with
  | [] => None
  | _ =>
      let s := sort_by (fun a b => a - b) values in
      let idx := (inject_Z (Z.of_nat (length s)) - 1) * q in
      let lo := Qfloor idx in
      let hi := Qceiling idx in
      if (lo =? hi)%Z then at_index s lo
      else
        let frac := idx - inject_Z lo in
        match at_index s lo, at_index s hi with
        | Some slo, Some shi => Some (slo * (1 - frac) + shi * frac)
        | _, _ => None
        end
  end.

(** [ToNumber] of a number-or-null: [null] counts as [0] in arithmetic. *)
Definition nullAsZero (v : option Q) : Q :=
  match v with
  | Some q => q
  | None => 0
  end.

(** [xs.map((x, i) => f(x, i))]. *)
Fixpoint mapi_from {A B : Type} (f : A -> nat -> B) (i : nat) (xs : list A) : list B :=
  match xs with
  | [] => []
  | x :: rest => f x i :: mapi_from f (S i) rest
  end.

Definition mapi {A B : Type} (f : A -> nat -> B) (xs : list A) : list B :=
  mapi_from f 0 xs.

(** [probs[i] >= threshold]; a read outside [probs] is [undefined], for which
    the comparison is false. *)
Definition probAtLeast (probs : list Q) (i : nat) (threshold : Q) : bool :=
  match nth_error probs i with
  | Some p => Qle_bool threshold p
  | None => false
  end.

Fixpoint zip_with {A B C : Type} (f : A -> B -> C) (xs : list A) (ys : list B) : list C :=
  match xs, ys with
  | x :: xs', y :: ys' => f x y :: zip_with f xs' ys'
  | _, _ => []
  end.

(** A row as [prepareRows] leaves it: the raw fields of the labelled row and
    the derived fields. *)
Record preparedRow : Type := {
  raw : gmap string jsval;
  _decisionTsMs : Q;
  _regTarget : option Q;
  _clsTarget : option bool;
  _censored : bool;
  _phaseNow : string;
  _ttrHours : option Q;
  _policyWindowHours : option Q;
  _taxonomyDomain : string;
  _segmentKey : string
}.

Record schema : Type := {
  numericKeys : list string;
  phaseBuckets : list string;
  domainBuckets : list string;
  leg1VenueBuckets : list string;
  leg2VenueBuckets : list string;
  leg1IntentBuckets : list string;
  leg2IntentBuckets : list string
}.

Record scalerStat : Type := {
  s_mean : Q;
  s_std : Q
}.

(** [row[name]]. *)
Definition field (r : preparedRow) (name : string) : jsval :=
  match raw r !! name with
  | Some v => v
  | None => JUndefined
  end.

(** [row[name] ?? "unknown"] for a categorical field, which holds a string
    when it is present. *)
Definition categorical (r : preparedRow) (name : string) : string :=
  match field r name with
  | JString s => s
  | _ => "unknown"
  end.

(** [[...new Set(xs)].sort()] on strings: distinct values in the order of
    their code units. *)
Definition string_cmp (a b : string) : Q :=
  match String.compare a b with
  | Lt => -1
  | Eq => 0
  | Gt => 1
  end.

Definition sortedDistinct (xs : list string) : list string :=
  sort_by string_cmp (remove_dups xs).

Definition buildSchema (trainRows : list preparedRow) : schema := {|
  numericKeys := [
    "expectedEdgeAtDecision"; "targetContractsAtDecision";
    "minKernelContractsAtDecision"; "avgLegPriceAtDecision";
    "budgetUsdAtDecision"; "requestUsd"; "availableUsd"; "legCount";
    "_ttrHours"; "_policyWindowHours"
  ]%string;
  phaseBuckets := sortedDistinct (map _phaseNow trainRows);
  domainBuckets := sortedDistinct (map _taxonomyDomain trainRows);
  leg1VenueBuckets :=
    sortedDistinct (map (fun r => categorical r "leg1Venue") trainRows);
  leg2VenueBuckets :=
    sortedDistinct (map (fun r => categorical r "leg2Venue") trainRows);
  leg1IntentBuckets :=
    sortedDistinct (map (fun r => categorical r "leg1OrderIntent") trainRows);
  leg2IntentBuckets :=
    sortedDistinct (map (fun r => categorical r "leg2OrderIntent") trainRows)
|}.

(** [oneHotValue]: a [1] at the first index of [value] in [buckets]. *)
Fixpoint oneHotValue (value : string) (buckets : list string) : list Q :=
  match buckets with
  | [] => []
  | b :: rest =>
      if String.eqb b value then 1 :: map (fun _ => 0) rest
      else 0 :: oneHotValue value rest
  end.

Section Modelling.
Context `{Builtins}.

Definition sigmoid (z : Q) : Q :=
  if Qle_bool 0 z then
    let ez := Math_exp (- z) in
    1 / (1 + ez)
  else
    let ez := Math_exp z in
    ez / (1 + ez).

(** [safeNum(row[key])]: the derived numeric fields are stored under their
    own keys. *)
Definition numericField (r : preparedRow) (name : string) : option Q :=
  if String.eqb name "_ttrHours" then _ttrHours r
  else if String.eqb name "_policyWindowHours" then _policyWindowHours r
  else safeNum (field r name).

Definition fitScaler (trainRows : list preparedRow) (keys : list string)
    : gmap string scalerStat :=
  fold_left
    (fun stats name =>
       let values := omap (fun r => numericField r name) trainRows in
       let mu := nullAsZero (mean values) in
       let variance := mean (map (fun v => (v - mu) * (v - mu)) values) in
       let sigma :=
         Math_sqrt (match variance with Some v => v | None => 1 end) in
       <[name := {| s_mean := mu;
                    s_std := if Qltb 1e-8 sigma then sigma else 1 |}]>
         stats)
    keys ∅.

(** [buildVector]; every numeric key of a schema has its entry in the scaler
    fitted with it. *)
Definition buildVector
    (r : preparedRow) (sch : schema) (scaler : gmap string scalerStat) : list Q :=
  [1]
  ++ map (fun name =>
            match numericField r name, scaler !! name with
            | Some v, Some s => (v - s_mean s) / s_std s
            | _, _ => 0
            end)
         (numericKeys sch)
  ++ oneHotValue (_phaseNow r) (phaseBuckets sch)
  ++ oneHotValue (_taxonomyDomain r) (domainBuckets sch)
  ++ oneHotValue (categorical r "leg1Venue") (leg1VenueBuckets sch)
  ++ oneHotValue (categorical r "leg2Venue") (leg2VenueBuckets sch)
  ++ oneHotValue (categorical r "leg1OrderIntent") (leg1IntentBuckets sch)
  ++ oneHotValue (categorical r "leg2OrderIntent") (leg2IntentBuckets sch).

End Modelling.

(** Sequencing of calls that may throw. *)
#[global] Instance completion_ret : MRet completion := fun A a => Normal a.

#[global] Instance completion_bind : MBind completion :=
  fun A B k c =>
    match c with
    | Normal a => k a
    | Throw e => Throw e
    end.

Fixpoint foldM {A S : Type} (step : S -> A -> completion S) (xs : list A) (s : S)
    : completion S :=
  match xs with
  | [] => Normal s
  | x :: rest => s' ← step s x; foldM step rest s'
  end.

Definition zeros (d : nat) : list Q := repeat 0 d.

(** One epoch of [ridgeTrain]: the batch gradient of the squared error with
    factor [2 / n], the penalty on every weight but the bias, the step. *)
Definition ridgeEpoch (lr lambda : Q) (X : list (list Q)) (y : list Q) (w : list Q)
    : list Q :=
  let n := inject_Z (Z.of_nat (length X)) in
  let g :=
    fold_left
      (fun g xy =>
         let err := dot w (fst xy) - snd xy in
         zip_with (fun gj xij => gj + (2 / n) * err * xij) g (fst xy))
      (combine X y) (zeros (length w)) in
  let g :=
    mapi (fun gj j => if (j =? 0)%nat then gj else gj + 2 * lambda * nth j w 0) g in
  zip_with (fun wj gj => wj - lr * gj) w g.

(** [ridgeTrain]; [X[0].length] throws on an empty [X]. *)
Definition ridgeTrain (lr : Q) (epochs : nat) (lambda : Q)
    (X : list (list Q)) (y : list Q) : completion (list Q) :=
  match X with
  | [] => Throw "TypeError"
  | x0 :: _ => Normal (Nat.iter epochs (ridgeEpoch lr lambda X y) (zeros (length x0)))
  end.

(** [fitPlatt]'s and [logisticTrain]'s epochs need [sigmoid]. *)
Section Training.
Context `{Builtins}.

Definition logisticEpoch (lr lambda posWeight : Q)
    (X : list (list Q)) (y : list Q) (w : list Q) : list Q :=
  let n := inject_Z (Z.of_nat (length X)) in
  let g :=
    fold_left
      (fun g xy =>
         let p := sigmoid (dot w (fst xy)) in
         let weight := if Qeq_bool (snd xy) 1 then posWeight else 1 in
         let err := (p - snd xy) * weight in
         zip_with (fun gj xij => gj + err * xij) g (fst xy))
      (combine X y) (zeros (length w)) in
  let g := map (fun gj => gj / n) g in
  let g :=
    mapi (fun gj j => if (j =? 0)%nat then gj else gj + 2 * lambda * nth j w 0) g in
  zip_with (fun wj gj => wj - lr * gj) w g.

Definition logisticTrain (lr : Q) (epochs : nat) (lambda posWeight : Q)
    (X : list (list Q)) (y : list Q) : completion (list Q) :=
  match X with
  | [] => Throw "TypeError"
  | x0 :: _ =>
      Normal (Nat.iter epochs (logisticEpoch lr lambda posWeight X y)
                (zeros (length x0)))
  end.

Definition plattEpoch (lr l2 : Q) (logits labels : list Q) (ab : Q * Q) : Q * Q :=
  let '(a, b) := ab in
  let n := inject_Z (Z.of_nat (length logits)) in
  let '(ga, gb) :=
    fold_left
      (fun g zl =>
         let p := sigmoid (a * fst zl + b) in
         let err := p - snd zl in
         (fst g + err * fst zl, snd g + err))
      (combine logits labels) (0, 0) in
  let ga := ga / n + 2 * l2 * a in
  let gb := gb / n + 2 * l2 * b in
  (a - lr * ga, b - lr * gb).

Definition fitPlatt (lr : Q) (epochs : nat) (l2 : Q) (logits labels : list Q) : Q * Q :=
  match logits with
  | [] => (1, 0)
  | _ => Nat.iter epochs (plattEpoch lr l2 logits labels) (1, 0)
  end.

End Training.

(** [groupBySegment]: a [Map] from segment key to rows, in insertion order. *)
Fixpoint groupInsert (r : preparedRow) (m : list (string * list preparedRow))
    : list (string * list preparedRow) :=
  match m with
  | [] => [(_segmentKey r, [r])]
  | (k, rs) :: rest =>
      if String.eqb k (_segmentKey r) then (k, rs ++ [r]) :: rest
      else (k, rs) :: groupInsert r rest
  end.

Definition groupBySegment (rows : list preparedRow) : list (string * list preparedRow) :=
  fold_left (fun m r => groupInsert r m) rows [].

(** [rows.filter((r) => !r._censored && r._regTarget !== null)]. *)
Definition labelled (r : preparedRow) : bool :=
  negb (_censored r) && match _regTarget r with Some _ => true | None => false end.

(** [xs.slice(from, to)] for [0 <= from <= to]. *)
Definition slice {A : Type} (xs : list A) (from to : nat) : list A :=
  firstn (to - from) (skipn from xs).

(** [r._clsTarget ?? 0] as a number. *)
Definition clsOrZero (r : preparedRow) : Q :=
  match _clsTarget r with
  | Some true => 1
  | _ => 0
  end.

Definition count_eq (v : Q) (ys : list Q) : nat :=
  length (List.filter (fun y => Qeq_bool y v) ys).

Definition Qnat (n : nat) : Q := inject_Z (Z.of_nat n).

(** The threshold grid of both tuning loops. *)
Definition thresholdGrid : list Q := [0.35; 0.4; 0.45; 0.5; 0.55; 0.6; 0.65].

(** ** The walk-forward backtest script *)

Module WalkForward.

Definition MIN_SEGMENT_ROWS : nat := 80.

Record regSegment : Type := {
  lo : Q;
  hi : Q;
  w : list Q
}.

(** What [decisionPnl] returns. *)
Record decision : Type := {
  meanRelativePnl : option Q;
  totalRelativePnl : Q;
  buyRate : option Q
}.

(** An entry [{ threshold: t, ...decisionPnl(valid, validProbs, t) }]. *)
Record tuningEntry : Type := {
  threshold : Q;
  atThreshold : decision
}.

(** What [runWindow] returns for a window it does not skip. *)
Record windowResult : Type := {
  r_threshold : Q;
  trainRows : nat;
  validRows : nat;
  testRows : nat;
  validBestMeanRelativePnl : option Q;
  testDecision : decision
}.

(** An entry of the report's [windows]; the two timestamps are kept in
    milliseconds. *)
Record window : Type := {
  windowIndex : nat;
  startTs : option Q;
  endTs : option Q;
  result : windowResult
}.

Definition decisionPnl (rows : list preparedRow) (probs : list Q) (t : Q) : decision :=
  let rewards :=
    mapi (fun r i => if probAtLeast probs i t then Some 0 else _regTarget r) rows in
  {| meanRelativePnl := mean (map nullAsZero rewards);
     totalRelativePnl := sum (map nullAsZero rewards);
     buyRate := mean (map (fun p => if Qle_bool t p then 1 else 0) probs) |}.

(** [grid.map(...).sort((a, b) => b.meanRelativePnl - a.meanRelativePnl)]. *)
Definition tuning (valid : list preparedRow) (validProbs : list Q) : list tuningEntry :=
  sort_by
    (fun a b =>
       nullAsZero (meanRelativePnl (atThreshold b))
       - nullAsZero (meanRelativePnl (atThreshold a)))
    (map (fun t => {| threshold := t; atThreshold := decisionPnl valid validProbs t |})
         thresholdGrid).

Definition trainCount : nat := 1400.
Definition validCount : nat := 300.
Definition testCount : nat := 250.
Definition stride : nat := 150.
Definition required : nat := trainCount + validCount + testCount.

Section Script.
Context `{Builtins}.

(** The loop over [segGroups] in [runWindow]: the state is the pair
    [(regSegments, clsSegments)]. *)
Definition fitSegment
    (sch : schema) (scaler : gmap string scalerStat)
    (segs : gmap string regSegment * gmap string (list Q))
    (group : string * list preparedRow)
    : completion (gmap string regSegment * gmap string (list Q)) :=
  let '(regSegments, clsSegments) := segs in
  let '(seg, segRows) := group in
  if (length segRows <? MIN_SEGMENT_ROWS)%nat then Normal segs
  else
    let X := map (fun r => buildVector r sch scaler) segRows in
    let regYRaw := map (fun r => nullAsZero (_regTarget r)) segRows in
    let lo := nullAsZero (quantile regYRaw 0.05) in
    let hi := nullAsZero (quantile regYRaw 0.95) in
    wts ← ridgeTrain 0.01 1200 0.2 X (map (fun v => clip v lo hi) regYRaw);
    let regSegments := <[seg := {| lo := lo; hi := hi; w := wts |}]> regSegments in
    let cy := map clsOrZero segRows in
    let p := count_eq 1 cy in
    let n := count_eq 0 cy in
    if (0 <? p)%nat && (0 <? n)%nat then
      cw ← logisticTrain 0.02 1500 0.1 (Qnat n / Qnat p) X cy;
      Normal (regSegments, <[seg := cw]> clsSegments)
    else Normal (regSegments, clsSegments).

Definition runWindow (windowRows : list preparedRow) (trainCount validCount testCount : nat)
    : completion (option windowResult) :=
  let train := List.filter labelled (slice windowRows 0 trainCount) in
  let valid :=
    List.filter labelled (slice windowRows trainCount (trainCount + validCount)) in
  let test :=
    List.filter labelled
      (slice windowRows (trainCount + validCount)
         (trainCount + validCount + testCount)) in
  if (length train <? 200)%nat || (length valid <? 50)%nat || (length test <? 50)%nat
  then Normal None
  else
    let sch := buildSchema train in
    let scaler := fitScaler train (numericKeys sch) in
    let vectorize := map (fun r => buildVector r sch scaler) in
    let regTrainX := vectorize train in
    let regTrainYRaw := map (fun r => nullAsZero (_regTarget r)) train in
    let winsorLo := nullAsZero (quantile regTrainYRaw 0.05) in
    let winsorHi := nullAsZero (quantile regTrainYRaw 0.95) in
    let regTrainY := map (fun v => clip v winsorLo winsorHi) regTrainYRaw in
    regGlobalW ← ridgeTrain 0.01 1200 0.2 regTrainX regTrainY;
    let clsTrainY := map clsOrZero train in
    let pos := count_eq 1 clsTrainY in
    let neg := count_eq 0 clsTrainY in
    let posWeight := if (0 <? pos)%nat then Qnat neg / Qnat pos else 1 in
    clsGlobalW ← logisticTrain 0.02 1500 0.1 posWeight regTrainX clsTrainY;
    segs ← foldM (fitSegment sch scaler) (groupBySegment train) (∅, ∅);
    let clsSegments := snd segs in
    let predictLogit (r : preparedRow) :=
      let x := buildVector r sch scaler in
      let wts :=
        match clsSegments !! _segmentKey r with
        | Some segW => segW
        | None => clsGlobalW
        end in
      dot wts x in
    let validLogits := map predictLogit valid in
    let validLabels := map clsOrZero valid in
    let platt := fitPlatt 0.01 800 0.01 validLogits validLabels in
    let predictProb (r : preparedRow) :=
      sigmoid (fst platt * predictLogit r + snd platt) in
    let validProbs := map predictProb valid in
    match tuning valid validProbs with
    | [] => Throw "TypeError"
    | best :: _ =>
        let testProbs := map predictProb test in
        Normal (Some {|
          r_threshold := threshold best;
          trainRows := length train;
          validRows := length valid;
          testRows := length test;
          validBestMeanRelativePnl := meanRelativePnl (atThreshold best);
          testDecision := decisionPnl test testProbs (threshold best)
        |})
    end.

(** [for (let start = 0; start + required <= allRows.length; start += stride)]:
    [fuel] bounds the number of iterations left. *)
Fixpoint windowsFrom (fuel : nat) (allRows : list preparedRow) (start : nat)
    (windows : list window) : completion (list window) :=
  match fuel with
  | O => Normal windows
  | S fuel' =>
      if (start + required <=? length allRows)%nat then
        let sl := slice allRows start (start + required) in
        res ← runWindow sl trainCount validCount testCount;
        match res with
        | None => windowsFrom fuel' allRows (start + stride) windows
        | Some r =>
            windowsFrom fuel' allRows (start + stride)
              (windows ++ [{| windowIndex := length windows + 1;
                              startTs := option_map _decisionTsMs (head sl);
                              endTs := option_map _decisionTsMs (last sl);
                              result := r |}])
        end
      else Normal windows
  end.

(** A window one of whose slices, filtered to the rows that are not censored
    and have a regression target, is below its minimum of 200, 50 and 50
    rows. *)
Definition undersized (windowRows : list preparedRow) (trainCount validCount testCount : nat)
    : Prop :=
  (length (List.filter labelled (slice windowRows 0 trainCount)) < 200
   \/ length (List.filter labelled
                (slice windowRows trainCount (trainCount + validCount))) < 50
   \/ length (List.filter labelled
                (slice windowRows (trainCount + validCount)
                   (trainCount + validCount + testCount))) < 50)%nat.

(** The starting offsets at which a full window fits, as the loop visits
    them. *)
Fixpoint windowStartsFrom (fuel n start : nat) : list nat :=
  match fuel with
  | O => []
  | S fuel' =>
      if (start + required <=? n)%nat
      then start :: windowStartsFrom fuel' n (start + stride)
      else []
  end.

Definition windowStarts (n : nat) : list nat := windowStartsFrom (S n) n 0.

(** The result of the window that starts at [start], [None] when
    [runWindow] skips it. *)
Definition resultAt (allRows : list preparedRow) (start : nat) : option windowResult :=
  match runWindow (slice allRows start (start + required))
          trainCount validCount testCount with
  | Normal (Some r) => Some r
  | _ => None
  end.

(** The [windows] of the report: the loop can run at most once per row. *)
Definition windows (allRows : list preparedRow) : completion (list window) :=
  windowsFrom (S (length allRows)) allRows 0 [].

End Script.

End WalkForward.

(** ** Array lengths and indices in binary64

    The scripts compute the indices of their slices from array lengths with
    the arithmetic of binary64, rounded to nearest. *)

Module Float64.

Local Open Scope float_scope.

(** The integer below a finite number, and the one above. *)
Definition floorZ (x : float) : option Z :=
  match Prim2SF x with
  | S754_zero _ => Some 0%Z
  | S754_finite s m e => Some (Z.shiftl (if s then Zneg m else Zpos m) e)
  | _ => None
  end.

Definition ceilZ (x : float) : option Z :=
  match floorZ (- x) with
  | Some z => Some (- z)%Z
  | None => None
  end.

(** The number of an array length or an index. *)
Definition ofNat (n : nat) : float := PrimFloat.of_uint63 (Uint63.of_Z (Z.of_nat n)).

Definition ofZ (z : Z) : float :=
  if (z <? 0)%Z then - PrimFloat.of_uint63 (Uint63.of_Z (- z))
  else PrimFloat.of_uint63 (Uint63.of_Z z).

(** [Math.floor(x)] as an index, for a product of an array length and a
    fraction: the products are not negative. *)
Definition floorNat (x : float) : nat :=
  match floorZ x with
  | Some z => Z.to_nat z
  | None => 0
  end.

End Float64.

(** ** scripts/train-robust-models.mjs *)

Module TrainRobust.

Definition MIN_SEGMENT_ROWS : nat := 120.

Record regSegment : Type := {
  weights : list Q;
  lo : Q;
  hi : Q;
  rows : nat
}.

Record clsSegment : Type := {
  c_weights : list Q;
  c_rows : nat
}.

(** What [decisionPnL] returns. *)
Record decision : Type := {
  meanRelativePnlVsAlwaysBuyNow : option Q;
  totalRelativePnlVsAlwaysBuyNow : Q;
  buyRate : option Q
}.

Record tuningEntry : Type := {
  threshold : Q;
  atThreshold : decision
}.

(** The values the script computes and writes as artifacts; the winsorization
    bounds are the two results of [quantile], [null] included. *)
Record artifacts : Type := {
  a_schema : schema;
  a_scaler : gmap string scalerStat;
  winsorLo : option Q;
  winsorHi : option Q;
  regGlobalW : list Q;
  regSegments : gmap string regSegment;
  clsGlobalW : list Q;
  clsSegments : gmap string clsSegment;
  platt : Q * Q;
  tunedThreshold : Q;
  thresholdTuningOnValidation : list tuningEntry
}.

Record split : Type := {
  train : list preparedRow;
  valid : list preparedRow;
  test : list preparedRow
}.

(** [splitChronological] with its default fractions; the two products and
    the sum of the fractions are those of binary64. *)
Definition splitChronological (rs : list preparedRow) : split :=
  let n := Float64.ofNat (length rs) in
  let trainEnd := Nat.max 1 (Float64.floorNat (n * 0.7)%float) in
  let validEnd :=
    Nat.max (trainEnd + 1) (Float64.floorNat (n * (0.7 + 0.15))%float) in
  {| train := slice rs 0 trainEnd;
     valid := slice rs trainEnd validEnd;
     test := skipn validEnd rs |}.

(** [!r._censored && r._clsTarget !== null]. *)
Definition classified (r : preparedRow) : bool :=
  negb (_censored r) && match _clsTarget r with Some _ => true | None => false end.

Definition decisionPnL (rowsIn : list preparedRow) (probs : list Q) (t : Q) : decision :=
  let rewards :=
    mapi (fun r i => if probAtLeast probs i t then Some 0 else _regTarget r) rowsIn in
  {| meanRelativePnlVsAlwaysBuyNow := mean (map nullAsZero rewards);
     totalRelativePnlVsAlwaysBuyNow := sum (map nullAsZero rewards);
     buyRate := mean (map (fun p => if Qle_bool t p then 1 else 0) probs) |}.

(** [thresholdGrid.map(...)] followed by the sort by descending mean. *)
Definition validThresholds (clsValidRows : list preparedRow) (clsProbValid : list Q)
    : list tuningEntry :=
  sort_by
    (fun a b =>
       nullAsZero (meanRelativePnlVsAlwaysBuyNow (atThreshold b))
       - nullAsZero (meanRelativePnlVsAlwaysBuyNow (atThreshold a)))
    (map (fun t => {| threshold := t;
                      atThreshold := decisionPnL clsValidRows clsProbValid t |})
         thresholdGrid).

Section Script.
Context `{Builtins}.

(** The body of the loop over [regGroups]. *)
Definition fitRegSegment
    (sch : schema) (scaler : gmap string scalerStat)
    (segs : gmap string regSegment) (group : string * list preparedRow)
    : completion (gmap string regSegment) :=
  let '(seg, segRows) := group in
  if (length segRows <? MIN_SEGMENT_ROWS)%nat then Normal segs
  else
    let X := map (fun r => buildVector r sch scaler) segRows in
    let rawY := map (fun r => nullAsZero (_regTarget r)) segRows in
    let lo := nullAsZero (quantile rawY 0.05) in
    let hi := nullAsZero (quantile rawY 0.95) in
    let y := map (fun v => clip v lo hi) rawY in
    wts ← ridgeTrain 0.01 1500 0.2 X y;
    Normal (<[seg := {| weights := wts; lo := lo; hi := hi;
                        rows := length segRows |}]> segs).

(** The body of the loop over [clsGroups]. *)
Definition fitClsSegment
    (sch : schema) (scaler : gmap string scalerStat)
    (segs : gmap string clsSegment) (group : string * list preparedRow)
    : completion (gmap string clsSegment) :=
  let '(seg, segRows) := group in
  if (length segRows <? MIN_SEGMENT_ROWS)%nat then Normal segs
  else
    let X := map (fun r => buildVector r sch scaler) segRows in
    let y := map clsOrZero segRows in
    let p := count_eq 1 y in
    let n := count_eq 0 y in
    if (p =? 0)%nat || (n =? 0)%nat then Normal segs
    else
      wts ← logisticTrain 0.02 1800 0.1 (Qnat n / Qnat p) X y;
      Normal (<[seg := {| c_weights := wts; c_rows := length segRows |}]> segs).

Definition predictClsLogitRow
    (sch : schema) (scaler : gmap string scalerStat)
    (clsSegs : gmap string clsSegment) (globalW : list Q) (r : preparedRow) : Q :=
  let x := buildVector r sch scaler in
  let wts :=
    match clsSegs !! _segmentKey r with
    | Some seg => c_weights seg
    | None => globalW
    end in
  dot wts x.

(** The script from the prepared rows to the artifacts; the metric reports
    are left out. *)
Definition trainModels (rs : list preparedRow) : completion artifacts :=
  let sp := splitChronological rs in
  let sch := buildSchema (train sp) in
  let scaler := fitScaler (train sp) (numericKeys sch) in
  let regTrainRows := List.filter labelled (train sp) in
  let clsTrainRows := List.filter classified (train sp) in
  let clsValidRows := List.filter classified (valid sp) in
  let regTrainYRaw := map (fun r => nullAsZero (_regTarget r)) regTrainRows in
  let winsorLo := quantile regTrainYRaw 0.05 in
  let winsorHi := quantile regTrainYRaw 0.95 in
  let vectorize := map (fun r => buildVector r sch scaler) in
  let regGlobalX := vectorize regTrainRows in
  let regGlobalY :=
    map (fun v => clip v (nullAsZero winsorLo) (nullAsZero winsorHi)) regTrainYRaw in
  regGlobalW ← ridgeTrain 0.01 1500 0.2 regGlobalX regGlobalY;
  let clsGlobalY := map clsOrZero clsTrainRows in
  let pos := count_eq 1 clsGlobalY in
  let neg := count_eq 0 clsGlobalY in
  let posWeight := if (0 <? pos)%nat then Qnat neg / Qnat pos else 1 in
  let clsGlobalX := vectorize clsTrainRows in
  clsGlobalW ← logisticTrain 0.02 1800 0.1 posWeight clsGlobalX clsGlobalY;
  regSegments ← foldM (fitRegSegment sch scaler) (groupBySegment regTrainRows) ∅;
  clsSegments ← foldM (fitClsSegment sch scaler) (groupBySegment clsTrainRows) ∅;
  let logit := predictClsLogitRow sch scaler clsSegments clsGlobalW in
  let validLogits := map logit clsValidRows in
  let validY := map clsOrZero clsValidRows in
  let platt := fitPlatt 0.01 1200 0.01 validLogits validY in
  let calibratedProb (z : Q) := sigmoid (fst platt * z + snd platt) in
  let clsProbValid := map (fun r => calibratedProb (logit r)) clsValidRows in
  let sorted := validThresholds clsValidRows clsProbValid in
  match sorted with
  | [] => Throw "TypeError"
  | best :: _ =>
      Normal {|
        a_schema := sch;
        a_scaler := scaler;
        winsorLo := winsorLo;
        winsorHi := winsorHi;
        regGlobalW := regGlobalW;
        regSegments := regSegments;
        clsGlobalW := clsGlobalW;
        clsSegments := clsSegments;
        platt := platt;
        tunedThreshold := threshold best;
        thresholdTuningOnValidation := sorted
      |}
  end.

End Script.

End TrainRobust.

(** ** scripts/backtest-robust-models.mjs *)

Module BacktestRobust.

Inductive decision : Type :=
  | buy_now
  | wait.

Definition is_buy_now (d : decision) : bool :=
  match d with buy_now => true | wait => false end.

Definition is_wait (d : decision) : bool :=
  match d with buy_now => false | wait => true end.

Record evaluation : Type := {
  threshold : Q;
  rows : nat;
  buyRate : option Q;
  waitRate : option Q;
  meanRelativePnlVsAlwaysBuyNow : option Q;
  totalRelativePnlVsAlwaysBuyNow : Q;
  meanOracleRelativePnlVsAlwaysBuyNow : option Q;
  totalOracleRelativePnlVsAlwaysBuyNow : Q
}.

(** [probs.map((p) => (p >= threshold ? "buy_now" : "wait"))]. *)
Definition decisions (probs : list Q) (t : Q) : list decision :=
  map (fun p => if Qle_bool t p then buy_now else wait) probs.

(** [rows.map((r, i) => (decisions[i] === "buy_now" ? 0 : r._regTarget))]. *)
Definition rewards (rs : list preparedRow) (ds : list decision) : list (option Q) :=
  mapi (fun r i =>
          match nth_error ds i with
          | Some buy_now => Some 0
          | _ => _regTarget r
          end) rs.

Definition evaluate (rs : list preparedRow) (probs : list Q) (t : Q) : evaluation :=
  let ds := decisions probs t in
  let rw := map nullAsZero (rewards rs ds) in
  let oracle := map (fun r => Qmax 0 (nullAsZero (_regTarget r))) rs in
  {| threshold := t;
     rows := length rs;
     buyRate := mean (map (fun d => if is_buy_now d then 1 else 0) ds);
     waitRate := mean (map (fun d => if is_wait d then 1 else 0) ds);
     meanRelativePnlVsAlwaysBuyNow := mean rw;
     totalRelativePnlVsAlwaysBuyNow := sum rw;
     meanOracleRelativePnlVsAlwaysBuyNow := mean oracle;
     totalOracleRelativePnlVsAlwaysBuyNow := sum oracle |}.

End BacktestRobust.

(** ** The baseline backtest script *)

Module BacktestBaseline.

Import BacktestRobust.

(** [rows.map((_, i) => (probs[i] >= threshold ? "buy_now" : "wait"))]. *)
Definition decisions (rs : list preparedRow) (probs : list Q) (t : Q) : list decision :=
  mapi (fun _ i => if probAtLeast probs i t then buy_now else wait) rs.

(** The rewards, [null] where the row has no target. *)
Definition rewards (rs : list preparedRow) (ds : list decision) : list (option Q) :=
  mapi (fun r i =>
          match _regTarget r with
          | None => None
          | Some delta =>
              match nth_error ds i with
              | Some buy_now => Some 0
              | _ => Some delta
              end
          end) rs.

Definition oracleRewards (rs : list preparedRow) : list (option Q) :=
  map (fun r => option_map (Qmax 0) (_regTarget r)) rs.

Definition evaluateDecision (rs : list preparedRow) (probs : list Q) (t : Q) : evaluation :=
  let ds := decisions rs probs t in
  let validRewards := omap id (rewards rs ds) in
  let validOracle := omap id (oracleRewards rs) in
  {| threshold := t;
     rows := length rs;
     buyRate := mean (map (fun d => if is_buy_now d then 1 else 0) ds);
     waitRate := mean (map (fun d => if is_wait d then 1 else 0) ds);
     meanRelativePnlVsAlwaysBuyNow := mean validRewards;
     totalRelativePnlVsAlwaysBuyNow := sum validRewards;
     meanOracleRelativePnlVsAlwaysBuyNow := mean validOracle;
     totalOracleRelativePnlVsAlwaysBuyNow := sum validOracle |}.

End BacktestBaseline.

(** ** The regression path in binary64

    The functions below are the ones of [train-robust-models.mjs] that
    produce and use the regression artifacts, with the arithmetic of the
    scripts: IEEE-754 binary64, rounded to nearest.  The classification
    statements of the script, which lie between them and write none of these
    values, are left out; they return whenever a training row has a class
    target. *)

Module Binary64.

Import Float64.
Local Open Scope float_scope.

(** [Math.min] and [Math.max] of two numbers; of two zeros [Math.min] keeps
    the negative one and [Math.max] the positive one. *)
Definition Math_min (a b : float) : float :=
  if PrimFloat.is_nan a || PrimFloat.is_nan b then nan
  else if PrimFloat.ltb a b then a
  else if PrimFloat.ltb b a then b
  else if PrimFloat.get_sign a then a else b.

Definition Math_max (a b : float) : float :=
  if PrimFloat.is_nan a || PrimFloat.is_nan b then nan
  else if PrimFloat.ltb a b then b
  else if PrimFloat.ltb b a then a
  else if PrimFloat.get_sign a then b else a.

Definition clip (v lo hi : float) : float := Math_max lo (Math_min hi v).

Definition sum (values : list float) : float := fold_left PrimFloat.add values 0.

Definition mean (values : list float) : option float :=
  match values with
  | [] => None
  | _ => Some (sum values / ofNat (length values))
  end.

Fixpoint dot_from (s : float) (a b : list float) : float :=
  match a, b with
  | x :: a', y :: b' => dot_from (s + x * y) a' b'
  | _, _ => s
  end.

Definition dot (a b : list float) : float := dot_from 0 a b.

(** The stable sort with the comparator [(a, b) => a - b]. *)
Fixpoint insert_ascending (x : float) (sorted : list float) : list float :=
  match sorted with
  | [] => [x]
  | y :: rest =>
      if PrimFloat.leb (x - y) 0 then x :: y :: rest
      else y :: insert_ascending x rest
  end.

Fixpoint sort_ascending (l : list float) : list float :=
  match l with
  | [] => []
  | x :: rest => insert_ascending x (sort_ascending rest)
  end.

(** [quantile]; [None] as in the exact model. *)
Definition quantile (values : list float) (q : float) : option float :=
  match values with
  | [] => None
  | _ =>
      let s := sort_ascending values in
      let idx := (ofNat (length s) - 1) * q in
      match floorZ idx, ceilZ idx with
      | Some lo, Some hi =>
          if (lo =? hi)%Z then at_index s lo
          else
            let frac := idx - ofZ lo in
            match at_index s lo, at_index s hi with
            | Some slo, Some shi => Some (slo * (1 - frac) + shi * frac)
            | _, _ => None
            end
      | _, _ => None
      end
  end.

(** [ToNumber] of a number-or-null. *)
Definition nullAsZero (v : option float) : float :=
  match v with
  | Some x => x
  | None => 0
  end.

(** A prepared row: [numeric] holds the raw numeric fields that [safeNum]
    accepts, [categories] the categorical fields that are present. *)
Record preparedRow : Type := {
  numeric : gmap string float;
  categories : gmap string string;
  _regTarget : option float;
  _clsTarget : option bool;
  _censored : bool;
  _phaseNow : string;
  _ttrHours : option float;
  _policyWindowHours : option float;
  _taxonomyDomain : string;
  _segmentKey : string
}.

Record scalerStat : Type := {
  s_mean : float;
  s_std : float
}.

Record regSegment : Type := {
  weights : list float;
  lo : float;
  hi : float;
  rows : nat
}.

(** The regression artifacts of a run. *)
Record artifacts : Type := {
  a_schema : schema;
  a_scaler : gmap string scalerStat;
  winsorLo : option float;
  winsorHi : option float;
  regGlobalW : list float;
  regSegments : gmap string regSegment
}.

Definition categorical (r : preparedRow) (name : string) : string :=
  match categories r !! name with
  | Some s => s
  | None => "unknown"
  end.

Definition numericField (r : preparedRow) (name : string) : option float :=
  if String.eqb name "_ttrHours" then _ttrHours r
  else if String.eqb name "_policyWindowHours" then _policyWindowHours r
  else numeric r !! name.

Definition buildSchema (trainRows : list preparedRow) : schema := {|
  numericKeys := [
    "expectedEdgeAtDecision"; "targetContractsAtDecision";
    "minKernelContractsAtDecision"; "avgLegPriceAtDecision";
    "budgetUsdAtDecision"; "requestUsd"; "availableUsd"; "legCount";
    "_ttrHours"; "_policyWindowHours"
  ]%string;
  phaseBuckets := sortedDistinct (map _phaseNow trainRows);
  domainBuckets := sortedDistinct (map _taxonomyDomain trainRows);
  leg1VenueBuckets :=
    sortedDistinct (map (fun r => categorical r "leg1Venue") trainRows);
  leg2VenueBuckets :=
    sortedDistinct (map (fun r => categorical r "leg2Venue") trainRows);
  leg1IntentBuckets :=
    sortedDistinct (map (fun r => categorical r "leg1OrderIntent") trainRows);
  leg2IntentBuckets :=
    sortedDistinct (map (fun r => categorical r "leg2OrderIntent") trainRows)
|}.

Fixpoint oneHotValue (value : string) (buckets : list string) : list float :=
  match buckets with
  | [] => []
  | b :: rest =>
      if String.eqb b value then 1 :: map (fun _ => 0) rest
      else 0 :: oneHotValue value rest
  end.

Definition fitScaler (trainRows : list preparedRow) (keys : list string)
    : gmap string scalerStat :=
  fold_left
    (fun stats name =>
       let values := omap (fun r => numericField r name) trainRows in
       let mu := nullAsZero (mean values) in
       let variance := mean (map (fun v => (v - mu) * (v - mu)) values) in
       let sigma :=
         PrimFloat.sqrt (match variance with Some v => v | None => 1 end) in
       <[name := {| s_mean := mu;
                    s_std := if PrimFloat.ltb 1e-8 sigma then sigma else 1 |}]>
         stats)
    keys ∅.

Definition buildVector
    (r : preparedRow) (sch : schema) (scaler : gmap string scalerStat) : list float :=
  [1]
  ++ map (fun name =>
            match numericField r name, scaler !! name with
            | Some v, Some s => (v - s_mean s) / s_std s
            | _, _ => 0
            end)
         (numericKeys sch)
  ++ oneHotValue (_phaseNow r) (phaseBuckets sch)
  ++ oneHotValue (_taxonomyDomain r) (domainBuckets sch)
  ++ oneHotValue (categorical r "leg1Venue") (leg1VenueBuckets sch)
  ++ oneHotValue (categorical r "leg2Venue") (leg2VenueBuckets sch)
  ++ oneHotValue (categorical r "leg1OrderIntent") (leg1IntentBuckets sch)
  ++ oneHotValue (categorical r "leg2OrderIntent") (leg2IntentBuckets sch).

Definition zeros (d : nat) : list float := repeat 0 d.

Definition ridgeEpoch (lr lambda : float) (X : list (list float)) (y : list float)
    (w : list float) : list float :=
  let n := ofNat (length X) in
  let g :=
    fold_left
      (fun g xy =>
         let err := dot w (fst xy) - snd xy in
         zip_with (fun gj xij => gj + (2 / n) * err * xij) g (fst xy))
      (combine X y) (zeros (length w)) in
  let g :=
    mapi (fun gj j => if (j =? 0)%nat then gj else gj + 2 * lambda * nth j w 0) g in
  zip_with (fun wj gj => wj - lr * gj) w g.

Definition ridgeTrain (lr : float) (epochs : nat) (lambda : float)
    (X : list (list float)) (y : list float) : completion (list float) :=
  match X with
  | [] => Throw "TypeError"
  | x0 :: _ => Normal (Nat.iter epochs (ridgeEpoch lr lambda X y) (zeros (length x0)))
  end.

Fixpoint groupInsert (r : preparedRow) (m : list (string * list preparedRow))
    : list (string * list preparedRow) :=
  match m with
  | [] => [(_segmentKey r, [r])]
  | (k, rs) :: rest =>
      if String.eqb k (_segmentKey r) then (k, rs ++ [r]) :: rest
      else (k, rs) :: groupInsert r rest
  end.

Definition groupBySegment (rs : list preparedRow) : list (string * list preparedRow) :=
  fold_left (fun m r => groupInsert r m) rs [].

Definition labelled (r : preparedRow) : bool :=
  negb (_censored r) && match _regTarget r with Some _ => true | None => false end.

Definition trainSlice (rs : list preparedRow) : list preparedRow :=
  let trainEnd := Nat.max 1 (floorNat (ofNat (length rs) * 0.7)) in
  slice rs 0 trainEnd.

Definition testSlice (rs : list preparedRow) : list preparedRow :=
  let n := ofNat (length rs) in
  let trainEnd := Nat.max 1 (floorNat (n * 0.7)) in
  let validEnd := Nat.max (trainEnd + 1) (floorNat (n * (0.7 + 0.15))) in
  skipn validEnd rs.

Definition fitRegSegment
    (sch : schema) (scaler : gmap string scalerStat)
    (segs : gmap string regSegment) (group : string * list preparedRow)
    : completion (gmap string regSegment) :=
  let '(seg, segRows) := group in
  if (length segRows <? TrainRobust.MIN_SEGMENT_ROWS)%nat then Normal segs
  else
    let X := map (fun r => buildVector r sch scaler) segRows in
    let rawY := map (fun r => nullAsZero (_regTarget r)) segRows in
    let lo := nullAsZero (quantile rawY 0.05) in
    let hi := nullAsZero (quantile rawY 0.95) in
    let y := map (fun v => clip v lo hi) rawY in
    wts ← ridgeTrain 0.01 1500 0.2 X y;
    Normal (<[seg := {| weights := wts; lo := lo; hi := hi;
                        rows := length segRows |}]> segs).

(** The statements of the script that compute the regression artifacts from
    the prepared rows. *)
Definition trainRegression (rs : list preparedRow) : completion artifacts :=
  let train := trainSlice rs in
  let sch := buildSchema train in
  let scaler := fitScaler train (numericKeys sch) in
  let regTrainRows := List.filter labelled train in
  let regTrainYRaw := map (fun r => nullAsZero (_regTarget r)) regTrainRows in
  let winsorLo := quantile regTrainYRaw 0.05 in
  let winsorHi := quantile regTrainYRaw 0.95 in
  let regGlobalX := map (fun r => buildVector r sch scaler) regTrainRows in
  let regGlobalY :=
    map (fun v => clip v (nullAsZero winsorLo) (nullAsZero winsorHi)) regTrainYRaw in
  regGlobalW ← ridgeTrain 0.01 1500 0.2 regGlobalX regGlobalY;
  regSegments ← foldM (fitRegSegment sch scaler) (groupBySegment regTrainRows) ∅;
  Normal {|
    a_schema := sch;
    a_scaler := scaler;
    winsorLo := winsorLo;
    winsorHi := winsorHi;
    regGlobalW := regGlobalW;
    regSegments := regSegments
  |}.

Definition predictRegRow (art : artifacts) (r : preparedRow) : float :=
  let x := buildVector r (a_schema art) (a_scaler art) in
  match regSegments art !! _segmentKey r with
  | Some seg => clip (dot (weights seg) x) (lo seg) (hi seg)
  | None =>
      clip (dot (regGlobalW art) x)
        (nullAsZero (winsorLo art)) (nullAsZero (winsorHi art))
  end.

(** [predictReg] of [backtest-robust-models.mjs], on the artifacts that
    [train-robust-models.mjs] wrote: a number of binary64 is read back from
    JSON as it was written. *)
Definition predictReg (art : artifacts) (r : preparedRow) : float :=
  let x := buildVector r (a_schema art) (a_scaler art) in
  match regSegments art !! _segmentKey r with
  | Some seg => clip (dot (weights seg) x) (lo seg) (hi seg)
  | None =>
      clip (dot (regGlobalW art) x)
        (nullAsZero (winsorLo art)) (nullAsZero (winsorHi art))
  end.

(** [regTestRows.map(predictRegRow)]. *)
Definition regPredTest (rs : list preparedRow) : completion (list float) :=
  art ← trainRegression rs;
  Normal (map (predictRegRow art) (List.filter labelled (testSlice rs))).

(** A row with regression target [t], the class target that goes with it
    ([t <= 0]), and no raw field set. *)
Definition targetRow (t : float) : preparedRow := {|
  numeric := ∅;
  categories := ∅;
  _regTarget := Some t;
  _clsTarget := Some (PrimFloat.leb t 0);
  _censored := false;
  _phaseNow := "T_7d_3d";
  _ttrHours := None;
  _policyWindowHours := None;
  _taxonomyDomain := "finance";
  _segmentKey := "finance::T_7d_3d"
|}.

(** Five rows in chronological order, every target [0.3]: three fall in the
    training slice, one in validation, one in test. *)
Definition constantTargets : list preparedRow := repeat (targetRow 0.3) 5.

End Binary64.

(** ** Worked examples *)

Module Examples.

Import GenerateCapacityLabels.

(** A decision row of the series [k] decided at [ts], with the given edge
    and target contracts, no leg expiry and no market metadata. *)
Definition rowAt (ts : string) (edge contracts : jsval) : row := {|
  decisionTs := JString ts;
  dedupeKey := JString "k";
  expectedEdgeAtDecision := edge;
  targetContractsAtDecision := contracts;
  minKernelContractsAtDecision := JNull;
  leg1ExpiresAt := JNull;
  leg2ExpiresAt := JNull;
  oppLeg1ExpiresAt := JNull;
  oppLeg2ExpiresAt := JNull;
  leg1MarketCategory := None;
  leg2MarketCategory := None;
  leg1MarketSubcategory := None;
  leg2MarketSubcategory := None;
  leg1MarketTags := TagsNullish;
  leg2MarketTags := TagsNullish;
  leg1MarketTitle := None;
  leg2MarketTitle := None;
  leg1EventTitle := None;
  leg2EventTitle := None
|}.

Definition firstRow : row :=
  rowAt "2026-01-01T00:00:00.000Z" (JNumber 0.02) (JNumber 100).

(** Edges [0.02, 0.05, 0.01] at 0, 30 and 90 minutes, capacity 100. *)
Definition threeRows : list row := [
  firstRow;
  rowAt "2026-01-01T00:30:00.000Z" (JNumber 0.05) (JNumber 100);
  rowAt "2026-01-01T01:30:00.000Z" (JNumber 0.01) (JNumber 100)
].

(** A series of one row. *)
Definition oneRow : list row := [firstRow].





(** The prepared row [r] with regression target [t]. *)
Definition withTarget (r : preparedRow) (t : Q) : preparedRow := {|
  raw := raw r;
  _decisionTsMs := _decisionTsMs r;
  _regTarget := Some t;
  _clsTarget := _clsTarget r;
  _censored := _censored r;
  _phaseNow := _phaseNow r;
  _ttrHours := _ttrHours r;
  _policyWindowHours := _policyWindowHours r;
  _taxonomyDomain := _taxonomyDomain r;
  _segmentKey := _segmentKey r
|}.

(** A prepared row that is neither censored nor without targets. *)
Definition labelledRow : preparedRow := {|
  raw := ∅;
  _decisionTsMs := 0;
  _regTarget := Some 1;
  _clsTarget := Some false;
  _censored := false;
  _phaseNow := "T_7d_3d";
  _ttrHours := Some 100;
  _policyWindowHours := Some 24;
  _taxonomyDomain := "finance";
  _segmentKey := "finance::T_7d_3d"
|}.

(** A prepared row whose policy-window label is censored. *)
Definition censoredRow : preparedRow := {|
  raw := ∅;
  _decisionTsMs := 0;
  _regTarget := None;
  _clsTarget := None;
  _censored := true;
  _phaseNow := "unknown";
  _ttrHours := None;
  _policyWindowHours := None;
  _taxonomyDomain := "other";
  _segmentKey := "other::unknown"
|}.

End Examples.

(** ** scripts/generate-capacity-labels.mjs: the statements around the
       label builders *)

Module LabelGeneration.

Export Taxonomy.
Import GenerateCapacityLabels.

(** The equality of [Map] keys (SameValueZero) on the values of JSON. *)
Definition sameValueZero (a b : jsval) : bool :=
  match a, b with
  | JUndefined, JUndefined => true
  | JNull, JNull => true
  | JBool x, JBool y => Bool.eqb x y
  | JNumber x, JNumber y => Qeq_bool x y
  | JString x, JString y => String.eqb x y
  | _, _ => false
  end.

(** The rows the grouping loop does not skip: the guard
    [!row.dedupeKey || !row.decisionTs || row.expectedEdgeAtDecision === null]
    is false. *)
Definition kept (r : row) : bool :=
  negb (negb (truthy (dedupeKey r))
        || negb (truthy (decisionTs r))
        || is_null (expectedEdgeAtDecision r)).

(** [if (!grouped.has(k)) grouped.set(k, []); grouped.get(k).push(row)]: a
    [Map] keeps its keys in the order of their first insertion. *)
Fixpoint groupPush (r : row) (m : list (jsval * list row)) : list (jsval * list row) :=
  match m with
  | [] => [(dedupeKey r, [r])]
  | (k, rs) :: rest =>
      if sameValueZero k (dedupeKey r) then (k, rs ++ [r]) :: rest
      else (k, rs) :: groupPush r rest
  end.

Definition grouped (rows : list row) : list (jsval * list row) :=
  fold_left (fun m r => if kept r then groupPush r m else m) rows [].

(** What [Array.prototype.sort] makes of the number its comparator returns:
    [NaN] counts as [+0], and of any other number only the sign matters. *)
Definition comparatorValue (v : num) : Q :=
  match v with
  | NaN => 0
  | Infinity negative => if negative then -1 else 1
  | Fin q => q
  end.

(** A limit [m1] that is no later than the limit [m2], or the same value. *)
Definition no_later (m1 m2 : num) : Prop := m1 = m2 \/ num_leb m1 m2 = true.

Section Script.
Context `{Builtins}.

(** [(a, b) => new Date(a.decisionTs) - new Date(b.decisionTs)]. *)
Definition byDecisionTs (a b : row) : Q :=
  comparatorValue
    (num_sub (Date_getTime (decisionTs a)) (Date_getTime (decisionTs b))).

(** [for (const seq of grouped.values()) seq.sort(...)]. *)
Definition sortedSeries (rows : list row) : list (list row) :=
  map (fun g => sort_by byDecisionTs (snd g)) (grouped rows).


(** [policyWindowEndTs] of [buildResolutionAnchoredLabels] for the row
    [now]. *)
Definition policyWindowEndTs (now : row) (resolutionTs : option Q) : num :=
  let nowTsMs := Date_getTime (decisionTs now) in
  let ttrHoursNow := hoursToResolution resolutionTs nowTsMs in
  let phaseNow := resolvePhaseKey ttrHoursNow in
  let policyWindowHours := resolvePolicyWindowHours phaseNow ttrHoursNow in
  Math_min (windowEndTs nowTsMs resolutionTs)
           (num_add nowTsMs (hoursToMs policyWindowHours)).

(** [absoluteMaxTs] of [futureRowsWithinHorizon] for the row [now]. *)
Definition absoluteMaxTs (now : row) (horizonMs : Q) (resolutionTs : option Q) : num :=
  let t0 := Date_getTime (decisionTs now) in
  match resolutionTs with
  | None => num_add t0 (Fin (Qmin horizonMs MAX_MODEL_WINDOW_MS))
  | Some r =>
      Math_min
        (Math_min (num_add t0 (Fin horizonMs))
                  (num_add t0 (Fin MAX_MODEL_WINDOW_MS)))
        (Fin r)
  end.

(** A series in chronological order: every row is decided no later than the
    rows after it, the comparison being the one of the numbers. *)
Definition chronological (seq : list row) : Prop :=
  StronglySorted
    (fun a b => num_leb (Date_getTime (decisionTs a)) (Date_getTime (decisionTs b)) = true)
    seq.

(** The test that ends a scan at the row [c]: [tj > maxTs]. *)
Definition laterThan (maxTs : num) (c : row) : bool :=
  num_gtb (Date_getTime (decisionTs c)) maxTs.

(** The trackers at the end of the candidate loop of
    [buildResolutionAnchoredLabels], for the row [now] with the edge
    [nowEdge]. *)
Definition scanned (now : row) (nowEdge : Q) (resolutionTs : option Q)
    (candidates : list row) : trackers :=
  fold_left
    (scanCandidate nowEdge (resolveCapacity now) resolutionTs
       (policyWindowEndTs now resolutionTs))
    candidates noTrackers.

(** A candidate that the policy-window tracker takes into account: its edge
    parses, its capacity resolves and it is decided in the policy window. *)
Definition inPolicyWindow (now : row) (resolutionTs : option Q) (c : row) : bool :=
  match safeNum (expectedEdgeAtDecision c), resolveCapacity c with
  | Some _, Some _ =>
      num_leb (Date_getTime (decisionTs c)) (policyWindowEndTs now resolutionTs)
  | _, _ => false
  end.

(** A row whose profit at its own size, the product of its edge and its
    capacity, is at most [1e300] in magnitude. *)
Definition profitBounded (r : row) : bool :=
  match safeNum (expectedEdgeAtDecision r), resolveCapacity r with
  | Some e, Some c => Qle_bool (- 1e300) (e * c) && Qle_bool (e * c) 1e300
  | _, _ => true
  end.

(** A series whose profits stay far from the overflow threshold of binary64:
    every profit and every uplift that the scans compute from its rows, a
    product of an edge and a capacity no greater than the row's own and a
    difference of two such products, is then a finite number in the
    arithmetic of the script. *)
Definition profitsBounded (seq : list row) : Prop :=
  forallb profitBounded seq = true.

End Script.

End LabelGeneration.

(** ** The rows of the modelling scripts: [prepareRows]

    [prepareRows] is the same function in [train-robust-models.mjs] and in
    the walk-forward script; the one of [backtest-robust-models.mjs] leaves
    [_clsTarget] out. *)

Module Preparation.

(** The fields of [row.labels.resolutionAnchored] that [prepareRows] reads,
    as [JSON.parse] delivers them; [phaseNow] is a string or [null]. *)
Record resolutionAnchoredJson : Type := {
  deltaNetPnlPolicyWindowAtNowSize : jsval;
  buyNowBeatsWaitWindow : jsval;
  labelCensoredPolicyWindow : jsval;
  phaseNow : option string;
  timeToResolutionHoursNow : jsval;
  policyWindowHours : jsval
}.

(** A row of the labelled dataset: its own fields, the object under
    [labels.resolutionAnchored] ([None] when it is [null] or absent), and for
    the object under [labels.taxonomy] its [domain], a string or [null]. *)
Record labeledRow : Type := {
  fields : gmap string jsval;
  resolutionAnchored : option resolutionAnchoredJson;
  taxonomy : option (option string)
}.

(** [x ?? fallback] on a string or [null]. *)
Definition orElse (x : option string) (fallback : string) : string :=
  match x with
  | Some s => s
  | None => fallback
  end.

Section Script.
Context `{Builtins}.

(** The body of the loop of [prepareRows]: [None] where the row is
    skipped. *)
Definition prepareRow (row : labeledRow) : option preparedRow :=
  match resolutionAnchored row, taxonomy row with
  | Some res, Some taxDomain =>
      let decisionTs :=
        match fields row !! "decisionTs"%string with
        | Some v => v
        | None => JUndefined
        end in
      match Date_getTime decisionTs with
      | Fin ts =>
          let b := buyNowBeatsWaitWindow res in
          Some {|
            raw := fields row;
            _decisionTsMs := ts;
            _regTarget := safeNum (deltaNetPnlPolicyWindowAtNowSize res);
            _clsTarget :=
              if is_null b || is_undefined b then None else Some (truthy b);
            _censored := truthy (labelCensoredPolicyWindow res);
            _phaseNow := orElse (phaseNow res) "unknown";
            _ttrHours := safeNum (timeToResolutionHoursNow res);
            _policyWindowHours := safeNum (policyWindowHours res);
            _taxonomyDomain := orElse taxDomain "other";
            _segmentKey :=
              (orElse taxDomain "other" ++ "::" ++ orElse (phaseNow res) "unknown")%string
          |}
      | _ => None
      end
  | _, _ => None
  end.

Definition prepareRows (rows : list labeledRow) : list preparedRow :=
  sort_by (fun a b => _decisionTsMs a - _decisionTsMs b) (omap prepareRow rows).

End Script.

(** What [JSON.stringify] followed by [JSON.parse] makes of a number or
    [null], of a number that may not be finite (written as [null]), of a
    boolean or [null]. *)
Definition numberJson (v : option Q) : jsval :=
  match v with
  | Some q => JNumber q
  | None => JNull
  end.

Definition numJson (v : option num) : jsval :=
  match v with
  | Some (Fin q) => JNumber q
  | _ => JNull
  end.

Definition boolJson (v : option bool) : jsval :=
  match v with
  | Some b => JBool b
  | None => JNull
  end.

(** The label object of [generate-capacity-labels.mjs] as the modelling
    scripts read it back from the labelled dataset. *)
Definition readBack (l : GenerateCapacityLabels.resolutionAnchoredLabel)
    : resolutionAnchoredJson := {|
  deltaNetPnlPolicyWindowAtNowSize :=
    numberJson (GenerateCapacityLabels.deltaNetPnlPolicyWindowAtNowSize l);
  buyNowBeatsWaitWindow :=
    boolJson (GenerateCapacityLabels.buyNowBeatsWaitWindow l);
  labelCensoredPolicyWindow :=
    JBool (GenerateCapacityLabels.labelCensoredPolicyWindow l);
  phaseNow := GenerateCapacityLabels.phaseNow l;
  timeToResolutionHoursNow :=
    numJson (GenerateCapacityLabels.timeToResolutionHoursNow l);
  policyWindowHours := numJson (Some (GenerateCapacityLabels.policyWindowHours l))
|}.

End Preparation.

(** ** scripts/train-robust-models.mjs: the metrics of the report *)

Module RobustMetrics.

Definition DOMAIN_KEYS : list string :=
  ["politics"; "sports"; "finance"; "technology"; "culture"; "other"]%string.

(** The loop [if (pairs[i].y === 1) rankSumPos += i + 1] of [aucRoc], from
    the index [i] on. *)
Fixpoint rankSumPosFrom (i : nat) (rankSumPos : Q) (pairs : list (Q * Q)) : Q :=
  match pairs with
  | [] => rankSumPos
  | p :: rest =>
      rankSumPosFrom (S i)
        (if Qeq_bool (fst p) 1 then rankSumPos + Qnat (i + 1) else rankSumPos)
        rest
  end.

(** [aucRoc]; a pair is [(y, s)]. *)
Definition aucRoc (yTrue yScore : list Q) : option Q :=
  if (length yTrue =? 0)%nat || negb (length yScore =? length yTrue)%nat then None
  else
    let pairs := combine yTrue yScore in
    let pos := length (List.filter (fun p => Qeq_bool (fst p) 1) pairs) in
    let neg := length (List.filter (fun p => Qeq_bool (fst p) 0) pairs) in
    if (pos =? 0)%nat || (neg =? 0)%nat then None
    else
      let sorted := sort_by (fun a b => snd a - snd b) pairs in
      let rankSumPos := rankSumPosFrom 0 0 sorted in
      Some ((rankSumPos - (Qnat pos * (Qnat pos + 1)) / 2) / (Qnat pos * Qnat neg)).

(** The four counters of [classificationMetrics]. *)
Record confusion : Type := {
  tp : nat;
  fp : nat;
  tn : nat;
  fn : nat
}.

(** One iteration of the counting loop, for [t = yTrue[i]] and
    [p = yPred[i]], which is [undefined] outside [yPred]. *)
Definition tally (c : confusion) (t : Q) (p : option Q) : confusion :=
  let pIs (v : Q) := match p with Some x => Qeq_bool x v | None => false end in
  {| tp := if Qeq_bool t 1 && pIs 1 then S (tp c) else tp c;
     fp := if Qeq_bool t 0 && pIs 1 then S (fp c) else fp c;
     tn := if Qeq_bool t 0 && pIs 0 then S (tn c) else tn c;
     fn := if Qeq_bool t 1 && pIs 0 then S (fn c) else fn c |}.

Fixpoint tallyFrom (i : nat) (c : confusion) (yTrue yPred : list Q) : confusion :=
  match yTrue with
  | [] => c
  | t :: rest => tallyFrom (S i) (tally c t (nth_error yPred i)) rest yPred
  end.

(** [yProb.map((p) => (p >= threshold ? 1 : 0))]. *)
Definition predictions (yProb : list Q) (threshold : Q) : list Q :=
  map (fun p => if Qle_bool threshold p then 1 else 0) yProb.

Definition counts (yTrue yProb : list Q) (threshold : Q) : confusion :=
  tallyFrom 0 {| tp := 0; fp := 0; tn := 0; fn := 0 |} yTrue
    (predictions yProb threshold).

Record classificationReport : Type := {
  count : nat;
  accuracy : option Q;
  precision : option Q;
  recall : option Q;
  f1 : option Q;
  auc : option Q
}.

Definition classificationMetrics (yTrue yProb : list Q) (threshold : Q)
    : classificationReport :=
  let c := counts yTrue yProb threshold in
  let precision :=
    if (tp c + fp c =? 0)%nat then None else Some (Qnat (tp c) / Qnat (tp c + fp c)) in
  let recall :=
    if (tp c + fn c =? 0)%nat then None else Some (Qnat (tp c) / Qnat (tp c + fn c)) in
  let f1 :=
    match precision, recall with
    | Some p, Some r =>
        if Qeq_bool (p + r) 0 then None else Some ((2 * p * r) / (p + r))
    | _, _ => None
    end in
  {| count := length yTrue;
     accuracy :=
       if (length yTrue =? 0)%nat then None
       else Some (Qnat (tp c + tn c) / Qnat (length yTrue));
     precision := precision;
     recall := recall;
     f1 := f1;
     auc := aucRoc yTrue yProb |}.

(** The report of [regressionMetrics]; an entry that is a number may be
    [NaN] or an infinity. *)
Record regressionReport : Type := {
  r_count : nat;
  mae : option num;
  rmse : option num;
  r2 : option num;
  signAccuracy : option Q
}.

(** [Math.abs]. *)
Definition Math_abs (x : num) : num :=
  match x with
  | NaN => NaN
  | Infinity _ => Infinity false
  | Fin q => Fin (if Qle_bool 0 q then q else - q)
  end.

(** [Math.sign]. *)
Definition Math_sign (x : num) : num :=
  match x with
  | NaN => NaN
  | Infinity negative => Fin (if negative then -1 else 1)
  | Fin q =>
      match q ?= 0 with
      | Lt => Fin (-1)
      | Eq => Fin 0
      | Gt => Fin 1
      end
  end.

(** [a === b] on numbers: [NaN] equals nothing. *)
Definition num_eqb (a b : num) : bool :=
  match a, b with
  | Fin x, Fin y => Qeq_bool x y
  | Infinity s, Infinity t => Bool.eqb s t
  | _, _ => false
  end.

(** [mean] on numbers that may be [NaN] or infinite. *)
Definition num_sum (values : list num) : num := fold_left num_add values (Fin 0).

Definition num_mean (values : list num) : option num :=
  match values with
  | [] => None
  | _ => Some (num_div (num_sum values) (Fin (Qnat (length values))))
  end.

(** [Number(v)] of a number or [null]. *)
Definition nullAsZeroNum (v : option num) : num :=
  match v with
  | Some x => x
  | None => Fin 0
  end.

(** [Math.sqrt] of a number that may be [NaN] or infinite. *)
Definition num_sqrt `{Builtins} (x : num) : num :=
  match x with
  | NaN => NaN
  | Infinity negative => if negative then NaN else Infinity false
  | Fin q => if Qltb q 0 then NaN else Fin (Math_sqrt q)
  end.

(** [regressionMetrics]: the targets are finite numbers (they went through
    [safeNum]), the predictions are whatever the model computed. *)
Definition regressionMetrics `{Builtins} (yTrue : list Q) (yPred : list num)
    : regressionReport :=
  if (length yTrue =? 0)%nat || negb (length yPred =? length yTrue)%nat then
    {| r_count := 0; mae := None; rmse := None; r2 := None; signAccuracy := None |}
  else
    let errors := zip_with (fun y p => num_sub p (Fin y)) yTrue yPred in
    let yMean := nullAsZero (mean yTrue) in
    let sst := fold_left (fun acc y => acc + (y - yMean) * (y - yMean)) yTrue 0 in
    let sse := fold_left (fun acc e => num_add acc (num_mul e e)) errors (Fin 0) in
    {| r_count := length yTrue;
       mae := num_mean (map Math_abs errors);
       rmse :=
         Some (num_sqrt (nullAsZeroNum (num_mean (map (fun e => num_mul e e) errors))));
       r2 := if Qeq_bool sst 0 then None
             else Some (num_sub (Fin 1) (num_div sse (Fin sst)));
       signAccuracy :=
         mean (zip_with (fun y p => if num_eqb (Math_sign (Fin y)) (Math_sign p)
                                    then 1 else 0) yTrue yPred) |}.

(** A number that is not negative: [0 <= x] holds for it. *)
Definition notNegative (x : num) : Prop := num_leb (Fin 0) x = true.

(** A finite number of magnitude at most [1e100]: squares and sums of
    squares of such numbers are far from the overflow threshold of
    binary64. *)
Definition moderate (q : Q) : Prop := - 1e100 <= q /\ q <= 1e100.

(** A ratio of the report: [null], or a number between 0 and 1. *)
Definition within_unit (v : option Q) : Prop :=
  match v with
  | Some x => 0 <= x /\ x <= 1
  | None => True
  end.

End RobustMetrics.

(** ** Sizes and shapes of the feature vectors *)

(** The number of entries of a vector built with a schema. *)
Definition dimension (sch : schema) : nat :=
  1 + length (numericKeys sch)
  + length (phaseBuckets sch) + length (domainBuckets sch)
  + length (leg1VenueBuckets sch) + length (leg2VenueBuckets sch)
  + length (leg1IntentBuckets sch) + length (leg2IntentBuckets sch).

(** The rows of a segment among [rows]. *)
Definition ofSegment (seg : string) (rows : list preparedRow) : list preparedRow :=
  List.filter (fun r => String.eqb seg (_segmentKey r)) rows.

(** * Properties *)

(** The sizes of the walk-forward windows, unfolded for [lia]. *)
Ltac sizes :=
  unfold WalkForward.required, WalkForward.trainCount, WalkForward.validCount,
    WalkForward.testCount, WalkForward.stride in *.

(** ** Numbers *)

Lemma Qltb_lt (x y : Q) : Qltb x y = true <-> x < y.
Proof.
  unfold Qltb. rewrite negb_true_iff. split; intros Hxy.
  - apply Qnot_le_lt. intros Hle. apply Qle_bool_iff in Hle. congruence.
  - destruct (Qle_bool y x) eqn:E; [|reflexivity].
    apply Qle_bool_iff in E. lra.
Qed.

Lemma Qltb_ge (x y : Q) : Qltb x y = false <-> y <= x.
Proof.
  unfold Qltb. rewrite negb_false_iff. apply Qle_bool_iff.
Qed.

Lemma Qle_bool_gt (x y : Q) : Qle_bool x y = false <-> y < x.
Proof.
  split; intros Hxy.
  - apply Qnot_le_lt. intros Hle. apply Qle_bool_iff in Hle. congruence.
  - destruct (Qle_bool x y) eqn:E; [|reflexivity].
    apply Qle_bool_iff in E. lra.
Qed.

Lemma Math_min_spread_positive (xs : list Q) : forall x,
  0 < x -> Forall (fun y => 0 < y) xs -> 0 < Math_min_spread x xs.
Proof.
  unfold Math_min_spread. induction xs as [|y ys IH]; intros x Hx Hall; simpl.
  - exact Hx.
  - inversion Hall; subst. apply IH; [|assumption].
    destruct (Q.min_dec x y) as [E|E]; rewrite E; assumption.
Qed.

(** ** Label synthesis *)

Section LabelFacts.
Context `{Builtins}.
Import GenerateCapacityLabels.

Lemma positiveCapacity_positive (v : jsval) (q : Q) :
  positiveCapacity v = Some q -> 0 < q.
Proof.
  unfold positiveCapacity. destruct (safeNum v) as [x|]; [|discriminate].
  destruct (Qltb 0 x) eqn:E; [|discriminate].
  intros [= <-]. now apply Qltb_lt.
Qed.

(** C5.  [resolveCapacity] is the minimum of the candidate fields that parse
    to a positive finite number, [null] when neither does; a result that is
    not [null] is positive. *)
Theorem resolveCapacity_min_of_positive (r : row) :
  resolveCapacity r =
    match positiveCapacity (targetContractsAtDecision r),
          positiveCapacity (minKernelContractsAtDecision r) with
    | Some a, Some b => Some (Qmin a b)
    | Some a, None => Some a
    | None, Some b => Some b
    | None, None => None
    end
  /\ (forall c, resolveCapacity r = Some c -> 0 < c).
Proof.
  assert (Heq : resolveCapacity r =
    match positiveCapacity (targetContractsAtDecision r),
          positiveCapacity (minKernelContractsAtDecision r) with
    | Some a, Some b => Some (Qmin a b)
    | Some a, None => Some a
    | None, Some b => Some b
    | None, None => None
    end).
  { unfold resolveCapacity, positiveCapacity.
    destruct (safeNum (targetContractsAtDecision r)) as [a|];
      destruct (safeNum (minKernelContractsAtDecision r)) as [b|]; simpl;
      repeat match goal with
             | |- context [Qltb 0 ?x] => destruct (Qltb 0 x) eqn:?; simpl
             end; reflexivity. }
  split; [exact Heq|].
  intros c Hc. rewrite Heq in Hc.
  destruct (positiveCapacity (targetContractsAtDecision r)) as [a|] eqn:Ea;
    destruct (positiveCapacity (minKernelContractsAtDecision r)) as [b|] eqn:Eb;
    try discriminate; injection Hc as <-;
    try (apply positiveCapacity_positive in Ea);
    try (apply positiveCapacity_positive in Eb); try assumption.
  destruct (Q.min_dec a b) as [E|E]; rewrite E; assumption.
Qed.

Lemma phase_unique (h : Q) (p p' : phase) :
  In p RESOLUTION_PHASES -> In p' RESOLUTION_PHASES ->
  minHours p <= h < maxHours p -> minHours p' <= h < maxHours p' -> p = p'.
Proof.
  unfold RESOLUTION_PHASES. simpl.
  intros Hp Hp' Hh Hh'.
  repeat (destruct Hp as [<-|Hp]; [|]); try contradiction;
    repeat (destruct Hp' as [<-|Hp']; [|]); try contradiction;
    simpl in *; try reflexivity; exfalso; lra.
Qed.

(** C6.  The five buckets partition the hours in [[0, 168)]: each value lies
    in the bucket of its range and in no other, and [resolvePhaseKey]
    returns that bucket's key; it returns [null] for hours below [0], from
    [168] on (the infinities and [NaN] included), and for a [null] time to
    resolution. *)
Theorem resolvePhaseKey_partition :
  resolvePhaseKey None = None
  /\ forall h : Q,
       (72 <= h < 168 -> resolvePhaseKey (Some (Fin h)) = Some "T_7d_3d"%string)
       /\ (24 <= h < 72 -> resolvePhaseKey (Some (Fin h)) = Some "T_3d_1d"%string)
       /\ (6 <= h < 24 -> resolvePhaseKey (Some (Fin h)) = Some "T_24h_6h"%string)
       /\ (1 <= h < 6 -> resolvePhaseKey (Some (Fin h)) = Some "T_6h_1h"%string)
       /\ (0 <= h < 1 -> resolvePhaseKey (Some (Fin h)) = Some "T_1h_close"%string)
       /\ (h < 0 \/ 168 <= h -> resolvePhaseKey (Some (Fin h)) = None)
       /\ resolvePhaseKey (Some NaN) = None
       /\ (forall s, resolvePhaseKey (Some (Infinity s)) = None)
       /\ (0 <= h < 168 ->
           exists p, In p RESOLUTION_PHASES
                     /\ minHours p <= h < maxHours p
                     /\ resolvePhaseKey (Some (Fin h)) = Some (key p)
                     /\ forall p', In p' RESOLUTION_PHASES ->
                                   minHours p' <= h < maxHours p' -> p' = p).
Proof.
  split; [reflexivity|]. intros h.
  assert (Hcase : forall lo hi : Q,
            (Qle_bool lo h && Qltb h hi = true <-> lo <= h < hi)).
  { intros lo hi. rewrite andb_true_iff, Qle_bool_iff, Qltb_lt. tauto. }
  assert (Hkey : forall k : string,
            (72 <= h < 168 -> k = "T_7d_3d"%string) ->
            (24 <= h < 72 -> k = "T_3d_1d"%string) ->
            (6 <= h < 24 -> k = "T_24h_6h"%string) ->
            (1 <= h < 6 -> k = "T_6h_1h"%string) ->
            (0 <= h < 1 -> k = "T_1h_close"%string) ->
            0 <= h < 168 -> resolvePhaseKey (Some (Fin h)) = Some k).
  { intros k H1 H2 H3 H4 H5 Hr.
    unfold resolvePhaseKey, RESOLUTION_PHASES, inPhase, num_geb, num_ltb, num_leb.
    simpl.
    destruct (Qle_bool 72 h && Qltb h 168) eqn:E1.
    { apply Hcase in E1. now rewrite (H1 E1). }
    destruct (Qle_bool 24 h && Qltb h 72) eqn:E2.
    { apply Hcase in E2. now rewrite (H2 E2). }
    destruct (Qle_bool 6 h && Qltb h 24) eqn:E3.
    { apply Hcase in E3. now rewrite (H3 E3). }
    destruct (Qle_bool 1 h && Qltb h 6) eqn:E4.
    { apply Hcase in E4. now rewrite (H4 E4). }
    destruct (Qle_bool 0 h && Qltb h 1) eqn:E5.
    { apply Hcase in E5. now rewrite (H5 E5). }
    exfalso.
    assert (N1 : ~ (72 <= h < 168)) by (rewrite <- Hcase; congruence).
    assert (N2 : ~ (24 <= h < 72)) by (rewrite <- Hcase; congruence).
    assert (N3 : ~ (6 <= h < 24)) by (rewrite <- Hcase; congruence).
    assert (N4 : ~ (1 <= h < 6)) by (rewrite <- Hcase; congruence).
    assert (N5 : ~ (0 <= h < 1)) by (rewrite <- Hcase; congruence).
    destruct (Qlt_le_dec h 1); [apply N5; lra|].
    destruct (Qlt_le_dec h 6); [apply N4; lra|].
    destruct (Qlt_le_dec h 24); [apply N3; lra|].
    destruct (Qlt_le_dec h 72); [apply N2; lra|].
    apply N1; lra. }
  repeat split.
  - intros Hr. apply Hkey; intros; try reflexivity; try lra.
  - intros Hr. apply Hkey; intros; try reflexivity; try lra.
  - intros Hr. apply Hkey; intros; try reflexivity; try lra.
  - intros Hr. apply Hkey; intros; try reflexivity; try lra.
  - intros Hr. apply Hkey; intros; try reflexivity; try lra.
  - intros Hout.
    unfold resolvePhaseKey, RESOLUTION_PHASES, inPhase, num_geb, num_ltb, num_leb.
    simpl.
    repeat match goal with
           | |- context [Qle_bool ?a h && Qltb h ?b] =>
               destruct (Qle_bool a h && Qltb h b) eqn:?
           end; try reflexivity;
      match goal with
      | E : _ && _ = true |- _ => apply Hcase in E; exfalso; lra
      end.
  - intros [|]; reflexivity.
  - intros Hr.
    assert (Hex : exists p, In p RESOLUTION_PHASES /\ minHours p <= h < maxHours p).
    { unfold RESOLUTION_PHASES.
      destruct (Qlt_le_dec h 1);
        [eexists; split; [do 4 right; left; reflexivity|simpl; lra]|].
      destruct (Qlt_le_dec h 6);
        [eexists; split; [do 3 right; left; reflexivity|simpl; lra]|].
      destruct (Qlt_le_dec h 24);
        [eexists; split; [do 2 right; left; reflexivity|simpl; lra]|].
      destruct (Qlt_le_dec h 72);
        [eexists; split; [do 1 right; left; reflexivity|simpl; lra]|].
      eexists; split; [left; reflexivity|simpl; lra]. }
    destruct Hex as (p & Hin & Hp).
    exists p. split; [exact Hin|]. split; [exact Hp|]. split.
    + apply Hkey; [| | | | |exact Hr]; intros Hr';
        unfold RESOLUTION_PHASES in Hin; simpl in Hin;
        repeat (destruct Hin as [<-|Hin]; [simpl in *; try reflexivity; exfalso; lra|]);
        contradiction.
    + intros p' Hin' Hp'. exact (phase_unique h p' p Hin' Hin Hp' Hp).
Qed.

End LabelFacts.

Section ResolutionAnchoredFacts.
Context `{Builtins}.
Import GenerateCapacityLabels.

(** A label that is returned is read off the trackers the scan ends with. *)
Lemma label_of_trackers (seq : list row) (idx : nat) (resolutionTs : option Q)
    (label : resolutionAnchoredLabel) :
  buildResolutionAnchoredLabels seq idx resolutionTs = Normal (Some label) ->
  exists t : trackers,
    deltaNetPnlPolicyWindowAtNowSize label = bestPolicyWindowCapAdj t
    /\ buyNowBeatsWaitWindow label
       = option_map (fun u => Qle_bool u 0) (bestPolicyWindowCapAdj t)
    /\ labelCensoredPolicyWindow label
       = match bestPolicyWindowCapAdj t with None => true | Some _ => false end.
Proof.
  unfold buildResolutionAnchoredLabels.
  destruct (nth_error seq idx) as [now|]; [|discriminate].
  destruct (resolutionCandidates seq idx now resolutionTs) as [|c cs];
    [discriminate|].
  destruct (safeNum (expectedEdgeAtDecision now)) as [nowEdge|]; [|discriminate].
  match goal with
  | |- context [fold_left ?f ?l ?a] => set (t := fold_left f l a)
  end.
  destruct (bestEdge7d t) as [best|]; [|discriminate].
  intros [= <-]. exists t. simpl. auto.
Qed.

(** C1.  In a label that is returned, [buyNowBeatsWaitWindow] is the truth
    value of [deltaNetPnlPolicyWindowAtNowSize <= 0] when the delta is not
    [null], and [null] when it is. *)
Theorem buyNowBeatsWaitWindow_polarity (seq : list row) (idx : nat)
    (resolutionTs : option Q) (label : resolutionAnchoredLabel) :
  buildResolutionAnchoredLabels seq idx resolutionTs = Normal (Some label) ->
  match deltaNetPnlPolicyWindowAtNowSize label with
  | Some delta =>
      exists b, buyNowBeatsWaitWindow label = Some b /\ (b = true <-> delta <= 0)
  | None => buyNowBeatsWaitWindow label = None
  end.
Proof.
  intros Hlabel.
  destruct (label_of_trackers _ _ _ _ Hlabel) as (t & Hdelta & Hbuy & _).
  rewrite Hdelta, Hbuy.
  destruct (bestPolicyWindowCapAdj t) as [delta|]; simpl; [|reflexivity].
  exists (Qle_bool delta 0). split; [reflexivity|]. apply Qle_bool_iff.
Qed.

(** C2.  In a label that is returned, [labelCensoredPolicyWindow] is true
    exactly when [deltaNetPnlPolicyWindowAtNowSize] is [null]. *)
Theorem labelCensoredPolicyWindow_iff_delta_null (seq : list row) (idx : nat)
    (resolutionTs : option Q) (label : resolutionAnchoredLabel) :
  buildResolutionAnchoredLabels seq idx resolutionTs = Normal (Some label) ->
  labelCensoredPolicyWindow label = true
  <-> deltaNetPnlPolicyWindowAtNowSize label = None.
Proof.
  intros Hlabel.
  destruct (label_of_trackers _ _ _ _ Hlabel) as (t & Hdelta & _ & Hcens).
  rewrite Hdelta, Hcens.
  destruct (bestPolicyWindowCapAdj t); split; intros; congruence.
Qed.





End ResolutionAnchoredFacts.

(** *** Worked examples of the label builders *)

Section LabelExamples.
Import GenerateCapacityLabels Examples.

(** C1, at the first of the three rows: the best wait inside the policy
    window nets 3 more than buying now, so [buyNowBeatsWaitWindow] is
    false. *)
Lemma buyNowBeatsWaitWindow_polarity_threeRows :
  exists label,
    @buildResolutionAnchoredLabels exampleBuiltins threeRows 0 None = Normal (Some label)
    /\ option_map (Qeq_bool 3) (deltaNetPnlPolicyWindowAtNowSize label) = Some true
    /\ match deltaNetPnlPolicyWindowAtNowSize label with
       | Some delta =>
           exists b, buyNowBeatsWaitWindow label = Some b /\ (b = true <-> delta <= 0)
       | None => buyNowBeatsWaitWindow label = None
       end.
Proof.
  eexists. split; [vm_compute; reflexivity|]. split; [reflexivity|].
  apply (@buyNowBeatsWaitWindow_polarity exampleBuiltins threeRows 0 None).
  vm_compute. reflexivity.
Defined.

(** C2, at the second of the three rows: its only candidate is worse, the
    delta is not [null] and the label is not censored. *)
Lemma labelCensoredPolicyWindow_threeRows :
  exists label,
    @buildResolutionAnchoredLabels exampleBuiltins threeRows 1 None = Normal (Some label)
    /\ (labelCensoredPolicyWindow label = true
        <-> deltaNetPnlPolicyWindowAtNowSize label = None).
Proof.
  eexists. split; [vm_compute; reflexivity|].
  apply (@labelCensoredPolicyWindow_iff_delta_null exampleBuiltins threeRows 1 None).
  vm_compute. reflexivity.
Defined.



(** Scenario A of the specification: the 1h label of the first of the three
    rows reports the edge 0.05 of the second row, 30 minutes later, as an
    improvement. *)
Example horizon_1h_threeRows :
  exists l,
    @buildHorizonLabel exampleBuiltins threeRows 0 firstRow None
      {| h_key := "1h"; ms := 60 * 60 * 1000 |} = Some l
    /\ bestFutureEdge l = 0.05
    /\ improvesEdge l = true
    /\ option_map (num_leb (Fin 30)) (minutesToBestEdge l) = Some true
    /\ option_map (num_geb (Fin 30)) (minutesToBestEdge l) = Some true.
Proof.
  eexists. split; [vm_compute; reflexivity|]. repeat split.
Qed.

(** Scenario B of the specification: a row that no row follows has no label
    at any horizon and no resolution-anchored label; without market
    metadata its taxonomy tag is the fallback. *)
Example no_labels_oneRow :
  @buildLabelsForRow exampleBuiltins oneRow 0
  = Normal {| horizons := [("15m"%string, None); ("1h"%string, None);
                           ("3h"%string, None)];
              resolutionAnchored := None;
              taxonomy := {| Taxonomy.domain := "other";
                             Taxonomy.subdomain := "other";
                             Taxonomy.topic := "unknown";
                             Taxonomy.source := "heuristic" |} |}.
Proof. vm_compute. reflexivity. Qed.

End LabelExamples.

(** ** Sorting and quantiles *)

Section SortFacts.
Context {A : Type} (cmp : A -> A -> Q).

Lemma insert_by_perm (x : A) (l : list A) : Permutation (insert_by cmp x l) (x :: l).
Proof.
  induction l as [|y l IH]; simpl.
  - reflexivity.
  - destruct (Qle_bool (cmp x y) 0).
    + reflexivity.
    + rewrite IH. apply perm_swap.
Qed.

Lemma sort_by_perm (l : list A) : Permutation (sort_by cmp l) l.
Proof.
  induction l as [|x l IH]; simpl.
  - reflexivity.
  - rewrite insert_by_perm. now constructor.
Qed.

Lemma sort_by_length (l : list A) : length (sort_by cmp l) = length l.
Proof. apply Permutation_length, sort_by_perm. Qed.

End SortFacts.

Section AscendingSort.

Lemma insert_ascending_sorted (x : Q) (l : list Q) :
  StronglySorted Qle l -> StronglySorted Qle (insert_by (fun a b => a - b) x l).
Proof.
  induction 1 as [|y l Hsorted IH Hall]; simpl.
  - constructor; constructor.
  - destruct (Qle_bool (x - y) 0) eqn:E.
    + apply Qle_bool_iff in E.
      constructor; [now constructor|].
      constructor; [lra|].
      eapply Forall_impl; [exact Hall|]. simpl. intros z Hz. lra.
    + apply Qle_bool_gt in E.
      constructor; [exact IH|].
      eapply Permutation_Forall; [symmetry; apply insert_by_perm|].
      constructor; [lra|exact Hall].
Qed.

Lemma sort_ascending_sorted (l : list Q) : StronglySorted Qle (sort_by (fun a b => a - b) l).
Proof.
  induction l as [|x l IH]; simpl.
  - constructor.
  - now apply insert_ascending_sorted.
Qed.

Lemma sorted_nth_le (l : list Q) :
  StronglySorted Qle l ->
  forall (i j : nat) (a b : Q),
    (i <= j)%nat -> nth_error l i = Some a -> nth_error l j = Some b -> a <= b.
Proof.
  induction 1 as [|x l Hsorted IH Hall]; intros i j a b Hij Ha Hb.
  - destruct i; discriminate.
  - destruct i as [|i], j as [|j]; simpl in *.
    + injection Ha as <-. injection Hb as <-. lra.
    + injection Ha as <-. rewrite List.Forall_forall in Hall.
      apply Hall. eapply nth_error_In. exact Hb.
    + lia.
    + eapply IH; [|exact Ha|exact Hb]. lia.
Qed.

End AscendingSort.

Section QuantileFacts.

Lemma Qfloor_le_ceiling (x : Q) : (Qfloor x <= Qceiling x)%Z.
Proof. rewrite Zle_Qle. apply Qle_floor_ceiling. Qed.

Lemma at_index_in_range {A : Type} (s : list A) (i : Z) :
  (0 <= i < Z.of_nat (length s))%Z -> exists a, at_index s i = Some a.
Proof.
  intros Hi. unfold at_index.
  destruct (i <? 0)%Z eqn:E; [apply Z.ltb_lt in E; lia|].
  destruct (nth_error s (Z.to_nat i)) as [a|] eqn:En; [eauto|].
  apply nth_error_None in En. lia.
Qed.

Lemma at_index_sorted (s : list Q) (i j : Z) (a b : Q) :
  StronglySorted Qle s -> (0 <= i <= j)%Z ->
  at_index s i = Some a -> at_index s j = Some b -> a <= b.
Proof.
  intros Hs Hij. unfold at_index.
  destruct (i <? 0)%Z eqn:Ei; [discriminate|].
  destruct (j <? 0)%Z eqn:Ej; [discriminate|].
  intros Ha Hb. eapply (sorted_nth_le s Hs); [|exact Ha|exact Hb]. lia.
Qed.

(** The index of a quantile in [[0, 1]] lies inside the sorted array. *)
Lemma quantile_index_range (n : nat) (q : Q) :
  (0 < n)%nat -> 0 <= q -> q <= 1 ->
  let idx := (inject_Z (Z.of_nat n) - 1) * q in
  (0 <= Qfloor idx)%Z /\ (Qceiling idx < Z.of_nat n)%Z.
Proof.
  intros Hn Hq0 Hq1 idx.
  assert (Hn1 : 1 <= inject_Z (Z.of_nat n)).
  { change 1 with (inject_Z 1). rewrite <- Zle_Qle. lia. }
  assert (Hidx0 : 0 <= idx) by (unfold idx; apply Qmult_le_0_compat; lra).
  assert (Hidx1 : idx <= inject_Z (Z.of_nat n - 1)).
  { assert (E : inject_Z (Z.of_nat n - 1) == inject_Z (Z.of_nat n) - 1).
    { unfold Z.sub. rewrite inject_Z_plus, inject_Z_opp. reflexivity. }
    rewrite E. unfold idx.
    assert (0 <= (inject_Z (Z.of_nat n) - 1) * (1 - q))
      by (apply Qmult_le_0_compat; lra).
    lra. }
  split.
  - change 0%Z with (Qfloor 0). now apply Qfloor_resp_le.
  - apply Qceiling_resp_le in Hidx1. rewrite Qceiling_Z in Hidx1. lia.
Qed.

(** The value of [quantile] on a non-empty array for [q] in [[0, 1]]: it
    reads the sorted array inside its bounds, and lies between the two
    elements it reads. *)
Lemma quantile_value (v : list Q) (q : Q) :
  v <> [] -> 0 <= q -> q <= 1 ->
  let s := sort_by (fun a b => a - b) v in
  let idx := (inject_Z (Z.of_nat (length s)) - 1) * q in
  exists slo shi val,
    at_index s (Qfloor idx) = Some slo
    /\ at_index s (Qceiling idx) = Some shi
    /\ quantile v q = Some val
    /\ slo <= val /\ val <= shi
    /\ (Qfloor idx = Qceiling idx -> val = slo)
    /\ (Qfloor idx <> Qceiling idx ->
        val = slo * (1 - (idx - inject_Z (Qfloor idx)))
              + shi * (idx - inject_Z (Qfloor idx))).
Proof.
  intros Hne Hq0 Hq1 s idx.
  assert (Hlen : (0 < length s)%nat).
  { unfold s. rewrite sort_by_length. destruct v; [congruence|simpl; lia]. }
  destruct (quantile_index_range (length s) q Hlen Hq0 Hq1) as [Hlo Hhi].
  fold idx in Hlo, Hhi.
  pose proof (Qfloor_le_ceiling idx) as Hfc.
  destruct (at_index_in_range s (Qfloor idx)) as [slo Hslo]; [lia|].
  destruct (at_index_in_range s (Qceiling idx)) as [shi Hshi]; [lia|].
  assert (Hord : slo <= shi).
  { eapply (at_index_sorted s); [apply sort_ascending_sorted| |exact Hslo|exact Hshi].
    lia. }
  assert (Hq : quantile v q
               = if (Qfloor idx =? Qceiling idx)%Z then Some slo
                 else Some (slo * (1 - (idx - inject_Z (Qfloor idx)))
                            + shi * (idx - inject_Z (Qfloor idx)))).
  { unfold quantile. destruct v as [|x v']; [congruence|].
    fold s. fold idx. rewrite Hslo, Hshi. reflexivity. }
  pose proof (Qfloor_le idx) as Hf1. pose proof (Qlt_floor idx) as Hf2.
  destruct (Qfloor idx =? Qceiling idx)%Z eqn:E.
  - apply Z.eqb_eq in E. exists slo, shi, slo.
    repeat split; try assumption; try lra; try reflexivity. congruence.
  - apply Z.eqb_neq in E.
    exists slo, shi,
      (slo * (1 - (idx - inject_Z (Qfloor idx))) + shi * (idx - inject_Z (Qfloor idx))).
    rewrite inject_Z_plus in Hf2. change (inject_Z 1) with 1 in Hf2.
    repeat split; try assumption; try reflexivity; try congruence; nra.
Qed.

Lemma quantile_returns (v : list Q) (q : Q) :
  v <> [] -> 0 <= q -> q <= 1 -> exists a, quantile v q = Some a.
Proof.
  intros Hne H0 H1.
  destruct (quantile_value v q Hne H0 H1) as (_ & _ & a & _ & _ & Ha & _).
  eauto.
Qed.

(** In exact arithmetic the winsorization quantiles of [3, 1, 2] are [1.1]
    and [2.9]. *)
Example quantile_winsor_values :
  option_map (Qeq_bool 1.1) (quantile [3; 1; 2] 0.05) = Some true
  /\ option_map (Qeq_bool 2.9) (quantile [3; 1; 2] 0.95) = Some true.
Proof. split; vm_compute; reflexivity. Qed.

End QuantileFacts.

(** ** Decision evaluation *)

Section DecisionFacts.
Import Examples.

(** C9.  With probabilities [0.9, 0.3, 0.6], threshold [0.5] and targets
    [10, -5, 20], both evaluators decide [buy_now, wait, buy_now], reward
    the rows with [0, -5, 0] and report the mean relative PnL [-5/3]. *)
Theorem evaluate_scenario_C (r1 r2 r3 : preparedRow) :
  let rs := [withTarget r1 10; withTarget r2 (-5); withTarget r3 20] in
  let probs := [0.9; 0.3; 0.6] in
  BacktestRobust.decisions probs 0.5
    = [BacktestRobust.buy_now; BacktestRobust.wait; BacktestRobust.buy_now]
  /\ BacktestRobust.rewards rs (BacktestRobust.decisions probs 0.5)
     = [Some 0; Some (-5); Some 0]
  /\ BacktestRobust.meanRelativePnlVsAlwaysBuyNow (BacktestRobust.evaluate rs probs 0.5)
     = Some (-5 # 3)
  /\ BacktestBaseline.decisions rs probs 0.5
     = [BacktestRobust.buy_now; BacktestRobust.wait; BacktestRobust.buy_now]
  /\ BacktestBaseline.rewards rs (BacktestBaseline.decisions rs probs 0.5)
     = [Some 0; Some (-5); Some 0]
  /\ BacktestRobust.meanRelativePnlVsAlwaysBuyNow
       (BacktestBaseline.evaluateDecision rs probs 0.5)
     = Some (-5 # 3).
Proof.
  repeat split; vm_compute; reflexivity.
Qed.

(** The decision rule of both evaluators: [buy_now] exactly when the
    probability is at least the threshold. *)
Lemma decisions_rule (probs : list Q) (t : Q) (i : nat) (p : Q) :
  nth_error probs i = Some p ->
  nth_error (BacktestRobust.decisions probs t) i
  = Some (if Qle_bool t p then BacktestRobust.buy_now else BacktestRobust.wait).
Proof.
  unfold BacktestRobust.decisions. intros Hp.
  rewrite nth_error_map, Hp. reflexivity.
Qed.

End DecisionFacts.

(** ** Threshold tuning *)

Section DescendingSort.
Context {A : Type} (key : A -> Q).


End DescendingSort.



Section TuningFacts.
Context {E : Type} (mk : Q -> E) (thr : E -> Q) (score : E -> Q).
Hypothesis thr_mk : forall t, thr (mk t) = t.


End TuningFacts.


Section TuningExamples.
Import Examples.

(** On the rows of scenario C only the threshold 0.65 makes the policy wait
    for the target 20, and it is the one selected. *)
Example tuning_scenario_C (r1 r2 r3 : preparedRow) :
  option_map WalkForward.threshold
    (head (WalkForward.tuning
             [withTarget r1 10; withTarget r2 (-5); withTarget r3 20]
             [0.9; 0.3; 0.6]))
  = Some 0.65.
Proof. vm_compute. reflexivity. Qed.

(** When every threshold buys every row the means tie, and the sort leaves
    the grid in its order: the lowest threshold is selected. *)
Example tuning_all_tied (r1 r2 r3 : preparedRow) :
  map WalkForward.threshold
    (WalkForward.tuning
       [withTarget r1 10; withTarget r2 (-5); withTarget r3 20]
       [0.9; 0.9; 0.9])
  = thresholdGrid.
Proof. vm_compute. reflexivity. Qed.

End TuningExamples.

(** ** Training never reads an empty design matrix *)

Section TrainingFacts.
Context `{Builtins}.

Lemma ridgeTrain_returns (lr : Q) (epochs : nat) (lambda : Q)
    (X : list (list Q)) (y : list Q) :
  X <> [] -> exists wts, ridgeTrain lr epochs lambda X y = Normal wts.
Proof.
  destruct X as [|x0 X']; [congruence|]. intros _. simpl. eauto.
Qed.

Lemma ridgeTrain_normal_nonempty (lr : Q) (epochs : nat) (lambda : Q)
    (X : list (list Q)) (y wts : list Q) :
  ridgeTrain lr epochs lambda X y = Normal wts -> X <> [].
Proof.
  destruct X; [discriminate|]. intros _. discriminate.
Qed.

Lemma logisticTrain_returns (lr : Q) (epochs : nat) (lambda posWeight : Q)
    (X : list (list Q)) (y : list Q) :
  X <> [] -> exists wts, logisticTrain lr epochs lambda posWeight X y = Normal wts.
Proof.
  destruct X as [|x0 X']; [congruence|]. intros _. simpl. eauto.
Qed.

Lemma map_nonempty {A B : Type} (f : A -> B) (l : list A) : l <> [] -> map f l <> [].
Proof. destruct l; [congruence|discriminate]. Qed.

Lemma long_nonempty {A : Type} (l : list A) (n : nat) :
  (length l <? S n)%nat = false -> l <> [].
Proof.
  intros Hlen. apply Nat.ltb_ge in Hlen. destruct l; simpl in *; [lia|discriminate].
Qed.

End TrainingFacts.

(** ** The walk-forward loop *)

Section WalkForwardFacts.
Context `{Builtins}.
Import WalkForward.

Lemma fitSegment_returns (sch : schema) (scaler : gmap string scalerStat)
    (segs : gmap string regSegment * gmap string (list Q))
    (group : string * list preparedRow) :
  exists segs', fitSegment sch scaler segs group = Normal segs'.
Proof.
  unfold fitSegment. destruct segs as [regs clss]. destruct group as [seg segRows].
  destruct (length segRows <? MIN_SEGMENT_ROWS)%nat eqn:Hlen; [eauto|].
  apply long_nonempty in Hlen.
  destruct (ridgeTrain_returns 0.01 1200 0.2
              (map (fun r => buildVector r sch scaler) segRows)
              (map (fun v => clip v
                               (nullAsZero (quantile (map (fun r => nullAsZero (_regTarget r)) segRows) 0.05))
                               (nullAsZero (quantile (map (fun r => nullAsZero (_regTarget r)) segRows) 0.95)))
                   (map (fun r => nullAsZero (_regTarget r)) segRows)))
    as [wts Hw]; [now apply map_nonempty|].
  rewrite Hw. cbn [mbind completion_bind].
  match goal with
  | |- context [if ?c then _ else _] => destruct c
  end; [|eauto].
  match goal with
  | |- context [logisticTrain ?a ?b ?c ?d ?X ?y] =>
      destruct (logisticTrain_returns a b c d X y) as [cw Hcw];
        [now apply map_nonempty|rewrite Hcw]
  end.
  cbn [mbind completion_bind]. eauto.
Qed.

Lemma foldM_fitSegment_returns (sch : schema) (scaler : gmap string scalerStat)
    (groups : list (string * list preparedRow)) :
  forall segs, exists segs', foldM (fitSegment sch scaler) groups segs = Normal segs'.
Proof.
  induction groups as [|g groups IH]; intros segs; simpl; [eauto|].
  destruct (fitSegment_returns sch scaler segs g) as [segs1 H1].
  rewrite H1. cbn [mbind completion_bind]. apply IH.
Qed.

Lemma tuning_nonempty (valid : list preparedRow) (validProbs : list Q) :
  exists best rest, tuning valid validProbs = best :: rest.
Proof.
  unfold tuning.
  match goal with
  | |- context [sort_by ?cmp ?l] =>
      pose proof (sort_by_length cmp l) as Hlen; destruct (sort_by cmp l)
  end; [discriminate|eauto].
Qed.

(** What [runWindow] does with its three filtered slices: it skips the
    window when one of them is below its minimum, and otherwise returns a
    result whose threshold is the first entry of the tuning of the
    validation slice.  It never throws. *)
Lemma runWindow_cases (windowRows : list preparedRow) (tc vc tec : nat) :
  let train := List.filter labelled (slice windowRows 0 tc) in
  let valid := List.filter labelled (slice windowRows tc (tc + vc)) in
  let test := List.filter labelled (slice windowRows (tc + vc) (tc + vc + tec)) in
  ((length train < 200 \/ length valid < 50 \/ length test < 50)%nat
   /\ runWindow windowRows tc vc tec = Normal None)
  \/ ((200 <= length train /\ 50 <= length valid /\ 50 <= length test)%nat
      /\ exists r validProbs best rest,
           runWindow windowRows tc vc tec = Normal (Some r)
           /\ length validProbs = length valid
           /\ tuning valid validProbs = best :: rest
           /\ r_threshold r = threshold best
           /\ validBestMeanRelativePnl r = meanRelativePnl (atThreshold best)
           /\ trainRows r = length train
           /\ validRows r = length valid
           /\ testRows r = length test).
Proof.
  intros train valid test. unfold runWindow. fold train valid test.
  destruct ((length train <? 200)%nat || (length valid <? 50)%nat
            || (length test <? 50)%nat) eqn:Hguard.
  - left. split; [|reflexivity].
    apply orb_true_iff in Hguard. destruct Hguard as [Hguard|Hguard].
    + apply orb_true_iff in Hguard. destruct Hguard as [Hg|Hg];
        apply Nat.ltb_lt in Hg; auto.
    + apply Nat.ltb_lt in Hguard. auto.
  - right.
    apply orb_false_iff in Hguard. destruct Hguard as [Hguard Htest].
    apply orb_false_iff in Hguard. destruct Hguard as [Htrain Hvalid].
    pose proof (long_nonempty _ _ Htrain) as Hne.
    apply Nat.ltb_ge in Htrain, Hvalid, Htest.
    split; [auto|].
    match goal with
    | |- context [ridgeTrain ?a ?b ?c ?X ?y] =>
        destruct (ridgeTrain_returns a b c X y) as [regW HregW];
          [now apply map_nonempty|rewrite HregW]
    end.
    cbn [mbind completion_bind].
    match goal with
    | |- context [logisticTrain ?a ?b ?c ?d ?X ?y] =>
        destruct (logisticTrain_returns a b c d X y) as [clsW HclsW];
          [now apply map_nonempty|rewrite HclsW]
    end.
    cbn [mbind completion_bind].
    match goal with
    | |- context [foldM ?f ?g ?s] =>
        destruct (foldM_fitSegment_returns (buildSchema train)
                    (fitScaler train (numericKeys (buildSchema train))) g s)
          as [segs Hsegs]; rewrite Hsegs
    end.
    cbn [mbind completion_bind].
    match goal with
    | |- context [tuning valid ?probs] =>
        destruct (tuning_nonempty valid probs) as (best & rest & Htun);
          rewrite Htun; eexists; exists probs, best, rest
    end.
    repeat split; try reflexivity.
    + apply length_map.
    + exact Htun.
Qed.

(** The offsets the loop visits are the multiples of the stride at which
    a full window fits; the fuel of [windowStarts] is enough to reach them
    all. *)
Lemma windowStartsFrom_spec (n : nat) : forall fuel start s,
  (n < start + required + fuel * stride)%nat ->
  In s (windowStartsFrom fuel n start)
  <-> (exists k, s = start + k * stride)%nat /\ (s + required <= n)%nat.
Proof.
  induction fuel as [|fuel IH]; intros start s Hfuel; simpl.
  - split; [contradiction|]. intros [[k ->] Hfit]. sizes. lia.
  - destruct (start + required <=? n)%nat eqn:Hc.
    + apply Nat.leb_le in Hc. simpl. rewrite IH by (sizes; lia). split.
      * intros [<-|[[k ->] Hfit]].
        -- split; [exists 0%nat; lia|lia].
        -- split; [exists (S k); sizes; lia|sizes; lia].
      * intros [[k ->] Hfit]. destruct k as [|k]; [left; lia|].
        right. split; [exists k; sizes; lia|sizes; lia].
    + apply Nat.leb_gt in Hc. split; [contradiction|].
      intros [[k ->] Hfit]. sizes. lia.
Qed.

Lemma windowStarts_spec (n s : nat) :
  In s (windowStarts n)
  <-> (exists k, s = k * stride)%nat /\ (s + required <= n)%nat.
Proof.
  unfold windowStarts. rewrite windowStartsFrom_spec.
  - simpl. tauto.
  - sizes. lia.
Qed.

Lemma resultAt_None (allRows : list preparedRow) (start : nat) :
  resultAt allRows start = None
  <-> undersized (slice allRows start (start + required))
        trainCount validCount testCount.
Proof.
  unfold resultAt, undersized.
  destruct (runWindow_cases (slice allRows start (start + required))
              trainCount validCount testCount)
    as [[Hsmall Hrun]|[Hbig (r & probs & best & rest & Hrun & _)]];
    rewrite Hrun.
  - tauto.
  - split; [discriminate|]. lia.
Qed.

Lemma windowsFrom_results (allRows : list preparedRow) : forall fuel start acc,
  exists ws,
    windowsFrom fuel allRows start acc = Normal (acc ++ ws)
    /\ map result ws
       = omap (resultAt allRows) (windowStartsFrom fuel (length allRows) start)
    /\ map windowIndex ws = seq (length acc + 1) (length ws).
Proof.
  induction fuel as [|fuel IH]; intros start acc; simpl.
  - exists []. rewrite app_nil_r. auto.
  - destruct (start + required <=? length allRows)%nat.
    2:{ exists []. rewrite app_nil_r. auto. }
    simpl. unfold resultAt at 1.
    destruct (runWindow_cases (slice allRows start (start + required))
                trainCount validCount testCount)
      as [[_ Hrun]|[_ (r & probs & best & rest & Hrun & _)]];
      rewrite Hrun; cbn [mbind completion_bind].
    + apply IH.
    + destruct (IH (start + stride)%nat
                  (acc ++ [{| windowIndex := length acc + 1;
                              startTs := option_map _decisionTsMs
                                           (head (slice allRows start (start + required)));
                              endTs := option_map _decisionTsMs
                                         (last (slice allRows start (start + required)));
                              result := r |}]))
        as (ws & Hws & Hres & Hidx).
      eexists (_ :: ws). rewrite Hws, <- app_assoc. simpl.
      split; [reflexivity|]. split; [now rewrite Hres|].
      rewrite Hidx, length_app. simpl. f_equal. f_equal. lia.
Qed.

(** C8.  [runWindow] returns [null] for a window one of whose filtered
    slices is below its minimum (200, 50 and 50 rows), and never throws.
    The report's window list is built without an error: it holds, in order
    and numbered from 1, the results of the windows at the offsets where a
    full window fits (the multiples of the stride), those windows left out
    for which [runWindow] returned [null], which are exactly the windows
    below a minimum. *)
Theorem undersized_windows_skipped (allRows : list preparedRow) :
  (forall windowRows tc vc tec,
     (undersized windowRows tc vc tec -> runWindow windowRows tc vc tec = Normal None)
     /\ exists res, runWindow windowRows tc vc tec = Normal res)
  /\ (forall start,
        resultAt allRows start = None
        <-> undersized (slice allRows start (start + required))
              trainCount validCount testCount)
  /\ (forall start,
        In start (windowStarts (length allRows))
        <-> (exists k, start = k * stride)%nat
            /\ (start + required <= length allRows)%nat)
  /\ exists ws,
       windows allRows = Normal ws
       /\ map result ws = omap (resultAt allRows) (windowStarts (length allRows))
       /\ map windowIndex ws = seq 1 (length ws).
Proof.
  split; [|split; [|split]].
  - intros windowRows tc vc tec.
    destruct (runWindow_cases windowRows tc vc tec)
      as [[Hsmall Hrun]|[Hbig (r & probs & best & rest & Hrun & _)]].
    + split; [intros _; exact Hrun|eauto].
    + split; [|eauto]. unfold undersized. intros Hsmall. exfalso. lia.
  - apply resultAt_None.
  - intros start. apply windowStarts_spec.
  - unfold windows, windowStarts.
    destruct (windowsFrom_results allRows (S (length allRows)) 0 [])
      as (ws & Hws & Hres & Hidx).
    exists ws. auto.
Qed.

End WalkForwardFacts.

Section WalkForwardExample.
Import WalkForward Examples.

(** On 2100 censored rows a full window fits at the offsets 0 and 150; both
    windows are skipped, and the report lists no window. *)
Example windows_all_censored :
  windowStarts 2100 = [0; 150]%nat
  /\ @windows exampleBuiltins (repeat censoredRow 2100) = Normal [].
Proof. split; vm_compute; reflexivity. Qed.

End WalkForwardExample.

(** ** The training script returns *)

Section TrainRobustFacts.
Context `{Builtins}.
Import TrainRobust.

Lemma foldM_fitRegSegment_returns (sch : schema) (scaler : gmap string scalerStat)
    (groups : list (string * list preparedRow)) :
  forall segs, exists segs', foldM (fitRegSegment sch scaler) groups segs = Normal segs'.
Proof.
  induction groups as [|[seg segRows] groups IH]; intros segs; simpl; [eauto|].
  destruct (length segRows <? MIN_SEGMENT_ROWS)%nat eqn:Hlen;
    cbn [mbind completion_bind]; [apply IH|].
  apply long_nonempty in Hlen.
  match goal with
  | |- context [ridgeTrain ?a ?b ?c ?X ?y] =>
      destruct (ridgeTrain_returns a b c X y) as [wts Hw];
        [now apply map_nonempty|rewrite Hw]
  end.
  cbn [mbind completion_bind]. apply IH.
Qed.

Lemma foldM_fitClsSegment_returns (sch : schema) (scaler : gmap string scalerStat)
    (groups : list (string * list preparedRow)) :
  forall segs, exists segs', foldM (fitClsSegment sch scaler) groups segs = Normal segs'.
Proof.
  induction groups as [|[seg segRows] groups IH]; intros segs; simpl; [eauto|].
  destruct (length segRows <? MIN_SEGMENT_ROWS)%nat eqn:Hlen;
    cbn [mbind completion_bind]; [apply IH|].
  apply long_nonempty in Hlen.
  match goal with
  | |- context [if ?c then _ else _] => destruct c
  end; cbn [mbind completion_bind]; [apply IH|].
  match goal with
  | |- context [logisticTrain ?a ?b ?c ?d ?X ?y] =>
      destruct (logisticTrain_returns a b c d X y) as [wts Hw];
        [now apply map_nonempty|rewrite Hw]
  end.
  cbn [mbind completion_bind]. apply IH.
Qed.

Lemma validThresholds_nonempty (rs : list preparedRow) (probs : list Q) :
  exists best rest, validThresholds rs probs = best :: rest.
Proof.
  unfold validThresholds.
  match goal with
  | |- context [sort_by ?cmp ?l] =>
      pose proof (sort_by_length cmp l) as Hlen; destruct (sort_by cmp l)
  end; [discriminate|eauto].
Qed.

(** The script returns its artifacts when the training slice has a row for
    each of the two global models. *)
Lemma trainModels_returns (rs : list preparedRow) :
  List.filter labelled (train (splitChronological rs)) <> [] ->
  List.filter classified (train (splitChronological rs)) <> [] ->
  exists art, trainModels rs = Normal art.
Proof.
  intros Hreg Hcls. unfold trainModels.
  match goal with
  | |- context [ridgeTrain ?a ?b ?c ?X ?y] =>
      destruct (ridgeTrain_returns a b c X y) as [regW HregW];
        [now apply map_nonempty|rewrite HregW]
  end.
  cbn [mbind completion_bind].
  match goal with
  | |- context [logisticTrain ?a ?b ?c ?d ?X ?y] =>
      destruct (logisticTrain_returns a b c d X y) as [clsW HclsW];
        [now apply map_nonempty|rewrite HclsW]
  end.
  cbn [mbind completion_bind].
  match goal with
  | |- context [foldM (fitRegSegment ?sch ?scaler) ?g ?s] =>
      destruct (foldM_fitRegSegment_returns sch scaler g s) as [regs Hregs];
        rewrite Hregs
  end.
  cbn [mbind completion_bind].
  match goal with
  | |- context [foldM (fitClsSegment ?sch ?scaler) ?g ?s] =>
      destruct (foldM_fitClsSegment_returns sch scaler g s) as [clss Hclss];
        rewrite Hclss
  end.
  cbn [mbind completion_bind].
  match goal with
  | |- context [validThresholds ?rows ?probs] =>
      destruct (validThresholds_nonempty rows probs) as (best & rest & Hsorted);
        rewrite Hsorted
  end.
  eauto.
Qed.

End TrainRobustFacts.

(** ** The regression path in binary64 *)

Section Binary64Facts.
Import Binary64.

(** C10.  [quantile] is not monotone in its quantile argument on the
    numbers the code runs on: on three equal values [0.3] the interpolation
    at [q = 0.05] rounds to [0.30000000000000004], above the value [0.3]
    that [q = 0.95] returns, so the winsorization bounds of such targets
    come out with [lo] above [hi]. *)
Lemma quantile_inverted_in_binary64 :
  quantile [0.3; 0.3; 0.3]%float 0.05%float = Some 0.30000000000000004%float
  /\ quantile [0.3; 0.3; 0.3]%float 0.95%float = Some 0.3%float
  /\ PrimFloat.ltb 0.3%float 0.30000000000000004%float = true.
Proof. repeat split; vm_compute; reflexivity. Qed.

(** C7.  A regression prediction outside its bounds, on the numbers the
    code runs on: with every target of the training slice equal to [0.3],
    the global winsorization bounds are [lo = 0.30000000000000004] and
    [hi = 0.3], no segment model exists, and the prediction for the test
    row, by [predictRegRow] and by [predictReg] of the backtest alike, is
    [lo], above [hi]. *)
Lemma prediction_above_hi_in_binary64 :
  exists art,
    trainRegression constantTargets = Normal art
    /\ winsorLo art = Some 0.30000000000000004%float
    /\ winsorHi art = Some 0.3%float
    /\ regSegments art !! _segmentKey (targetRow 0.3%float) = None
    /\ predictRegRow art (targetRow 0.3%float) = 0.30000000000000004%float
    /\ predictReg art (targetRow 0.3%float) = 0.30000000000000004%float
    /\ regPredTest constantTargets = Normal [0.30000000000000004%float]
    /\ PrimFloat.ltb 0.3%float 0.30000000000000004%float = true.
Proof.
  eexists. split; [vm_compute; reflexivity|].
  repeat split; vm_compute; reflexivity.
Qed.

End Binary64Facts.

(** * Further properties of the scripts *)

(** Comparisons of rationals, from and to their boolean tests. *)
Ltac num_order :=
  repeat match goal with
         | H : Qltb _ _ = true |- _ => apply Qltb_lt in H
         | H : Qltb _ _ = false |- _ => apply Qltb_ge in H
         | H : Qle_bool _ _ = true |- _ => apply Qle_bool_iff in H
         | H : Qle_bool _ _ = false |- _ => apply Qle_bool_gt in H
         | |- Qltb _ _ = true => apply Qltb_lt
         | |- Qltb _ _ = false => apply Qltb_ge
         | |- Qle_bool _ _ = true => apply Qle_bool_iff
         | |- Qle_bool _ _ = false => apply Qle_bool_gt
         end.

(** ** The resolution timestamp and the policy window *)

Section ResolutionTsFacts.
Context `{Builtins}.
Import GenerateCapacityLabels.

Lemma Qmin_cases (x y : Q) : (Qmin x y = x /\ x <= y) \/ (Qmin x y = y /\ y <= x).
Proof.
  unfold Qmin, GenericMinMax.gmin.
  destruct (x ?= y) eqn:E.
  - left. split; [reflexivity|]. apply Qeq_alt in E. rewrite E. apply Qle_refl.
  - left. split; [reflexivity|]. apply Qlt_alt in E. now apply Qlt_le_weak.
  - right. split; [reflexivity|]. apply Qgt_alt in E. now apply Qlt_le_weak.
Qed.

Lemma Math_min_spread_spec (xs : list Q) : forall x,
  (Math_min_spread x xs = x \/ In (Math_min_spread x xs) xs)
  /\ Math_min_spread x xs <= x
  /\ Forall (fun y => Math_min_spread x xs <= y) xs.
Proof.
  unfold Math_min_spread.
  induction xs as [|y xs IH]; intros x; simpl.
  - split; [now left|]. split; [apply Qle_refl|constructor].
  - destruct (IH (Qmin x y)) as (Hin & Hle & Hall).
    destruct (Qmin_cases x y) as [[E Hxy]|[E Hxy]]; rewrite E in *.
    + split; [destruct Hin; auto|]. split; [exact Hle|].
      constructor; [eapply Qle_trans; eauto|exact Hall].
    + split; [destruct Hin as [->|]; auto|]. split; [eapply Qle_trans; eauto|].
      constructor; [exact Hle|exact Hall].
Qed.

(** The finite time values of the truthy entries of [l]. *)
Lemma parsed_expiries (l : list jsval) (t : Q) :
  In t (omap finite_or_null (map Date_getTime (List.filter truthy l)))
  <-> exists v, In v l /\ truthy v = true /\ Date_getTime v = Fin t.
Proof.
  induction l as [|v l IH]; simpl.
  - split; [contradiction|]. intros (v & [] & _).
  - destruct (truthy v) eqn:Tv; simpl.
    + destruct (Date_getTime v) as [| |q] eqn:Dv; simpl.
      * rewrite IH. split.
        -- intros (w & Hw & Htw & Hd). exists w. auto.
        -- intros (w & [<-|Hw] & Htw & Hd); [congruence|]. exists w. auto.
      * rewrite IH. split.
        -- intros (w & Hw & Htw & Hd). exists w. auto.
        -- intros (w & [<-|Hw] & Htw & Hd); [congruence|]. exists w. auto.
      * split.
        -- intros [<-|Hin]; [exists v; auto|].
           apply IH in Hin. destruct Hin as (w & Hw & Htw & Hd). exists w. auto.
        -- intros (w & [<-|Hw] & Htw & Hd).
           ++ left. congruence.
           ++ right. apply IH. exists w. auto.
    + rewrite IH. split.
      * intros (w & Hw & Htw & Hd). exists w. auto.
      * intros (w & [<-|Hw] & Htw & Hd); [congruence|]. exists w. auto.
Qed.

(** X1.  [parseResolutionTs] returns the earliest of the leg expiries that
    are present and parse to a finite time value, and [null] only when no
    expiry that is present parses. *)
Theorem parseResolutionTs_earliest (r : row) :
  let expiries :=
    [leg1ExpiresAt r; leg2ExpiresAt r; oppLeg1ExpiresAt r; oppLeg2ExpiresAt r] in
  match parseResolutionTs r with
  | Some ts =>
      (exists v, In v expiries /\ truthy v = true /\ Date_getTime v = Fin ts)
      /\ (forall v t, In v expiries -> truthy v = true ->
                      Date_getTime v = Fin t -> ts <= t)
  | None =>
      forall v, In v expiries -> truthy v = true ->
                finite_or_null (Date_getTime v) = None
  end.
Proof.
  intros expiries. unfold parseResolutionTs. fold expiries.
  pose proof (parsed_expiries expiries) as Hp.
  destruct (omap finite_or_null (map Date_getTime (List.filter truthy expiries)))
    as [|c cs] eqn:E.
  - intros v Hv Htv.
    destruct (Date_getTime v) as [| |q] eqn:Dv; try reflexivity.
    exfalso. apply (proj2 (Hp q)). exists v. auto.
  - destruct (Math_min_spread_spec cs c) as (Hin & Hle & Hall).
    split.
    + apply Hp. destruct Hin as [->|Hin]; [now left|now right].
    + intros v t Hv Htv Dv.
      assert (Ht : In t (c :: cs)) by (apply Hp; exists v; auto).
      destruct Ht as [<-|Ht]; [exact Hle|].
      rewrite List.Forall_forall in Hall. now apply Hall.
Qed.

Lemma resolvePhaseKey_Fin (h : Q) :
  resolvePhaseKey (Some (Fin h)) =
    if Qle_bool 72 h && Qltb h 168 then Some "T_7d_3d"%string
    else if Qle_bool 24 h && Qltb h 72 then Some "T_3d_1d"%string
    else if Qle_bool 6 h && Qltb h 24 then Some "T_24h_6h"%string
    else if Qle_bool 1 h && Qltb h 6 then Some "T_6h_1h"%string
    else if Qle_bool 0 h && Qltb h 1 then Some "T_1h_close"%string
    else None.
Proof.
  unfold resolvePhaseKey, RESOLUTION_PHASES, inPhase, num_geb, num_ltb, num_leb.
  simpl.
  repeat match goal with
         | |- context [Qle_bool ?a h && Qltb h ?b] =>
             destruct (Qle_bool a h && Qltb h b)
         end; reflexivity.
Qed.

Lemma in_range_iff (lo hi h : Q) : Qle_bool lo h && Qltb h hi = true <-> lo <= h < hi.
Proof. rewrite andb_true_iff, Qle_bool_iff, Qltb_lt. tauto. Qed.

Lemma not_in_range_iff (lo hi h : Q) :
  Qle_bool lo h && Qltb h hi = false <-> h < lo \/ hi <= h.
Proof.
  rewrite andb_false_iff, Qle_bool_gt, Qltb_ge. tauto.
Qed.

(** The window by the time to resolution alone, for a finite number of
    hours. *)
Lemma byTtr_Fin (h : Q) :
  Math_max (Fin 0.5) (Math_min (Fin 24) (num_div (Fin h) (Fin 4)))
  = if Qle_bool 24 (h / 4) then Fin 24
    else if Qle_bool 0.5 (h / 4) then Fin (h / 4) else Fin 0.5.
Proof.
  unfold num_div. simpl. unfold Math_min, Math_max, num_leb.
  destruct (Qle_bool 24 (h / 4)) eqn:E; [reflexivity|].
  destruct (Qle_bool 0.5 (h / 4)); reflexivity.
Qed.

Lemma policyWindow_table (k : string) (hours : Q) (t : option num) :
  k <> EmptyString ->
  POLICY_WINDOW_HOURS_BY_PHASE !! k = Some hours ->
  resolvePolicyWindowHours (Some k) t = Fin hours.
Proof.
  intros Hk Hl. unfold resolvePolicyWindowHours.
  destruct (String.eqb k EmptyString) eqn:E; [apply String.eqb_eq in E; contradiction|].
  now rewrite Hl.
Qed.

(** X2.  The policy window as a function of the hours to resolution: 24, 12,
    6, 1 and 0.5 hours in the five phases, 24 hours from 168 hours on and
    without a resolution time, 0.5 hours past the resolution.  For a time to
    resolution that is not [NaN] it lies between half an hour and 24 hours,
    and does not exceed the time to resolution when that is at least half
    an hour.  For the time to resolution [NaN], that of a row whose decision
    timestamp does not parse while an expiry does, it is [NaN]. *)
Theorem policyWindowHours_by_time_to_resolution :
  resolvePolicyWindowHours (resolvePhaseKey None) None = Fin 24
  /\ resolvePolicyWindowHours (resolvePhaseKey (Some NaN)) (Some NaN) = NaN
  /\ resolvePolicyWindowHours (resolvePhaseKey (Some (Infinity false)))
       (Some (Infinity false)) = Fin 24
  /\ resolvePolicyWindowHours (resolvePhaseKey (Some (Infinity true)))
       (Some (Infinity true)) = Fin 0.5
  /\ forall h : Q,
       let w := resolvePolicyWindowHours (resolvePhaseKey (Some (Fin h))) (Some (Fin h)) in
       (72 <= h -> w = Fin 24)
       /\ (24 <= h < 72 -> w = Fin 12)
       /\ (6 <= h < 24 -> w = Fin 6)
       /\ (1 <= h < 6 -> w = Fin 1)
       /\ (h < 1 -> w = Fin 0.5)
       /\ exists x, w = Fin x /\ 0.5 <= x /\ x <= 24 /\ (0.5 <= h -> x <= h).
Proof.
  split; [reflexivity|]. split; [reflexivity|].
  split; [reflexivity|]. split; [reflexivity|]. intros h w.
  assert (Hw :
    w = if Qle_bool 72 h && Qltb h 168 then Fin 24
        else if Qle_bool 24 h && Qltb h 72 then Fin 12
        else if Qle_bool 6 h && Qltb h 24 then Fin 6
        else if Qle_bool 1 h && Qltb h 6 then Fin 1
        else if Qle_bool 0 h && Qltb h 1 then Fin 0.5
        else if Qle_bool 24 (h / 4) then Fin 24
        else if Qle_bool 0.5 (h / 4) then Fin (h / 4) else Fin 0.5).
  { unfold w. rewrite resolvePhaseKey_Fin.
    repeat match goal with
           | |- context [Qle_bool ?a h && Qltb h ?b] =>
               destruct (Qle_bool a h && Qltb h b)
           end;
      try (apply policyWindow_table; [discriminate|reflexivity]).
    unfold resolvePolicyWindowHours. apply byTtr_Fin. }
  assert (Hq : h / 4 == h * (1 # 4)) by (unfold Qdiv; reflexivity).
  clearbody w. subst w.
  destruct (Qle_bool 72 h && Qltb h 168) eqn:E1;
    [apply in_range_iff in E1|apply not_in_range_iff in E1].
  { repeat split; try reflexivity; try (intros; exfalso; lra).
    exists 24. repeat split; try reflexivity; try lra. }
  destruct (Qle_bool 24 h && Qltb h 72) eqn:E2;
    [apply in_range_iff in E2|apply not_in_range_iff in E2].
  { repeat split; try reflexivity; try (intros; exfalso; lra).
    exists 12. repeat split; try reflexivity; try lra. }
  destruct (Qle_bool 6 h && Qltb h 24) eqn:E3;
    [apply in_range_iff in E3|apply not_in_range_iff in E3].
  { repeat split; try reflexivity; try (intros; exfalso; lra).
    exists 6. repeat split; try reflexivity; try lra. }
  destruct (Qle_bool 1 h && Qltb h 6) eqn:E4;
    [apply in_range_iff in E4|apply not_in_range_iff in E4].
  { repeat split; try reflexivity; try (intros; exfalso; lra).
    exists 1. repeat split; try reflexivity; try lra. }
  destruct (Qle_bool 0 h && Qltb h 1) eqn:E5;
    [apply in_range_iff in E5|apply not_in_range_iff in E5].
  { repeat split; try reflexivity; try (intros; exfalso; lra).
    exists 0.5. repeat split; try reflexivity; try lra. }
  destruct (Qle_bool 24 (h / 4)) eqn:E6;
    [apply Qle_bool_iff in E6|apply Qle_bool_gt in E6]; rewrite Hq in E6.
  { repeat split; try reflexivity; try (intros; exfalso; lra).
    exists 24. repeat split; try reflexivity; try lra. }
  destruct (Qle_bool 0.5 (h / 4)) eqn:E7;
    [apply Qle_bool_iff in E7|apply Qle_bool_gt in E7]; rewrite Hq in E7.
  { exfalso. lra. }
  repeat split; try reflexivity; try (intros; exfalso; lra).
  exists 0.5. repeat split; try reflexivity; try lra.
Qed.

End ResolutionTsFacts.

(** ** The candidate scans *)

Section ScanFacts.
Context `{Builtins}.
Import GenerateCapacityLabels LabelGeneration.

(** A row later than a limit is followed only by rows later than the limit,
    where the rows are in order. *)
Lemma num_gtb_above (a b m : num) :
  num_leb a b = true -> num_gtb a m = true -> num_gtb b m = true.
Proof.
  unfold num_gtb.
  destruct a as [|sa|a], b as [|sb|b], m as [|sm|m]; simpl;
    try discriminate; try reflexivity;
    try (destruct sa, sb, sm; simpl; congruence);
    try (destruct sa, sb; simpl; congruence);
    try (destruct sa, sm; simpl; congruence);
    try (destruct sb, sm; simpl; congruence);
    try (destruct sa; simpl; congruence);
    try (destruct sb; simpl; congruence);
    try (destruct sm; simpl; congruence).
  intros; num_order; lra.
Qed.

Lemma num_gtb_bound (t m1 m2 : num) :
  no_later m1 m2 -> num_gtb t m2 = true -> num_gtb t m1 = true.
Proof.
  intros [->|Hle]; [auto|]. revert Hle. unfold num_gtb.
  destruct t as [|st|t], m1 as [|s1|m1], m2 as [|s2|m2]; simpl;
    try discriminate; try reflexivity;
    try (destruct st, s1, s2; simpl; congruence);
    try (destruct st, s1; simpl; congruence);
    try (destruct st, s2; simpl; congruence);
    try (destruct s1, s2; simpl; congruence);
    try (destruct st; simpl; congruence);
    try (destruct s1; simpl; congruence);
    try (destruct s2; simpl; congruence).
  intros; num_order; lra.
Qed.

Lemma scanUntil_later (m : num) (rest : list row) :
  Forall (fun c => laterThan m c = true) rest -> scanUntil m rest = [].
Proof.
  destruct rest as [|r rest]; [reflexivity|]. intros Hall. inversion Hall; subst.
  simpl. unfold laterThan in *. now rewrite H2.
Qed.

Lemma filter_none {A : Type} (p : A -> bool) (l : list A) :
  Forall (fun c => p c = false) l -> List.filter p l = [].
Proof.
  induction 1 as [|c l Hc _ IH]; simpl; [reflexivity|]. now rewrite Hc.
Qed.

Lemma scanUntil_filter (m : num) (rest : list row) :
  chronological rest ->
  scanUntil m rest = List.filter (fun c => negb (laterThan m c)) rest.
Proof.
  unfold chronological.
  induction 1 as [|r rest Hsorted IH Hr]; simpl; [reflexivity|].
  fold (laterThan m r). destruct (laterThan m r) eqn:E; simpl.
  - symmetry. apply filter_none.
    eapply Forall_impl; [exact Hr|]. intros c Hc. simpl in Hc.
    unfold laterThan in *. now rewrite (num_gtb_above _ _ _ Hc E).
  - now rewrite IH.
Qed.

Lemma chronological_skipn (n : nat) : forall seq,
  chronological seq -> chronological (skipn n seq).
Proof.
  unfold chronological.
  induction n as [|n IH]; intros seq Hs; [exact Hs|].
  destruct seq as [|r seq]; [exact Hs|]. simpl. apply IH. now inversion Hs.
Qed.

(** The limit of a scan is the value the definitions of the scans compute. *)
Lemma futureRowsWithinHorizon_scan (seq : list row) (idx : nat) (now : row)
    (horizonMs : Q) (resolutionTs : option Q) :
  futureRowsWithinHorizon seq idx now horizonMs resolutionTs
  = scanUntil (absoluteMaxTs now horizonMs resolutionTs) (skipn (S idx) seq).
Proof. reflexivity. Qed.

(** X3.  In a series in chronological order the scans lose nothing by
    stopping at the first row later than their limit: the candidates of a
    fixed horizon, and those of the resolution window, are all the rows
    after the current one that are not later than the limit. *)
Theorem candidates_of_chronological_series (seq : list row) (idx : nat) (now : row)
    (horizonMs : Q) (resolutionTs : option Q) :
  chronological seq ->
  futureRowsWithinHorizon seq idx now horizonMs resolutionTs
  = List.filter
      (fun c => negb (laterThan (absoluteMaxTs now horizonMs resolutionTs) c))
      (skipn (S idx) seq)
  /\ resolutionCandidates seq idx now resolutionTs
     = List.filter
         (fun c => negb (laterThan
                           (windowEndTs (Date_getTime (decisionTs now)) resolutionTs) c))
         (skipn (S idx) seq).
Proof.
  intros Hs. split.
  - rewrite futureRowsWithinHorizon_scan.
    apply scanUntil_filter, chronological_skipn, Hs.
  - unfold resolutionCandidates.
    apply scanUntil_filter, chronological_skipn, Hs.
Qed.

(** *** A longer window holds the candidates of a shorter one *)

Lemma scanUntil_mono (m1 m2 : num) (rest : list row) :
  no_later m1 m2 -> exists ext, scanUntil m2 rest = scanUntil m1 rest ++ ext.
Proof.
  intros Hm. induction rest as [|r rest [ext IH]]; simpl; [now exists []|].
  destruct (num_gtb (Date_getTime (decisionTs r)) m2) eqn:E2.
  - rewrite (num_gtb_bound _ _ _ Hm E2). now exists [].
  - destruct (num_gtb (Date_getTime (decisionTs r)) m1).
    + eexists. reflexivity.
    + exists ext. simpl. now rewrite IH.
Qed.

Lemma Math_min_Fin (a b : Q) : Math_min (Fin a) (Fin b) = Fin (Qmin a b).
Proof.
  unfold Math_min, num_leb, Qmin, GenericMinMax.gmin.
  destruct (a ?= b) eqn:C.
  - apply Qeq_alt in C.
    assert (E : Qle_bool a b = true) by (apply Qle_bool_iff; rewrite C; apply Qle_refl).
    now rewrite E.
  - apply Qlt_alt in C.
    assert (E : Qle_bool a b = true) by (apply Qle_bool_iff; now apply Qlt_le_weak).
    now rewrite E.
  - apply Qgt_alt in C.
    assert (E : Qle_bool a b = false) by (now apply Qle_bool_gt).
    now rewrite E.
Qed.

Lemma absoluteMaxTs_mono (now : row) (h1 h2 : Q) (rts : option Q) :
  h1 <= h2 -> no_later (absoluteMaxTs now h1 rts) (absoluteMaxTs now h2 rts).
Proof.
  intros Hh. unfold absoluteMaxTs, no_later.
  destruct (Date_getTime (decisionTs now)) as [|s|t0]; destruct rts as [r|];
    cbn [num_add]; try (left; reflexivity).
  - right. rewrite !Math_min_Fin. simpl. num_order.
    repeat apply Q.min_glb.
    + eapply Qle_trans; [apply Q.le_min_l|]. eapply Qle_trans; [apply Q.le_min_l|]. lra.
    + eapply Qle_trans; [apply Q.le_min_l|]. apply Q.le_min_r.
    + apply Q.le_min_r.
  - right. simpl. num_order.
    assert (Qmin h1 MAX_MODEL_WINDOW_MS <= Qmin h2 MAX_MODEL_WINDOW_MS).
    { apply Q.min_glb; [eapply Qle_trans; [apply Q.le_min_l|exact Hh]|apply Q.le_min_r]. }
    lra.
Qed.

Lemma absoluteMaxTs_windowEnd (now : row) (h : Q) (rts : option Q) :
  no_later (absoluteMaxTs now h rts)
           (windowEndTs (Date_getTime (decisionTs now)) rts).
Proof.
  unfold absoluteMaxTs, windowEndTs, no_later.
  destruct (Date_getTime (decisionTs now)) as [|s|t0]; destruct rts as [r|];
    cbn [num_add]; try (left; reflexivity).
  - destruct s; left; reflexivity.
  - right. rewrite !Math_min_Fin. simpl. num_order.
    apply Q.min_glb.
    + apply Q.le_min_r.
    + eapply Qle_trans; [apply Q.le_min_l|]. apply Q.le_min_r.
  - right. simpl. num_order.
    pose proof (Q.le_min_r h MAX_MODEL_WINDOW_MS). lra.
Qed.

(** *** The best-edge tracker *)

Lemma improves_false (best : option Q) (x : Q) :
  improves best x = false <-> exists b, best = Some b /\ x <= b.
Proof.
  unfold improves. destruct best as [b|].
  - rewrite Qltb_ge. split; [eauto|]. now intros (b' & [= <-] & Hle).
  - split; [discriminate|]. now intros (b' & Hb & _).
Qed.

Lemma improves_true_Some (b x : Q) : improves (Some b) x = true <-> b < x.
Proof. apply Qltb_lt. Qed.

Lemma scanCandidate_edge (nowEdge : Q) (nowCapacity rts : option Q) (pe : num)
    (t : trackers) (c : row) :
  match safeNum (expectedEdgeAtDecision c) with
  | None => scanCandidate nowEdge nowCapacity rts pe t c = t
  | Some e =>
      bestEdge7d (scanCandidate nowEdge nowCapacity rts pe t c)
      = (if improves (bestEdge7d t) e then Some e else bestEdge7d t)
      /\ bestEdgeTs (scanCandidate nowEdge nowCapacity rts pe t c)
         = (if improves (bestEdge7d t) e then decisionTs c else bestEdgeTs t)
  end.
Proof.
  unfold scanCandidate. destruct (safeNum (expectedEdgeAtDecision c)); simpl; auto.
Qed.

(** The scan leaves the best edge as it was, no candidate improving on it,
    or ends with the edge and the timestamp of the first candidate that
    reaches the greatest edge. *)
Lemma scan_edge_spec (nowEdge : Q) (nowCapacity rts : option Q) (pe : num)
    (cands : list row) : forall t : trackers,
  let t' := fold_left (scanCandidate nowEdge nowCapacity rts pe) cands t in
  (bestEdge7d t' = bestEdge7d t /\ bestEdgeTs t' = bestEdgeTs t
   /\ Forall (fun c => forall e, safeNum (expectedEdgeAtDecision c) = Some e ->
                                 improves (bestEdge7d t) e = false) cands)
  \/ (exists front c back e,
        cands = front ++ c :: back
        /\ safeNum (expectedEdgeAtDecision c) = Some e
        /\ bestEdge7d t' = Some e /\ bestEdgeTs t' = decisionTs c
        /\ improves (bestEdge7d t) e = true
        /\ Forall (fun c' => forall e', safeNum (expectedEdgeAtDecision c') = Some e' ->
                                        e' < e) front
        /\ Forall (fun c' => forall e', safeNum (expectedEdgeAtDecision c') = Some e' ->
                                        e' <= e) back).
Proof.
  induction cands as [|c0 cs IH]; intros t; simpl.
  - left. auto.
  - pose proof (scanCandidate_edge nowEdge nowCapacity rts pe t c0) as Hstep.
    specialize (IH (scanCandidate nowEdge nowCapacity rts pe t c0)).
    destruct (safeNum (expectedEdgeAtDecision c0)) as [e0|] eqn:E0.
    + destruct Hstep as [Hb Hts].
      destruct (improves (bestEdge7d t) e0) eqn:Eimp.
      * (* the first candidate improves on the start *)
        rewrite Hb, Hts in IH.
        destruct IH as [(Hb' & Hts' & Hall)|(front & c & back & e & -> & Hc & Hb' & Hts' & Himp & Hf & Hbk)].
        -- right. exists [], c0, cs, e0. simpl.
           repeat split; auto.
           eapply Forall_impl; [exact Hall|]. intros c Hc e He. simpl in Hc.
           specialize (Hc e He). now apply Qltb_ge in Hc.
        -- right. exists (c0 :: front), c, back, e. simpl.
           apply improves_true_Some in Himp.
           repeat split; auto.
           ++ destruct (bestEdge7d t) as [b|]; [|reflexivity].
              apply improves_true_Some. apply improves_true_Some in Eimp. lra.
           ++ constructor; [|exact Hf]. intros e' He'. rewrite E0 in He'.
              injection He' as <-. exact Himp.
      * (* the first candidate does not improve *)
        rewrite Hb, Hts in IH.
        destruct IH as [(Hb' & Hts' & Hall)|(front & c & back & e & -> & Hc & Hb' & Hts' & Himp & Hf & Hbk)].
        -- left. repeat split; auto. constructor; [|exact Hall].
           intros e He. rewrite E0 in He. injection He as <-. exact Eimp.
        -- right. exists (c0 :: front), c, back, e. simpl.
           repeat split; auto.
           constructor; [|exact Hf]. intros e' He'. rewrite E0 in He'.
           injection He' as <-.
           apply improves_false in Eimp. destruct Eimp as (b & Hbt & Hle).
           rewrite Hbt in Himp. apply improves_true_Some in Himp. lra.
    + rewrite Hstep in IH.
      destruct IH as [(Hb' & Hts' & Hall)|(front & c & back & e & -> & Hc & Hb' & Hts' & Himp & Hf & Hbk)].
      * left. rewrite Hstep. repeat split; auto. constructor; [|exact Hall].
        intros e He. rewrite E0 in He. discriminate.
      * right. exists (c0 :: front), c, back, e. simpl. rewrite Hstep.
        repeat split; auto.
        constructor; [|exact Hf]. intros e' He'. rewrite E0 in He'. discriminate.
Qed.

(** From no best edge, the scan ends with the first greatest edge of the
    candidates, or with none when no candidate has an edge. *)
Lemma scan_edge_from_none (nowEdge : Q) (nowCapacity rts : option Q) (pe : num)
    (cands : list row) :
  let t' := fold_left (scanCandidate nowEdge nowCapacity rts pe) cands noTrackers in
  match bestEdge7d t' with
  | None => Forall (fun c => safeNum (expectedEdgeAtDecision c) = None) cands
  | Some best =>
      exists front c back,
        cands = front ++ c :: back
        /\ safeNum (expectedEdgeAtDecision c) = Some best
        /\ bestEdgeTs t' = decisionTs c
        /\ Forall (fun c' => forall e', safeNum (expectedEdgeAtDecision c') = Some e' ->
                                        e' < best) front
        /\ Forall (fun c' => forall e', safeNum (expectedEdgeAtDecision c') = Some e' ->
                                        e' <= best) back
  end.
Proof.
  intros t'.
  destruct (scan_edge_spec nowEdge nowCapacity rts pe cands noTrackers)
    as [(Hb & Hts & Hall)|(front & c & back & e & Hc & He & Hb & Hts & _ & Hf & Hbk)];
    fold t' in Hb, Hts; rewrite Hb.
  - simpl. eapply Forall_impl; [exact Hall|]. intros c Hc. simpl in Hc.
    destruct (safeNum (expectedEdgeAtDecision c)) as [e|]; [|reflexivity].
    specialize (Hc e eq_refl). discriminate.
  - exists front, c, back. auto.
Qed.

Lemma scan_best_grows (nowEdge : Q) (nowCapacity rts : option Q) (pe : num)
    (cands : list row) (t : trackers) (b : Q) :
  bestEdge7d t = Some b ->
  exists b', bestEdge7d (fold_left (scanCandidate nowEdge nowCapacity rts pe) cands t)
             = Some b' /\ b <= b'.
Proof.
  intros Hb.
  destruct (scan_edge_spec nowEdge nowCapacity rts pe cands t)
    as [(Hb' & _)|(front & c & back & e & _ & _ & Hb' & _ & Himp & _)].
  - exists b. split; [congruence|apply Qle_refl].
  - exists e. split; [exact Hb'|]. rewrite Hb in Himp.
    apply improves_true_Some in Himp. lra.
Qed.

(** *** The resolution-anchored label, read off the scan *)

Lemma resolutionLabel_inv (seq : list row) (idx : nat) (rts : option Q)
    (label : resolutionAnchoredLabel) :
  buildResolutionAnchoredLabels seq idx rts = Normal (Some label) ->
  exists now nowEdge,
    nth_error seq idx = Some now
    /\ safeNum (expectedEdgeAtDecision now) = Some nowEdge
    /\ resolutionCandidates seq idx now rts <> []
    /\ let t := scanned now nowEdge rts (resolutionCandidates seq idx now rts) in
       bestEdge7d t = Some (bestFutureEdge7d label)
       /\ edgeUplift7d label = bestFutureEdge7d label - nowEdge
       /\ improvesEdge7d label = Qltb 0 (bestFutureEdge7d label - nowEdge)
       /\ minutesToBestEdge7d label
          = minutesSince (Date_getTime (decisionTs now)) (bestEdgeTs t)
       /\ nowCapacityContracts label = resolveCapacity now
       /\ capacityAdjustedUplift7d label = bestCapAdj7d t
       /\ bestFillRatioAtNowSize7d label = bestFillRatio7d t
       /\ bestLateWindowCapacityAdjustedUplift label = bestLateCapAdj t
       /\ bestLateWindowFillRatioAtNowSize label = bestLateFillRatio t
       /\ nearResolutionCapacityAdjustedUplift label = bestNearResCapAdj t
       /\ deltaNetPnlPolicyWindowAtNowSize label = bestPolicyWindowCapAdj t
       /\ bestWaitFillRatioPolicyWindowAtNowSize label = bestPolicyWindowFillRatio t
       /\ improvesCapacityAdjusted7d label = option_map (Qltb 0) (bestCapAdj7d t)
       /\ enterEarlyBetterThanLate label
          = option_map (fun u => Qle_bool u 0) (bestLateCapAdj t)
       /\ buyNowBeatsWaitWindow label
          = option_map (fun u => Qle_bool u 0) (bestPolicyWindowCapAdj t)
       /\ labelCensoredPolicyWindow label
          = match bestPolicyWindowCapAdj t with None => true | Some _ => false end.
Proof.
  unfold buildResolutionAnchoredLabels.
  destruct (nth_error seq idx) as [now|]; [|discriminate].
  destruct (resolutionCandidates seq idx now rts) as [|c cs] eqn:Ecs;
    [discriminate|].
  destruct (safeNum (expectedEdgeAtDecision now)) as [nowEdge|] eqn:Enow;
    [|discriminate].
  match goal with
  | |- context [fold_left ?f ?l ?a] => set (t := fold_left f l a)
  end.
  destruct (bestEdge7d t) as [best|] eqn:Ebest; [|discriminate].
  intros [= <-]. exists now, nowEdge.
  split; [reflexivity|]. split; [exact Enow|].
  rewrite Ecs. split; [discriminate|].
  change (scanned now nowEdge rts (c :: cs)) with t. simpl.
  rewrite Ebest. repeat split; reflexivity.
Qed.

(** X5.  The best future edge of a resolution-anchored label is the
    greatest edge among the candidates of the window: a candidate has it and
    no candidate has a greater one.  The uplift is its difference to the
    edge of the row, and [improvesEdge7d] holds exactly when a candidate has
    a greater edge than the row. *)
Theorem bestFutureEdge7d_is_maximum (seq : list row) (idx : nat) (now : row)
    (rts : option Q) (label : resolutionAnchoredLabel) :
  nth_error seq idx = Some now ->
  buildResolutionAnchoredLabels seq idx rts = Normal (Some label) ->
  (exists c, In c (resolutionCandidates seq idx now rts)
             /\ safeNum (expectedEdgeAtDecision c) = Some (bestFutureEdge7d label))
  /\ (forall c e, In c (resolutionCandidates seq idx now rts) ->
                  safeNum (expectedEdgeAtDecision c) = Some e ->
                  e <= bestFutureEdge7d label)
  /\ exists nowEdge,
       safeNum (expectedEdgeAtDecision now) = Some nowEdge
       /\ edgeUplift7d label = bestFutureEdge7d label - nowEdge
       /\ (improvesEdge7d label = true
           <-> exists c e, In c (resolutionCandidates seq idx now rts)
                           /\ safeNum (expectedEdgeAtDecision c) = Some e
                           /\ nowEdge < e).
Proof.
  intros Hnow Hlabel.
  destruct (resolutionLabel_inv _ _ _ _ Hlabel)
    as (now' & nowEdge & Hnow' & Hedge & _ & Hbest & Hup & Himp & _).
  rewrite Hnow in Hnow'. injection Hnow' as <-.
  pose proof (scan_edge_from_none nowEdge (resolveCapacity now) rts
                (policyWindowEndTs now rts) (resolutionCandidates seq idx now rts))
    as Hscan.
  cbv zeta in Hscan. fold (scanned now nowEdge rts (resolutionCandidates seq idx now rts))
    in Hscan.
  rewrite Hbest in Hscan.
  destruct Hscan as (front & c & back & Hc & He & _ & Hf & Hbk).
  assert (Hmax : forall c' e, In c' (resolutionCandidates seq idx now rts) ->
                   safeNum (expectedEdgeAtDecision c') = Some e ->
                   e <= bestFutureEdge7d label).
  { intros c' e Hin He'. rewrite Hc in Hin. apply in_app_or in Hin.
    rewrite List.Forall_forall in Hf, Hbk.
    destruct Hin as [Hin|[<-|Hin]].
    - apply Qlt_le_weak. now apply (Hf c').
    - rewrite He in He'. injection He' as <-. apply Qle_refl.
    - now apply (Hbk c'). }
  split; [exists c; split; [rewrite Hc; apply in_or_app; right; now left|exact He]|].
  split; [exact Hmax|].
  exists nowEdge. split; [exact Hedge|]. split; [exact Hup|].
  rewrite Himp, Qltb_lt. split.
  - intros Hlt. exists c, (bestFutureEdge7d label).
    split; [rewrite Hc; apply in_or_app; right; now left|]. split; [exact He|lra].
  - intros (c' & e & Hin & He' & Hlt). specialize (Hmax c' e Hin He'). lra.
Qed.

(** X6.  Ties keep the earliest row: the time to the best edge is measured
    to the first candidate that has the best future edge, every candidate
    before it having a smaller one. *)
Theorem minutesToBestEdge7d_first_best (seq : list row) (idx : nat) (now : row)
    (rts : option Q) (label : resolutionAnchoredLabel) :
  nth_error seq idx = Some now ->
  buildResolutionAnchoredLabels seq idx rts = Normal (Some label) ->
  exists front c back,
    resolutionCandidates seq idx now rts = front ++ c :: back
    /\ safeNum (expectedEdgeAtDecision c) = Some (bestFutureEdge7d label)
    /\ Forall (fun c' => forall e, safeNum (expectedEdgeAtDecision c') = Some e ->
                                   e < bestFutureEdge7d label) front
    /\ minutesToBestEdge7d label
       = minutesSince (Date_getTime (decisionTs now)) (decisionTs c).
Proof.
  intros Hnow Hlabel.
  destruct (resolutionLabel_inv _ _ _ _ Hlabel)
    as (now' & nowEdge & Hnow' & Hedge & _ & Hbest & _ & _ & Hmin & _).
  rewrite Hnow in Hnow'. injection Hnow' as <-.
  pose proof (scan_edge_from_none nowEdge (resolveCapacity now) rts
                (policyWindowEndTs now rts) (resolutionCandidates seq idx now rts))
    as Hscan.
  cbv zeta in Hscan. fold (scanned now nowEdge rts (resolutionCandidates seq idx now rts))
    in Hscan.
  rewrite Hbest in Hscan.
  destruct Hscan as (front & c & back & Hc & He & Hts & Hf & _).
  exists front, c, back. rewrite Hmin, Hts. auto.
Qed.

(** *** The capacity-adjusted trackers *)

Lemma omap_positive (l : list (option Q)) (x : Q) :
  In x (omap id (List.filter
                   (fun x => match x with Some q => Qltb 0 q | None => false end) l)) ->
  0 < x.
Proof.
  induction l as [|[q|] l IH]; simpl; [contradiction| |exact IH].
  destruct (Qltb 0 q) eqn:E; simpl; [|exact IH].
  intros [<-|Hin]; [now apply Qltb_lt|now apply IH].
Qed.

Lemma resolveCapacity_pos (r : row) (c : Q) : resolveCapacity r = Some c -> 0 < c.
Proof.
  unfold resolveCapacity. cbv zeta.
  pose proof (omap_positive
      [safeNum (targetContractsAtDecision r); safeNum (minKernelContractsAtDecision r)])
    as Hpos.
  destruct (omap id _) as [|c0 cs]; [discriminate|].
  intros [= <-].
  destruct (Math_min_spread_spec cs c0) as ([->|Hin] & _).
  - apply Hpos. now left.
  - apply Hpos. now right.
Qed.

(** One iteration of the candidate loop on the capacity-adjusted trackers:
    they stay as they are when the candidate has no edge or no capacity or
    the row has no positive capacity; otherwise each is replaced, under its
    own condition, when the uplift of the candidate improves on it. *)
Lemma scanCandidate_uplifts (nowEdge : Q) (nowCapacity rts : option Q) (pe : num)
    (t : trackers) (c : row) :
  let t' := scanCandidate nowEdge nowCapacity rts pe t c in
  ((safeNum (expectedEdgeAtDecision c) = None \/ resolveCapacity c = None
    \/ nowCapacity = None \/ exists nc, nowCapacity = Some nc /\ nc <= 0)
   /\ bestCapAdj7d t' = bestCapAdj7d t
   /\ bestFillRatio7d t' = bestFillRatio7d t
   /\ bestLateCapAdj t' = bestLateCapAdj t
   /\ bestLateFillRatio t' = bestLateFillRatio t
   /\ bestNearResCapAdj t' = bestNearResCapAdj t
   /\ bestPolicyWindowCapAdj t' = bestPolicyWindowCapAdj t
   /\ bestPolicyWindowFillRatio t' = bestPolicyWindowFillRatio t)
  \/ (exists cEdge nc cc,
        safeNum (expectedEdgeAtDecision c) = Some cEdge
        /\ nowCapacity = Some nc /\ 0 < nc
        /\ resolveCapacity c = Some cc
        /\ let u := cEdge * Qmin nc cc - nowEdge * nc in
           let f := Qmin nc cc / nc in
           let ttr := hoursToResolution rts (Date_getTime (decisionTs c)) in
           let late := withinHours ttr LATE_WINDOW_HOURS in
           let near := withinHours ttr NEAR_RESOLUTION_HOURS in
           let policy := num_leb (Date_getTime (decisionTs c)) pe in
           bestCapAdj7d t'
           = (if improves (bestCapAdj7d t) u then Some u else bestCapAdj7d t)
           /\ bestFillRatio7d t'
              = (if improves (bestCapAdj7d t) u then Some f else bestFillRatio7d t)
           /\ bestLateCapAdj t'
              = (if late && improves (bestLateCapAdj t) u then Some u
                 else bestLateCapAdj t)
           /\ bestLateFillRatio t'
              = (if late && improves (bestLateCapAdj t) u then Some f
                 else bestLateFillRatio t)
           /\ bestNearResCapAdj t'
              = (if near && improves (bestNearResCapAdj t) u then Some u
                 else bestNearResCapAdj t)
           /\ bestPolicyWindowCapAdj t'
              = (if policy && improves (bestPolicyWindowCapAdj t) u then Some u
                 else bestPolicyWindowCapAdj t)
           /\ bestPolicyWindowFillRatio t'
              = (if policy && improves (bestPolicyWindowCapAdj t) u then Some f
                 else bestPolicyWindowFillRatio t)).
Proof.
  unfold scanCandidate.
  destruct (safeNum (expectedEdgeAtDecision c)) as [cEdge|] eqn:Ec.
  2:{ left. split; [now left|]. repeat split; reflexivity. }
  destruct (resolveCapacity c) as [cc|] eqn:Ecc.
  2:{ left. split; [right; now left|].
      destruct nowCapacity; simpl; repeat split; reflexivity. }
  destruct nowCapacity as [nc|].
  2:{ left. split; [right; right; now left|]. simpl. repeat split; reflexivity. }
  destruct (Qltb 0 nc) eqn:Enc.
  2:{ left. split; [right; right; right; exists nc; split; [reflexivity|now apply Qltb_ge]|].
      simpl. repeat split; reflexivity. }
  right. exists cEdge, nc, cc. apply Qltb_lt in Enc.
  split; [reflexivity|]. split; [reflexivity|]. split; [exact Enc|].
  split; [reflexivity|]. simpl. repeat split; reflexivity.
Qed.

Lemma fold_left_invariant {S A : Type} (P : S -> Prop) (f : S -> A -> S) (l : list A) :
  (forall s a, P s -> P (f s a)) -> forall s, P s -> P (fold_left f l s).
Proof.
  intros Hstep. induction l as [|a l IH]; intros s Hs; simpl; [exact Hs|].
  apply IH, Hstep, Hs.
Qed.

Lemma fill_ratio_unit (nc cc : Q) : 0 < nc -> 0 < cc ->
  0 < Qmin nc cc / nc /\ Qmin nc cc / nc <= 1.
Proof.
  intros Hnc Hcc. split.
  - apply Qlt_shift_div_l; [exact Hnc|]. rewrite Qmult_0_l.
    destruct (Qmin_cases nc cc) as [[-> _]|[-> _]]; assumption.
  - apply Qle_shift_div_r; [exact Hnc|]. rewrite Qmult_1_l. apply Q.le_min_l.
Qed.

(** A fill ratio that is not [null] lies in (0, 1]. *)
Lemma scan_fill_ratios (nowEdge : Q) (nowCapacity rts : option Q) (pe : num)
    (cands : list row) :
  let t := fold_left (scanCandidate nowEdge nowCapacity rts pe) cands noTrackers in
  forall f,
    bestFillRatio7d t = Some f \/ bestLateFillRatio t = Some f
    \/ bestPolicyWindowFillRatio t = Some f ->
    0 < f /\ f <= 1.
Proof.
  apply (fold_left_invariant
           (fun t => forall f,
              bestFillRatio7d t = Some f \/ bestLateFillRatio t = Some f
              \/ bestPolicyWindowFillRatio t = Some f -> 0 < f /\ f <= 1)).
  - intros t c Ht f.
    destruct (scanCandidate_uplifts nowEdge nowCapacity rts pe t c)
      as [(_ & _ & H7 & _ & Hl & _ & _ & Hp)
         |(cEdge & nc & cc & _ & _ & Hnc & Hcc & _ & H7 & _ & Hl & _ & _ & Hp)].
    + rewrite H7, Hl, Hp. apply Ht.
    + rewrite H7, Hl, Hp.
      pose proof (fill_ratio_unit nc cc Hnc (resolveCapacity_pos _ _ Hcc)) as Hunit.
      intros [Hf|[Hf|Hf]];
        match type of Hf with
        | (if ?b then _ else _) = _ => destruct b
        end;
        try (injection Hf as <-; exact Hunit); apply Ht; auto.
  - simpl. intros f [Hf|[Hf|Hf]]; discriminate.
Qed.

(** A tracker that is updated under a condition stays below a tracker that is
    updated whenever that condition holds. *)
Lemma tracker_below (inner outer : bool) (sub sup : option Q) (u : Q) :
  (inner = true -> outer = true) ->
  (forall d, sub = Some d -> exists v, sup = Some v /\ d <= v) ->
  forall d, (if inner && improves sub u then Some u else sub) = Some d ->
            exists v, (if outer && improves sup u then Some u else sup) = Some v
                      /\ d <= v.
Proof.
  intros Hcond Hinv d.
  destruct (inner && improves sub u) eqn:E.
  - intros [= <-]. apply andb_true_iff in E. destruct E as [Hin _].
    rewrite (Hcond Hin). simpl.
    destruct (improves sup u) eqn:Es.
    + exists u. split; [reflexivity|apply Qle_refl].
    + apply improves_false in Es. destruct Es as (v & -> & Hle). exists v. auto.
  - intros Hsub. destruct (Hinv d Hsub) as (v & -> & Hle).
    destruct (outer && improves (Some v) u) eqn:Es.
    + exists u. split; [reflexivity|]. apply andb_true_iff in Es.
      destruct Es as [_ Es]. apply improves_true_Some in Es. lra.
    + exists v. auto.
Qed.

Lemma withinHours_near_late (ttr : option num) :
  withinHours ttr NEAR_RESOLUTION_HOURS = true -> withinHours ttr LATE_WINDOW_HOURS = true.
Proof.
  unfold withinHours, NEAR_RESOLUTION_HOURS, LATE_WINDOW_HOURS.
  destruct ttr as [[|s|x]|]; simpl; auto.
  intros; num_order; lra.
Qed.

(** The uplift of the whole window bounds the uplifts of the late window and
    of the policy window, and the uplift of the late window bounds the one
    near the resolution. *)
Lemma scan_uplift_order (nowEdge : Q) (nowCapacity rts : option Q) (pe : num)
    (cands : list row) :
  let t := fold_left (scanCandidate nowEdge nowCapacity rts pe) cands noTrackers in
  (forall d, bestPolicyWindowCapAdj t = Some d ->
             exists v, bestCapAdj7d t = Some v /\ d <= v)
  /\ (forall d, bestLateCapAdj t = Some d ->
                exists v, bestCapAdj7d t = Some v /\ d <= v)
  /\ (forall d, bestNearResCapAdj t = Some d ->
                exists v, bestLateCapAdj t = Some v /\ d <= v).
Proof.
  apply (fold_left_invariant
           (fun t =>
              (forall d, bestPolicyWindowCapAdj t = Some d ->
                         exists v, bestCapAdj7d t = Some v /\ d <= v)
              /\ (forall d, bestLateCapAdj t = Some d ->
                            exists v, bestCapAdj7d t = Some v /\ d <= v)
              /\ (forall d, bestNearResCapAdj t = Some d ->
                            exists v, bestLateCapAdj t = Some v /\ d <= v))).
  - intros t c (Hp & Hl & Hn).
    destruct (scanCandidate_uplifts nowEdge nowCapacity rts pe t c)
      as [(_ & E7 & _ & El & _ & En & Ep & _)
         |(cEdge & nc & cc & _ & _ & _ & _ & E7 & _ & El & _ & En & Ep & _)];
      rewrite E7, El, En, Ep.
    + auto.
    + split; [|split].
      * intros d Hd.
        apply (tracker_below _ true _ (bestCapAdj7d t) _ (fun _ => eq_refl) Hp d Hd).
      * intros d Hd.
        apply (tracker_below _ true _ (bestCapAdj7d t) _ (fun _ => eq_refl) Hl d Hd).
      * intros d Hd.
        apply (tracker_below _ _ _ _ _ (withinHours_near_late _) Hn d Hd).
  - simpl. repeat split; intros d Hd; discriminate.
Qed.

(** The policy-window tracker stays empty exactly when the row has no
    capacity or no candidate counts for the policy window. *)
Lemma scan_policy_none (now : row) (nowEdge : Q) (rts : option Q) (cands : list row) :
  forall t,
    bestPolicyWindowCapAdj
      (fold_left (scanCandidate nowEdge (resolveCapacity now) rts
                    (policyWindowEndTs now rts)) cands t) = None
    <-> bestPolicyWindowCapAdj t = None
        /\ (resolveCapacity now = None
            \/ Forall (fun c => inPolicyWindow now rts c = false) cands).
Proof.
  induction cands as [|c cs IH]; intros t; simpl.
  - split; [intros Ht; split; [exact Ht|right; constructor]|tauto].
  - rewrite IH.
    destruct (scanCandidate_uplifts nowEdge (resolveCapacity now) rts
                (policyWindowEndTs now rts) t c)
      as [(Hwhy & _ & _ & _ & _ & _ & Ep & _)
         |(cEdge & nc & cc & Ec & Enc & Hnc & Ecc & _ & _ & _ & _ & _ & Ep & _)];
      rewrite Ep.
    + assert (Hc : resolveCapacity now = None \/ inPolicyWindow now rts c = false).
      { unfold inPolicyWindow.
        destruct Hwhy as [->|[->|[->|(nc & Hnc & Hle)]]]; auto.
        - right. now destruct (safeNum (expectedEdgeAtDecision c)).
        - exfalso. apply resolveCapacity_pos in Hnc. lra. }
      split.
      * intros (Ht & [Hn|Hall]); split; auto. destruct Hc as [Hc|Hc]; auto.
      * intros (Ht & [Hn|Hall]); split; auto. right. now inversion Hall.
    + assert (Hc : inPolicyWindow now rts c
                   = num_leb (Date_getTime (decisionTs c)) (policyWindowEndTs now rts)).
      { unfold inPolicyWindow. now rewrite Ec, Ecc. }
      destruct (num_leb (Date_getTime (decisionTs c)) (policyWindowEndTs now rts)) eqn:Ele;
        simpl.
      * split.
        -- intros (Ht & _). exfalso.
           destruct (improves (bestPolicyWindowCapAdj t) _) eqn:Ei; [discriminate|].
           apply improves_false in Ei. destruct Ei as (b & Hb & _). congruence.
        -- intros (Ht & [Hn|Hall]); [congruence|]. inversion Hall; subst. congruence.
      * split.
        -- intros (Ht & [Hn|Hall]); split; auto.
        -- intros (Ht & [Hn|Hall]); split; auto. right. now inversion Hall.
Qed.

(** X7.  Every fill ratio of a resolution-anchored label that is not
    [null] lies between 0 and 1. *)
Theorem fill_ratios_within_unit (seq : list row) (idx : nat) (rts : option Q)
    (label : resolutionAnchoredLabel) :
  buildResolutionAnchoredLabels seq idx rts = Normal (Some label) ->
  forall f,
    bestFillRatioAtNowSize7d label = Some f
    \/ bestLateWindowFillRatioAtNowSize label = Some f
    \/ bestWaitFillRatioPolicyWindowAtNowSize label = Some f ->
    0 <= f /\ f <= 1.
Proof.
  intros Hlabel.
  destruct (resolutionLabel_inv _ _ _ _ Hlabel)
    as (now & nowEdge & _ & _ & _ & _ & _ & _ & _ & _ & _ & H7 & _ & Hl & _ & _ & Hp & _).
  rewrite H7, Hl, Hp. intros f Hf.
  destruct (scan_fill_ratios _ _ _ _ _ f Hf) as [Hpos Hle].
  split; [apply Qlt_le_weak; exact Hpos|exact Hle].
Qed.

(** X8.  For a series whose profits are bounded, so that every uplift the
    script computes is a number: in a resolution-anchored label the
    capacity-adjusted uplift of the whole window is at least the uplift of
    the late window and at least the policy-window delta, and the uplift of
    the late window is at least the one near the resolution, whenever the
    smaller one is not [null].  So a label whose capacity-adjusted uplift
    does not improve never says that waiting in the policy window beats
    buying now. *)
Theorem uplift_windows_ordered (seq : list row) (idx : nat) (rts : option Q)
    (label : resolutionAnchoredLabel) :
  profitsBounded seq ->
  buildResolutionAnchoredLabels seq idx rts = Normal (Some label) ->
  (forall d, deltaNetPnlPolicyWindowAtNowSize label = Some d ->
             exists v, capacityAdjustedUplift7d label = Some v /\ d <= v)
  /\ (forall d, bestLateWindowCapacityAdjustedUplift label = Some d ->
                exists v, capacityAdjustedUplift7d label = Some v /\ d <= v)
  /\ (forall d, nearResolutionCapacityAdjustedUplift label = Some d ->
                exists v, bestLateWindowCapacityAdjustedUplift label = Some v /\ d <= v)
  /\ (improvesCapacityAdjusted7d label = Some false ->
      buyNowBeatsWaitWindow label = Some true \/ buyNowBeatsWaitWindow label = None).
Proof.
  intros _ Hlabel.
  destruct (resolutionLabel_inv _ _ _ _ Hlabel)
    as (now & nowEdge & _ & _ & _ & _ & _ & _ & _ & _ & H7 & _ & Hl & _ & Hn & Hp & _
        & Hi & _ & Hb & _).
  destruct (scan_uplift_order nowEdge (resolveCapacity now) rts
              (policyWindowEndTs now rts) (resolutionCandidates seq idx now rts))
    as (Op & Ol & On).
  fold (scanned now nowEdge rts (resolutionCandidates seq idx now rts)) in Op, Ol, On.
  rewrite H7, Hl, Hn, Hp, Hi, Hb.
  split; [exact Op|]. split; [exact Ol|]. split; [exact On|].
  destruct (bestPolicyWindowCapAdj _) as [d|] eqn:Ed; [|now right].
  destruct (Op d eq_refl) as (v & -> & Hle). simpl.
  intros [= Hv]. left. f_equal. apply Qltb_ge in Hv. apply Qle_bool_iff. lra.
Qed.

(** X9.  A resolution-anchored label is not censored exactly when the row
    has a capacity and some candidate of the window has an edge and a
    capacity and is decided no later than the end of the policy window; the
    capacity of the row is the one the label reports. *)
Theorem censored_unless_candidate_in_policy_window (seq : list row) (idx : nat)
    (now : row) (rts : option Q) (label : resolutionAnchoredLabel) :
  nth_error seq idx = Some now ->
  buildResolutionAnchoredLabels seq idx rts = Normal (Some label) ->
  nowCapacityContracts label = resolveCapacity now
  /\ (labelCensoredPolicyWindow label = false
      <-> (exists nc, resolveCapacity now = Some nc)
          /\ exists c, In c (resolutionCandidates seq idx now rts)
                       /\ inPolicyWindow now rts c = true).
Proof.
  intros Hnow Hlabel.
  destruct (resolutionLabel_inv _ _ _ _ Hlabel)
    as (now' & nowEdge & Hnow' & _ & _ & _ & _ & _ & _ & Hcap & _ & _ & _ & _ & _ & _ & _
        & _ & _ & _ & Hcens).
  rewrite Hnow in Hnow'. injection Hnow' as <-.
  split; [exact Hcap|]. rewrite Hcens.
  pose proof (scan_policy_none now nowEdge rts (resolutionCandidates seq idx now rts)
                noTrackers) as Hnone.
  fold (scanned now nowEdge rts (resolutionCandidates seq idx now rts)) in Hnone.
  destruct (bestPolicyWindowCapAdj _) as [d|] eqn:Ed.
  - split; [intros _|reflexivity].
    destruct (resolveCapacity now) as [nc|] eqn:Enc.
    + split; [eauto|].
      destruct (existsb (inPolicyWindow now rts) (resolutionCandidates seq idx now rts))
        eqn:Eex.
      * apply existsb_exists in Eex. exact Eex.
      * exfalso. assert (Hn : @None Q = None /\
                   (Some nc = None
                    \/ Forall (fun c => inPolicyWindow now rts c = false)
                         (resolutionCandidates seq idx now rts))).
        { split; [reflexivity|right]. apply List.Forall_forall. intros c Hc.
          destruct (inPolicyWindow now rts c) eqn:Ec; [|reflexivity].
          assert (existsb (inPolicyWindow now rts)
                    (resolutionCandidates seq idx now rts) = true)
            by (apply existsb_exists; eauto).
          congruence. }
        apply Hnone in Hn. discriminate.
    + exfalso. assert (Hn : @None Q = None /\
                 (@None Q = None
                  \/ Forall (fun c => inPolicyWindow now rts c = false)
                       (resolutionCandidates seq idx now rts))) by auto.
      apply Hnone in Hn. discriminate.
  - split; [discriminate|]. intros ((nc & Hnc) & c & Hin & Hc). exfalso.
    destruct (proj1 Hnone eq_refl) as (_ & [Hn|Hall]); [congruence|].
    rewrite List.Forall_forall in Hall. specialize (Hall c Hin). congruence.
Qed.

(** *** The labels of the fixed horizons *)

Lemma scanHorizonCandidate_edge (nowEdge : Q) (nowCapacity : option Q)
    (s : option Q * jsval * option Q * jsval * option Q * option Q) (c : row) :
  let best (s : option Q * jsval * option Q * jsval * option Q * option Q) :=
    fst (fst (fst (fst (fst s)))) in
  let bestTs (s : option Q * jsval * option Q * jsval * option Q * option Q) :=
    snd (fst (fst (fst (fst s)))) in
  match safeNum (expectedEdgeAtDecision c) with
  | None => scanHorizonCandidate nowEdge nowCapacity s c = s
  | Some e =>
      best (scanHorizonCandidate nowEdge nowCapacity s c)
      = (if improves (best s) e then Some e else best s)
      /\ bestTs (scanHorizonCandidate nowEdge nowCapacity s c)
         = (if improves (best s) e then decisionTs c else bestTs s)
  end.
Proof.
  destruct s as [[[[[be bts] bu] buts] bf] bc]. unfold scanHorizonCandidate.
  destruct (safeNum (expectedEdgeAtDecision c)); simpl; auto.
Qed.

(** The best edge of a fixed-horizon scan and its timestamp are those the
    resolution scan computes on the same candidates. *)
Lemma horizon_scan_edge (nowEdge : Q) (nowCapacity rts : option Q) (pe : num)
    (cands : list row) :
  forall (s : option Q * jsval * option Q * jsval * option Q * option Q) (t : trackers),
    fst (fst (fst (fst (fst s)))) = bestEdge7d t ->
    snd (fst (fst (fst (fst s)))) = bestEdgeTs t ->
    fst (fst (fst (fst (fst
      (fold_left (scanHorizonCandidate nowEdge nowCapacity) cands s)))))
    = bestEdge7d (fold_left (scanCandidate nowEdge nowCapacity rts pe) cands t)
    /\ snd (fst (fst (fst (fst
         (fold_left (scanHorizonCandidate nowEdge nowCapacity) cands s)))))
       = bestEdgeTs (fold_left (scanCandidate nowEdge nowCapacity rts pe) cands t).
Proof.
  induction cands as [|c cs IH]; intros s t Hb Hts; simpl; [auto|].
  apply IH.
  - pose proof (scanHorizonCandidate_edge nowEdge nowCapacity s c) as Hs.
    pose proof (scanCandidate_edge nowEdge nowCapacity rts pe t c) as Ht.
    cbv zeta in Hs.
    destruct (safeNum (expectedEdgeAtDecision c)).
    + destruct Hs as [Hs _], Ht as [Ht _]. rewrite Hs, Ht, Hb. reflexivity.
    + now rewrite Hs, Ht.
  - pose proof (scanHorizonCandidate_edge nowEdge nowCapacity s c) as Hs.
    pose proof (scanCandidate_edge nowEdge nowCapacity rts pe t c) as Ht.
    cbv zeta in Hs.
    destruct (safeNum (expectedEdgeAtDecision c)).
    + destruct Hs as [_ Hs], Ht as [_ Ht]. rewrite Hs, Ht, Hb, Hts. reflexivity.
    + now rewrite Hs, Ht.
Qed.

(** The label of a fixed horizon, read off the resolution scan of its
    candidates. *)
Lemma buildHorizonLabel_edge (seq : list row) (idx : nat) (now : row)
    (rts : option Q) (hz : horizon) (rts' : option Q) (pe : num) :
  match safeNum (expectedEdgeAtDecision now) with
  | None => buildHorizonLabel seq idx now rts hz = None
  | Some nowEdge =>
      let t :=
        fold_left (scanCandidate nowEdge (resolveCapacity now) rts' pe)
          (futureRowsWithinHorizon seq idx now (ms hz) rts) noTrackers in
      match buildHorizonLabel seq idx now rts hz with
      | None => bestEdge7d t = None
      | Some a =>
          bestEdge7d t = Some (bestFutureEdge a)
          /\ edgeUplift a = bestFutureEdge a - nowEdge
          /\ improvesEdge a = Qltb 0 (bestFutureEdge a - nowEdge)
          /\ minutesToBestEdge a
             = minutesSince (Date_getTime (decisionTs now)) (bestEdgeTs t)
      end
  end.
Proof.
  unfold buildHorizonLabel.
  destruct (safeNum (expectedEdgeAtDecision now)) as [nowEdge|].
  2:{ now destruct (futureRowsWithinHorizon seq idx now (ms hz) rts). }
  cbv zeta.
  destruct (futureRowsWithinHorizon seq idx now (ms hz) rts) as [|c cs];
    [reflexivity|].
  pose proof (horizon_scan_edge nowEdge (resolveCapacity now) rts' pe (c :: cs)
                (None, JNull, None, JNull, None, None) noTrackers eq_refl eq_refl)
    as [Hb Hts].
  destruct (fold_left (scanHorizonCandidate nowEdge (resolveCapacity now)) (c :: cs)
              (None, JNull, None, JNull, None, None))
    as [[[[[be bts] bu] buts] bf] bc].
  cbn [fst snd] in Hb, Hts. rewrite <- Hb, <- Hts.
  destruct be as [best|]; cbn; auto.
Qed.

Lemma buildResolutionAnchoredLabels_edge (seq : list row) (idx : nat) (now : row)
    (rts : option Q) (nowEdge : Q) :
  nth_error seq idx = Some now ->
  safeNum (expectedEdgeAtDecision now) = Some nowEdge ->
  match buildResolutionAnchoredLabels seq idx rts with
  | Normal (Some b) =>
      bestEdge7d (scanned now nowEdge rts (resolutionCandidates seq idx now rts))
      = Some (bestFutureEdge7d b)
  | Normal None =>
      bestEdge7d (scanned now nowEdge rts (resolutionCandidates seq idx now rts)) = None
  | Throw _ => False
  end.
Proof.
  intros Hnow Hedge. unfold buildResolutionAnchoredLabels. rewrite Hnow, Hedge.
  destruct (resolutionCandidates seq idx now rts) as [|c cs]; [reflexivity|].
  change (fold_left _ (c :: cs) noTrackers) with (scanned now nowEdge rts (c :: cs)).
  destruct (bestEdge7d (scanned now nowEdge rts (c :: cs))); reflexivity.
Qed.

Lemma horizon_le_horizon (seq : list row) (idx : nat) (now : row) (rts : option Q)
    (hz1 hz2 : horizon) (a : horizonLabel) :
  ms hz1 <= ms hz2 ->
  buildHorizonLabel seq idx now rts hz1 = Some a ->
  exists b, buildHorizonLabel seq idx now rts hz2 = Some b
            /\ bestFutureEdge a <= bestFutureEdge b.
Proof.
  intros Hms Ha.
  pose proof (buildHorizonLabel_edge seq idx now rts hz1 None NaN) as H1.
  pose proof (buildHorizonLabel_edge seq idx now rts hz2 None NaN) as H2.
  destruct (safeNum (expectedEdgeAtDecision now)) as [nowEdge|]; [|congruence].
  cbv zeta in H1, H2. rewrite Ha in H1. destruct H1 as (Hb1 & _).
  rewrite !futureRowsWithinHorizon_scan in *.
  destruct (scanUntil_mono _ _ (skipn (S idx) seq) (absoluteMaxTs_mono now _ _ rts Hms))
    as [ext Hext].
  rewrite Hext, fold_left_app in H2.
  destruct (scan_best_grows nowEdge (resolveCapacity now) None NaN ext _ _ Hb1)
    as (b' & Hb' & Hle).
  rewrite Hb' in H2.
  destruct (buildHorizonLabel seq idx now rts hz2) as [b|]; [|discriminate].
  destruct H2 as ([= ->] & _). exists b. auto.
Qed.

Lemma horizon_le_resolution (seq : list row) (idx : nat) (now : row) (rts : option Q)
    (hz : horizon) (a : horizonLabel) :
  nth_error seq idx = Some now ->
  buildHorizonLabel seq idx now rts hz = Some a ->
  exists b, buildResolutionAnchoredLabels seq idx rts = Normal (Some b)
            /\ bestFutureEdge a <= bestFutureEdge7d b.
Proof.
  intros Hnow Ha.
  pose proof (buildHorizonLabel_edge seq idx now rts hz rts (policyWindowEndTs now rts))
    as H1.
  destruct (safeNum (expectedEdgeAtDecision now)) as [nowEdge|] eqn:Hedge; [|congruence].
  cbv zeta in H1. rewrite Ha in H1. destruct H1 as (Hb1 & _).
  pose proof (buildResolutionAnchoredLabels_edge seq idx now rts nowEdge Hnow Hedge) as H2.
  unfold scanned, resolutionCandidates in H2.
  rewrite futureRowsWithinHorizon_scan in Hb1.
  destruct (scanUntil_mono _ _ (skipn (S idx) seq) (absoluteMaxTs_windowEnd now (ms hz) rts))
    as [ext Hext].
  rewrite Hext, fold_left_app in H2.
  destruct (scan_best_grows nowEdge (resolveCapacity now) rts (policyWindowEndTs now rts)
              ext _ _ Hb1) as (b' & Hb' & Hle).
  rewrite Hb' in H2.
  destruct (buildResolutionAnchoredLabels seq idx rts) as [[b|]|]; try discriminate;
    [|contradiction].
  injection H2 as ->. exists b. auto.
Qed.

(** X4.  The labels of a row are nested by their windows: where the label
    of a horizon is present, so are the labels of the longer horizons and
    the resolution-anchored label, and the best future edge does not
    decrease from 15 minutes to 1 hour to 3 hours to the resolution
    window. *)
Theorem best_future_edge_grows_with_window (seq : list row) (idx : nat) (l : labels) :
  buildLabelsForRow seq idx = Normal l ->
  exists l15m l1h l3h,
    horizons l = [("15m"%string, l15m); ("1h"%string, l1h); ("3h"%string, l3h)]
    /\ (forall a, l15m = Some a ->
                  exists b, l1h = Some b /\ bestFutureEdge a <= bestFutureEdge b)
    /\ (forall a, l1h = Some a ->
                  exists b, l3h = Some b /\ bestFutureEdge a <= bestFutureEdge b)
    /\ (forall a, l3h = Some a ->
                  exists b, resolutionAnchored l = Some b
                            /\ bestFutureEdge a <= bestFutureEdge7d b).
Proof.
  unfold buildLabelsForRow.
  destruct (nth_error seq idx) as [now|] eqn:Hnow; [|discriminate].
  destruct (classifyTaxonomyRow now) as [tag|]; [|discriminate].
  destruct (buildResolutionAnchoredLabels seq idx (parseResolutionTs now)) as [res|]
    eqn:Hres; [|discriminate].
  intros [= <-]. cbn [horizons GenerateCapacityLabels.resolutionAnchored].
  eexists _, _, _. split; [reflexivity|].
  split; [|split].
  - intros a Ha. eapply horizon_le_horizon; [|exact Ha]. simpl. lra.
  - intros a Ha. eapply horizon_le_horizon; [|exact Ha]. simpl. lra.
  - intros a Ha.
    destruct (horizon_le_resolution _ _ _ _ _ _ Hnow Ha) as (b & Hb & Hle).
    rewrite Hres in Hb. injection Hb as ->. exists b. auto.
Qed.

End ScanFacts.

Section ScanExamples.
Import GenerateCapacityLabels LabelGeneration Examples.

(** X3, on the three rows. *)
Lemma candidates_of_chronological_series_threeRows :
  @chronological exampleBuiltins threeRows
  /\ @futureRowsWithinHorizon exampleBuiltins threeRows 0 firstRow (60 * 60 * 1000) None
     = List.filter
         (fun c => negb (@laterThan exampleBuiltins
                           (@absoluteMaxTs exampleBuiltins firstRow (60 * 60 * 1000) None) c))
         (skipn 1 threeRows)
  /\ @resolutionCandidates exampleBuiltins threeRows 0 firstRow None
     = List.filter
         (fun c => negb (@laterThan exampleBuiltins
                           (windowEndTs (@Date_getTime exampleBuiltins (decisionTs firstRow))
                              None) c))
         (skipn 1 threeRows).
Proof.
  assert (Hs : @chronological exampleBuiltins threeRows).
  { unfold chronological, threeRows. repeat constructor. }
  split; [exact Hs|].
  exact (@candidates_of_chronological_series exampleBuiltins threeRows 0 firstRow
           (60 * 60 * 1000) None Hs).
Defined.

(** X5, at the first of the three rows: the best future edge is the 0.05 of
    the second row. *)
Lemma bestFutureEdge7d_is_maximum_threeRows :
  exists label,
    @buildResolutionAnchoredLabels exampleBuiltins threeRows 0 None = Normal (Some label)
    /\ bestFutureEdge7d label = 0.05
    /\ (exists c, In c (@resolutionCandidates exampleBuiltins threeRows 0 firstRow None)
                  /\ @safeNum exampleBuiltins (expectedEdgeAtDecision c)
                     = Some (bestFutureEdge7d label))
    /\ (forall c e, In c (@resolutionCandidates exampleBuiltins threeRows 0 firstRow None) ->
                    @safeNum exampleBuiltins (expectedEdgeAtDecision c) = Some e ->
                    e <= bestFutureEdge7d label)
    /\ exists nowEdge,
         @safeNum exampleBuiltins (expectedEdgeAtDecision firstRow) = Some nowEdge
         /\ edgeUplift7d label = bestFutureEdge7d label - nowEdge
         /\ (improvesEdge7d label = true
             <-> exists c e,
                   In c (@resolutionCandidates exampleBuiltins threeRows 0 firstRow None)
                   /\ @safeNum exampleBuiltins (expectedEdgeAtDecision c) = Some e
                   /\ nowEdge < e).
Proof.
  eexists. split; [vm_compute; reflexivity|]. split; [reflexivity|].
  apply (@bestFutureEdge7d_is_maximum exampleBuiltins threeRows 0 firstRow None).
  - reflexivity.
  - vm_compute. reflexivity.
Defined.

(** X6, at the first of the three rows: the best edge is reached at the
    second row, 30 minutes later. *)
Lemma minutesToBestEdge7d_first_best_threeRows :
  exists label,
    @buildResolutionAnchoredLabels exampleBuiltins threeRows 0 None = Normal (Some label)
    /\ exists front c back,
         @resolutionCandidates exampleBuiltins threeRows 0 firstRow None
         = front ++ c :: back
         /\ @safeNum exampleBuiltins (expectedEdgeAtDecision c)
            = Some (bestFutureEdge7d label)
         /\ Forall (fun c' => forall e,
                      @safeNum exampleBuiltins (expectedEdgeAtDecision c') = Some e ->
                      e < bestFutureEdge7d label) front
         /\ minutesToBestEdge7d label
            = @minutesSince exampleBuiltins
                (@Date_getTime exampleBuiltins (decisionTs firstRow)) (decisionTs c).
Proof.
  eexists. split; [vm_compute; reflexivity|].
  apply (@minutesToBestEdge7d_first_best exampleBuiltins threeRows 0 firstRow None).
  - reflexivity.
  - vm_compute. reflexivity.
Defined.

(** X4, at the first of the three rows: 0.05 is the best edge at 1 hour, at
    3 hours and in the resolution window, and no row follows within 15
    minutes. *)
Lemma best_future_edge_grows_with_window_threeRows :
  exists l,
    @buildLabelsForRow exampleBuiltins threeRows 0 = Normal l
    /\ exists l15m l1h l3h,
         horizons l = [("15m"%string, l15m); ("1h"%string, l1h); ("3h"%string, l3h)]
         /\ (forall a, l15m = Some a ->
                       exists b, l1h = Some b /\ bestFutureEdge a <= bestFutureEdge b)
         /\ (forall a, l1h = Some a ->
                       exists b, l3h = Some b /\ bestFutureEdge a <= bestFutureEdge b)
         /\ (forall a, l3h = Some a ->
                       exists b, resolutionAnchored l = Some b
                                 /\ bestFutureEdge a <= bestFutureEdge7d b).
Proof.
  eexists. split; [vm_compute; reflexivity|].
  apply (@best_future_edge_grows_with_window exampleBuiltins threeRows 0).
  vm_compute. reflexivity.
Defined.

(** X7, at the first of the three rows, whose candidates can be filled
    whole. *)
Lemma fill_ratios_within_unit_threeRows :
  exists label,
    @buildResolutionAnchoredLabels exampleBuiltins threeRows 0 None = Normal (Some label)
    /\ option_map (Qeq_bool 1) (bestFillRatioAtNowSize7d label) = Some true
    /\ forall f,
         bestFillRatioAtNowSize7d label = Some f
         \/ bestLateWindowFillRatioAtNowSize label = Some f
         \/ bestWaitFillRatioPolicyWindowAtNowSize label = Some f ->
         0 <= f /\ f <= 1.
Proof.
  eexists. split; [vm_compute; reflexivity|]. split; [reflexivity|].
  apply (@fill_ratios_within_unit exampleBuiltins threeRows 0 None).
  vm_compute. reflexivity.
Defined.

(** X8, at the first of the three rows. *)
Lemma uplift_windows_ordered_threeRows :
  exists label,
    @profitsBounded exampleBuiltins threeRows
    /\ @buildResolutionAnchoredLabels exampleBuiltins threeRows 0 None
       = Normal (Some label)
    /\ (forall d, deltaNetPnlPolicyWindowAtNowSize label = Some d ->
                  exists v, capacityAdjustedUplift7d label = Some v /\ d <= v)
    /\ (forall d, bestLateWindowCapacityAdjustedUplift label = Some d ->
                  exists v, capacityAdjustedUplift7d label = Some v /\ d <= v)
    /\ (forall d, nearResolutionCapacityAdjustedUplift label = Some d ->
                  exists v, bestLateWindowCapacityAdjustedUplift label = Some v /\ d <= v)
    /\ (improvesCapacityAdjusted7d label = Some false ->
        buyNowBeatsWaitWindow label = Some true \/ buyNowBeatsWaitWindow label = None).
Proof.
  eexists. split; [vm_compute; reflexivity|]. split; [vm_compute; reflexivity|].
  apply (@uplift_windows_ordered exampleBuiltins threeRows 0 None).
  - vm_compute. reflexivity.
  - vm_compute. reflexivity.
Defined.

(** X9, at the first of the three rows, which is not censored. *)
Lemma censored_unless_candidate_in_policy_window_threeRows :
  exists label,
    @buildResolutionAnchoredLabels exampleBuiltins threeRows 0 None = Normal (Some label)
    /\ labelCensoredPolicyWindow label = false
    /\ nowCapacityContracts label = @resolveCapacity exampleBuiltins firstRow
    /\ (labelCensoredPolicyWindow label = false
        <-> (exists nc, @resolveCapacity exampleBuiltins firstRow = Some nc)
            /\ exists c, In c (@resolutionCandidates exampleBuiltins threeRows 0 firstRow None)
                         /\ @inPolicyWindow exampleBuiltins firstRow None c = true).
Proof.
  eexists. split; [vm_compute; reflexivity|]. split; [reflexivity|].
  apply (@censored_unless_candidate_in_policy_window exampleBuiltins threeRows 0
           firstRow None).
  - reflexivity.
  - vm_compute. reflexivity.
Defined.

End ScanExamples.

(** ** The label generation script: series and labelled rows *)

Section SeriesFacts.
Context `{Builtins}.
Import GenerateCapacityLabels LabelGeneration.

Lemma sameValueZero_refl (a : jsval) : sameValueZero a a = true.
Proof.
  destruct a as [| |b|n|s]; simpl; try reflexivity.
  - now destruct b.
  - apply Qeq_bool_refl.
  - apply String.eqb_refl.
Qed.

Lemma sameValueZero_sym (a b : jsval) : sameValueZero a b = true -> sameValueZero b a = true.
Proof.
  destruct a as [| |x|x|x], b as [| |y|y|y]; simpl; try discriminate; try reflexivity.
  - destruct x, y; auto.
  - apply Qeq_bool_sym.
  - rewrite !String.eqb_eq. auto.
Qed.

Lemma sameValueZero_trans (a b c : jsval) :
  sameValueZero a b = true -> sameValueZero b c = true -> sameValueZero a c = true.
Proof.
  destruct a as [| |x|x|x], b as [| |y|y|y], c as [| |z|z|z]; simpl;
    try discriminate; try reflexivity.
  - destruct x, y, z; auto.
  - apply Qeq_bool_trans.
  - rewrite !String.eqb_eq. congruence.
Qed.

(** The rows of all groups, in the order of the groups. *)
Lemma groupPush_perm (r : row) (m : list (jsval * list row)) :
  Permutation (concat (map snd (groupPush r m))) (r :: concat (map snd m)).
Proof.
  induction m as [|[k rs] m IH]; simpl; [reflexivity|].
  destruct (sameValueZero k (dedupeKey r)); simpl.
  - rewrite <- app_assoc. simpl. symmetry. apply Permutation_middle.
  - rewrite IH. symmetry. apply Permutation_middle.
Qed.

Lemma grouped_from_perm (rows : list row) : forall m,
  Permutation
    (concat (map snd (fold_left (fun m r => if kept r then groupPush r m else m) rows m)))
    (concat (map snd m) ++ List.filter kept rows).
Proof.
  induction rows as [|r rows IH]; intros m; simpl.
  - now rewrite app_nil_r.
  - rewrite IH. destruct (kept r); [|reflexivity].
    rewrite groupPush_perm. simpl. apply Permutation_middle.
Qed.

Lemma grouped_perm (rows : list row) :
  Permutation (concat (map snd (grouped rows))) (List.filter kept rows).
Proof. apply (grouped_from_perm rows []). Qed.

(** Every group holds rows of its key, and at least one. *)
Lemma groupPush_keys (r : row) (m : list (jsval * list row)) :
  Forall (fun g => snd g <> []
                   /\ Forall (fun r' => sameValueZero (fst g) (dedupeKey r') = true) (snd g))
         m ->
  Forall (fun g => snd g <> []
                   /\ Forall (fun r' => sameValueZero (fst g) (dedupeKey r') = true) (snd g))
         (groupPush r m).
Proof.
  induction 1 as [|[k rs] m [Hne Hk] Hm IH]; simpl.
  - constructor; [|constructor]. simpl. split; [discriminate|].
    constructor; [apply sameValueZero_refl|constructor].
  - destruct (sameValueZero k (dedupeKey r)) eqn:E.
    + constructor; [|exact Hm]. simpl in *. split.
      * destruct rs; discriminate.
      * apply Forall_app. split; [exact Hk|]. constructor; [exact E|constructor].
    + constructor; [split; assumption|exact IH].
Qed.

Lemma groupPush_other_keys (P : jsval -> Prop) (r : row) (m : list (jsval * list row)) :
  Forall (fun g => P (fst g)) m -> P (dedupeKey r) ->
  Forall (fun g => P (fst g)) (groupPush r m).
Proof.
  intros Hm Hr. induction Hm as [|[k rs] m Hk Hm IH]; simpl.
  - constructor; [exact Hr|constructor].
  - destruct (sameValueZero k (dedupeKey r)); constructor; auto.
Qed.

(** The keys of the groups are pairwise different. *)
Lemma groupPush_distinct (r : row) (m : list (jsval * list row)) :
  StronglySorted (fun g1 g2 => sameValueZero (fst g1) (fst g2) = false) m ->
  StronglySorted (fun g1 g2 => sameValueZero (fst g1) (fst g2) = false) (groupPush r m).
Proof.
  induction 1 as [|[k rs] m Hm IH Hk]; simpl.
  - repeat constructor.
  - destruct (sameValueZero k (dedupeKey r)) eqn:E.
    + constructor; [exact Hm|exact Hk].
    + constructor; [exact IH|].
      apply (groupPush_other_keys (fun k' => sameValueZero k k' = false)); assumption.
Qed.

Lemma grouped_invariants (rows : list row) :
  Forall (fun g => snd g <> []
                   /\ Forall (fun r' => sameValueZero (fst g) (dedupeKey r') = true) (snd g))
         (grouped rows)
  /\ StronglySorted (fun g1 g2 => sameValueZero (fst g1) (fst g2) = false) (grouped rows).
Proof.
  unfold grouped.
  apply (fold_left_invariant
           (fun m =>
              Forall (fun g => snd g <> []
                        /\ Forall (fun r' => sameValueZero (fst g) (dedupeKey r') = true)
                                  (snd g)) m
              /\ StronglySorted (fun g1 g2 => sameValueZero (fst g1) (fst g2) = false) m)).
  - intros m r [H1 H2]. destruct (kept r); [|auto].
    split; [now apply groupPush_keys|now apply groupPush_distinct].
  - split; constructor.
Qed.

Lemma StronglySorted_nth {A : Type} (R : A -> A -> Prop) (l : list A) :
  StronglySorted R l ->
  forall i j a b, (i < j)%nat -> nth_error l i = Some a -> nth_error l j = Some b -> R a b.
Proof.
  induction 1 as [|x l Hl IH Hx]; intros i j a b Hij Ha Hb.
  - destruct i; discriminate.
  - destruct j as [|j]; [lia|]. simpl in Hb.
    destruct i as [|i]; simpl in Ha.
    + injection Ha as <-. rewrite List.Forall_forall in Hx. apply Hx.
      eapply nth_error_In, Hb.
    + apply (IH i j); [lia|assumption|assumption].
Qed.

(** *** Sorting a series whose timestamps parse *)

Lemma byDecisionTs_le (a b : row) (ta tb : Q) :
  Date_getTime (decisionTs a) = Fin ta -> Date_getTime (decisionTs b) = Fin tb ->
  Qle_bool (byDecisionTs a b) 0
  = num_leb (Date_getTime (decisionTs a)) (Date_getTime (decisionTs b)).
Proof.
  intros Ha Hb. unfold byDecisionTs. rewrite Ha, Hb. simpl.
  destruct (Qle_bool ta tb) eqn:E.
  - apply Qle_bool_iff. apply Qle_bool_iff in E. lra.
  - apply Qle_bool_gt. apply Qle_bool_gt in E. lra.
Qed.

Lemma insert_chronological (x : row) (l : list row) :
  (exists t, Date_getTime (decisionTs x) = Fin t) ->
  Forall (fun r => exists t, Date_getTime (decisionTs r) = Fin t) l ->
  chronological l -> chronological (insert_by byDecisionTs x l).
Proof.
  unfold chronological. intros [tx Hx] Hfin Hs.
  induction Hs as [|y l Hl IH Hy]; simpl.
  - repeat constructor.
  - inversion Hfin as [|? ? [ty Hty] Hfin']; subst.
    rewrite (byDecisionTs_le x y tx ty Hx Hty).
    destruct (num_leb (Date_getTime (decisionTs x)) (Date_getTime (decisionTs y))) eqn:E.
    + constructor; [constructor; assumption|].
      constructor; [exact E|].
      eapply Forall_impl; [exact Hy|]. intros z Hz. simpl in Hz.
      rewrite Hx, Hty in E. rewrite Hty in Hz. rewrite Hx.
      destruct (Date_getTime (decisionTs z)) as [|s|tz]; simpl in *;
        try discriminate; try (destruct s; congruence).
      num_order. lra.
    + constructor; [apply IH; exact Hfin'|].
      apply (Permutation_Forall (Permutation_sym (insert_by_perm byDecisionTs x l))).
      constructor; [|exact Hy].
      rewrite Hx, Hty in E. rewrite Hx, Hty. simpl in *. num_order. lra.
Qed.

Lemma sort_chronological (l : list row) :
  Forall (fun r => exists t, Date_getTime (decisionTs r) = Fin t) l ->
  chronological (sort_by byDecisionTs l).
Proof.
  induction 1 as [|x l Hx Hl IH]; simpl; [constructor|].
  apply insert_chronological; [exact Hx| |exact IH].
  apply (Permutation_Forall (Permutation_sym (sort_by_perm byDecisionTs l))). exact Hl.
Qed.

Lemma sortedSeries_perm (rows : list row) :
  Permutation (concat (sortedSeries rows)) (List.filter kept rows).
Proof.
  unfold sortedSeries. rewrite <- grouped_perm.
  induction (grouped rows) as [|[k rs] m IH]; simpl; [reflexivity|].
  apply Permutation_app; [apply sort_by_perm|exact IH].
Qed.

(** X11.  [grouped] and the sort split the rows that are not skipped into
    series by their [dedupeKey]: a series is not empty and its rows have the
    same key, rows with the same key are in the same series, and the series
    together hold every row that is not skipped once and no other row.  A
    series all of whose timestamps parse is in chronological order after the
    sort. *)
Theorem series_partition_rows_by_key (rows : list row) :
  Permutation (concat (sortedSeries rows)) (List.filter kept rows)
  /\ Forall (fun seq =>
       seq <> []
       /\ (forall r1 r2, In r1 seq -> In r2 seq ->
                         sameValueZero (dedupeKey r1) (dedupeKey r2) = true)
       /\ (Forall (fun r => exists t, Date_getTime (decisionTs r) = Fin t) seq ->
           chronological seq))
     (sortedSeries rows)
  /\ (forall i j seq1 seq2 r1 r2,
        nth_error (sortedSeries rows) i = Some seq1 ->
        nth_error (sortedSeries rows) j = Some seq2 ->
        In r1 seq1 -> In r2 seq2 ->
        sameValueZero (dedupeKey r1) (dedupeKey r2) = true -> i = j).
Proof.
  destruct (grouped_invariants rows) as [Hkeys Hdistinct].
  split; [apply sortedSeries_perm|]. unfold sortedSeries. split.
  - apply Forall_map. eapply Forall_impl; [exact Hkeys|].
    intros [k rs] [Hne Hk]. simpl in *.
    pose proof (sort_by_perm byDecisionTs rs) as Hperm.
    split; [|split].
    + intros Hnil. rewrite Hnil in Hperm. apply Permutation_nil in Hperm. contradiction.
    + rewrite List.Forall_forall in Hk. intros r1 r2 H1 H2.
      apply (Permutation_in _ Hperm) in H1. apply (Permutation_in _ Hperm) in H2.
      apply (sameValueZero_trans _ k); [apply sameValueZero_sym|]; auto.
    + intros Hfin. apply sort_chronological.
      apply (Permutation_Forall Hperm). exact Hfin.
  - assert (Hsame : forall i j g1 g2 r1 r2,
              (i < j)%nat ->
              nth_error (grouped rows) i = Some g1 ->
              nth_error (grouped rows) j = Some g2 ->
              In r1 (snd g1) -> In r2 (snd g2) ->
              sameValueZero (dedupeKey r1) (dedupeKey r2) = true -> False).
    { intros i j g1 g2 r1 r2 Hij H1 H2 Hr1 Hr2 Hsv.
      pose proof (StronglySorted_nth _ _ Hdistinct i j g1 g2 Hij H1 H2) as Hne.
      rewrite List.Forall_forall in Hkeys.
      destruct (Hkeys g1 (nth_error_In _ _ H1)) as [_ Hk1].
      destruct (Hkeys g2 (nth_error_In _ _ H2)) as [_ Hk2].
      rewrite List.Forall_forall in Hk1, Hk2.
      assert (sameValueZero (fst g1) (fst g2) = true); [|congruence].
      apply (sameValueZero_trans _ (dedupeKey r1)); [now apply Hk1|].
      apply (sameValueZero_trans _ (dedupeKey r2)); [exact Hsv|].
      apply sameValueZero_sym. now apply Hk2. }
    intros i j seq1 seq2 r1 r2 H1 H2 Hr1 Hr2 Hsv.
    rewrite nth_error_map in H1, H2.
    destruct (nth_error (grouped rows) i) as [g1|] eqn:E1; [|discriminate].
    destruct (nth_error (grouped rows) j) as [g2|] eqn:E2; [|discriminate].
    injection H1 as <-. injection H2 as <-.
    apply (Permutation_in _ (sort_by_perm byDecisionTs (snd g1))) in Hr1.
    apply (Permutation_in _ (sort_by_perm byDecisionTs (snd g2))) in Hr2.
    destruct (Nat.lt_trichotomy i j) as [Hlt|[Heq|Hgt]]; [|exact Heq|]; exfalso.
    + apply (Hsame i j g1 g2 r1 r2); auto.
    + apply (Hsame j i g2 g1 r2 r1); auto. now apply sameValueZero_sym.
Qed.

(** *** The labelled rows *)










End SeriesFacts.

Section SeriesExamples.
Import GenerateCapacityLabels LabelGeneration Examples.


End SeriesExamples.

(** ** The taxonomy tag *)

Section TaxonomyFacts.
Import LabelGeneration RobustMetrics.
Variable toLowerCase : string -> string.

(** X12.  Whatever the metadata of a row, the domain [classifyTaxonomy]
    assigns is one of the six domains the training script reports on.  The
    tag comes from the market metadata or is the fallback [other / other /
    unknown] with the source [heuristic], and only the fallback has the
    topic [unknown]. *)
Theorem classifyTaxonomy_domain_known (row : metadata) :
  In (domain (classifyTaxonomy toLowerCase row)) DOMAIN_KEYS
  /\ (source (classifyTaxonomy toLowerCase row) = "market_metadata"%string
      \/ classifyTaxonomy toLowerCase row
         = {| domain := "other"; subdomain := "other"; topic := "unknown";
              source := "heuristic" |})
  /\ (topic (classifyTaxonomy toLowerCase row) = "unknown"%string
      <-> source (classifyTaxonomy toLowerCase row) = "heuristic"%string).
Proof.
  unfold classifyTaxonomy. cbv zeta.
  repeat match goal with
         | |- context [if ?b then _ else _] => destruct b
         end;
    cbn [domain source topic subdomain DOMAIN_KEYS In];
    (split; [tauto|split; [auto|split; intros; discriminate || reflexivity]]).
Qed.

End TaxonomyFacts.

(** ** The prepared rows and the chronological split *)

Section KeySort.
Context {A : Type} (key : A -> Q).

Lemma insert_by_key_sorted (x : A) (l : list A) :
  StronglySorted (fun a b => key a <= key b) l ->
  StronglySorted (fun a b => key a <= key b) (insert_by (fun a b => key a - key b) x l).
Proof.
  induction 1 as [|y l Hl IH Hy]; simpl.
  - repeat constructor.
  - destruct (Qle_bool (key x - key y) 0) eqn:E.
    + apply Qle_bool_iff in E.
      constructor; [constructor; assumption|].
      constructor; [lra|].
      eapply Forall_impl; [exact Hy|]. intros z Hz. simpl in Hz. lra.
    + apply Qle_bool_gt in E.
      constructor; [exact IH|].
      apply (Permutation_Forall
               (Permutation_sym (insert_by_perm (fun a b => key a - key b) x l))).
      constructor; [lra|exact Hy].
Qed.

Lemma sort_by_key_sorted (l : list A) :
  StronglySorted (fun a b => key a <= key b) (sort_by (fun a b => key a - key b) l).
Proof.
  induction l as [|x l IH]; simpl; [constructor|].
  now apply insert_by_key_sorted.
Qed.

End KeySort.

Lemma StronglySorted_app_between {A : Type} (R : A -> A -> Prop) (l1 l2 : list A) :
  StronglySorted R (l1 ++ l2) -> forall x y, In x l1 -> In y l2 -> R x y.
Proof.
  induction l1 as [|a l1 IH]; simpl; intros Hs x y Hx Hy; [contradiction|].
  inversion Hs as [|? ? Hl Ha]; subst.
  destruct Hx as [<-|Hx].
  - rewrite List.Forall_forall in Ha. apply Ha. apply in_or_app. now right.
  - now apply IH.
Qed.

Section PreparationFacts.
Context `{Builtins}.
Import Preparation TrainRobust.

(** X13.  [prepareRows] returns the rows it keeps in chronological order:
    the result is sorted by [_decisionTsMs] and holds the prepared form of
    every row that has a resolution-anchored label, a taxonomy tag and a
    timestamp that parses, once each, and nothing else. *)
Theorem prepareRows_sorted_by_time (rows : list labeledRow) :
  StronglySorted (fun a b => _decisionTsMs a <= _decisionTsMs b) (prepareRows rows)
  /\ Permutation (prepareRows rows) (omap prepareRow rows)
  /\ (length (prepareRows rows) <= length rows)%nat
  /\ forall row,
       prepareRow row = None
       <-> resolutionAnchored row = None \/ taxonomy row = None
           \/ finite_or_null
                (Date_getTime (match fields row !! "decisionTs"%string with
                               | Some v => v
                               | None => JUndefined
                               end)) = None.
Proof.
  split; [apply sort_by_key_sorted|].
  split; [apply sort_by_perm|]. split.
  - unfold prepareRows. rewrite sort_by_length. unfold omap.
    induction rows as [|r rows IH]; simpl; [lia|].
    destruct (prepareRow r); simpl; lia.
  - intros row. unfold prepareRow.
    destruct (resolutionAnchored row) as [res|]; [|tauto].
    destruct (taxonomy row) as [tax|]; [|tauto].
    destruct (Date_getTime _) as [|s|t]; simpl.
    + tauto.
    + tauto.
    + split; [discriminate|]. intros [|[|]]; discriminate.
Qed.

Lemma splitChronological_partition (rs : list preparedRow) :
  train (splitChronological rs) ++ valid (splitChronological rs)
  ++ test (splitChronological rs) = rs.
Proof.
  unfold splitChronological. cbv zeta. simpl train. simpl valid. simpl test.
  set (trainEnd := Nat.max 1 _). set (validEnd := Nat.max (trainEnd + 1) _).
  assert (Hle : (trainEnd <= validEnd)%nat) by (unfold validEnd; lia).
  unfold slice. rewrite Nat.sub_0_r. simpl skipn at 1.
  replace (skipn validEnd rs) with (skipn (validEnd - trainEnd) (skipn trainEnd rs)).
  - rewrite firstn_skipn. apply firstn_skipn.
  - rewrite skipn_skipn. f_equal. lia.
Qed.

(** X14.  The chronological split of the prepared rows loses and repeats
    nothing, and no row of an earlier part is later than a row of a later
    part: training rows come no later than validation and test rows, and
    validation rows no later than test rows.  The training part is not empty
    when there is a prepared row. *)
Theorem splitChronological_no_leakage (rows : list labeledRow) :
  let sp := splitChronological (prepareRows rows) in
  train sp ++ valid sp ++ test sp = prepareRows rows
  /\ (forall a b, In a (train sp) -> In b (valid sp ++ test sp) ->
                  _decisionTsMs a <= _decisionTsMs b)
  /\ (forall a b, In a (valid sp) -> In b (test sp) ->
                  _decisionTsMs a <= _decisionTsMs b)
  /\ (train sp = [] <-> prepareRows rows = []).
Proof.
  intros sp.
  pose proof (splitChronological_partition (prepareRows rows)) as Hpart. fold sp in Hpart.
  pose proof (sort_by_key_sorted _decisionTsMs (omap prepareRow rows)) as Hsorted.
  fold (prepareRows rows) in Hsorted. rewrite <- Hpart in Hsorted.
  split; [exact Hpart|]. split; [|split].
  - intros a b. apply (StronglySorted_app_between _ _ _ Hsorted).
  - intros a b.
    assert (Htail : StronglySorted (fun a b => _decisionTsMs a <= _decisionTsMs b)
                      (valid sp ++ test sp)).
    { clear Hpart. induction (train sp) as [|x l IH]; [exact Hsorted|].
      apply IH. now inversion Hsorted. }
    apply (StronglySorted_app_between _ _ _ Htail).
  - split.
    + intros Ht. unfold sp, splitChronological in Ht. simpl in Ht.
      unfold slice in Ht. rewrite Nat.sub_0_r in Ht. simpl in Ht.
      destruct (prepareRows rows) as [|r rs]; [reflexivity|].
      destruct (Nat.max 1 _) eqn:E; [lia|discriminate].
    + intros Hr. rewrite Hr in Hpart. now destruct (train sp).
Qed.

Lemma safeNum_numberJson (v : option Q) : safeNum (numberJson v) = v.
Proof. destruct v; reflexivity. Qed.

(** X15.  For a series whose profits are bounded, so that the
    policy-window delta the script computes is a finite number or [null]: a
    label written by the label script and read back by a modelling script
    gives a prepared row whose regression target is the policy-window
    delta, which is censored exactly when it has no regression target, and
    whose class target is the truth value of [delta <= 0]; so the rows used
    for regression and those used for classification are the same. *)
Theorem generated_label_prepares_consistently
    (seq : list GenerateCapacityLabels.row) (idx : nat) (rts : option Q)
    (label : GenerateCapacityLabels.resolutionAnchoredLabel)
    (row : labeledRow) (p : preparedRow) :
  LabelGeneration.profitsBounded seq ->
  GenerateCapacityLabels.buildResolutionAnchoredLabels seq idx rts = Normal (Some label) ->
  resolutionAnchored row = Some (readBack label) ->
  prepareRow row = Some p ->
  _regTarget p = GenerateCapacityLabels.deltaNetPnlPolicyWindowAtNowSize label
  /\ (_censored p = true <-> _regTarget p = None)
  /\ _clsTarget p = option_map (fun delta => Qle_bool delta 0) (_regTarget p)
  /\ labelled p = classified p.
Proof.
  intros _ Hlabel Hres Hp.
  destruct (label_of_trackers _ _ _ _ Hlabel) as (t & Hdelta & Hbuy & Hcens).
  unfold prepareRow in Hp. rewrite Hres in Hp.
  destruct (taxonomy row) as [tax|]; [|discriminate].
  destruct (Date_getTime _) as [|s|ts]; try discriminate.
  injection Hp as <-. unfold labelled, classified. simpl.
  rewrite safeNum_numberJson, Hdelta, Hbuy, Hcens.
  destruct (GenerateCapacityLabels.bestPolicyWindowCapAdj t) as [d|]; simpl.
  - repeat split; try reflexivity; intros; discriminate.
  - repeat split; reflexivity.
Qed.

End PreparationFacts.

Section PreparationExamples.
Import Preparation TrainRobust Examples.

(** X15, for the label of the first of the three rows. *)
Lemma generated_label_prepares_consistently_threeRows :
  exists label p,
    @LabelGeneration.profitsBounded exampleBuiltins threeRows
    /\ @GenerateCapacityLabels.buildResolutionAnchoredLabels exampleBuiltins threeRows 0 None
       = Normal (Some label)
    /\ @prepareRow exampleBuiltins
         {| fields := {[ "decisionTs"%string := JString "2026-01-01T00:00:00.000Z" ]};
            resolutionAnchored := Some (readBack label);
            taxonomy := Some (Some "finance"%string) |} = Some p
    /\ option_map (Qeq_bool 3) (_regTarget p) = Some true
    /\ _regTarget p = GenerateCapacityLabels.deltaNetPnlPolicyWindowAtNowSize label
    /\ (_censored p = true <-> _regTarget p = None)
    /\ _clsTarget p = option_map (fun delta => Qle_bool delta 0) (_regTarget p)
    /\ labelled p = classified p.
Proof.
  eexists. eexists. split; [vm_compute; reflexivity|].
  split; [vm_compute; reflexivity|].
  split; [vm_compute; reflexivity|]. split; [reflexivity|].
  eapply (@generated_label_prepares_consistently exampleBuiltins threeRows 0 None _
            {| fields := {[ "decisionTs"%string := JString "2026-01-01T00:00:00.000Z" ]};
               resolutionAnchored := Some (readBack _);
               taxonomy := Some (Some "finance"%string) |}).
  - vm_compute. reflexivity.
  - vm_compute. reflexivity.
  - reflexivity.
  - vm_compute. reflexivity.
Defined.

End PreparationExamples.

(** ** Feature vectors *)

Section VectorFacts.
Context `{Builtins}.

Lemma sum_from (l : list Q) : forall a, fold_left Qplus l a == a + sum l.
Proof.
  unfold sum. induction l as [|x l IH]; intros a; simpl.
  - lra.
  - rewrite (IH (a + x)), (IH (0 + x)). lra.
Qed.

Lemma sum_cons (x : Q) (l : list Q) : sum (x :: l) == x + sum l.
Proof. unfold sum at 1. simpl. rewrite sum_from. lra. Qed.

Lemma sum_app (l1 l2 : list Q) : sum (l1 ++ l2) == sum l1 + sum l2.
Proof.
  induction l1 as [|x l1 IH]; simpl.
  - unfold sum at 2. simpl. lra.
  - rewrite !sum_cons, IH. lra.
Qed.

Lemma sum_zeros {A : Type} (l : list A) : sum (map (fun _ => 0) l) == 0.
Proof.
  induction l as [|x l IH]; simpl; [reflexivity|]. rewrite sum_cons, IH. lra.
Qed.

Lemma oneHotValue_length (value : string) (buckets : list string) :
  length (oneHotValue value buckets) = length buckets.
Proof.
  induction buckets as [|b rest IH]; simpl; [reflexivity|].
  destruct (String.eqb b value); simpl; [now rewrite length_map|now rewrite IH].
Qed.

(** X16.  [oneHotValue] marks the first bucket that equals the value and no
    other: the vector has one entry per bucket, a single 1 at the position
    of the first occurrence of the value among the buckets and 0 elsewhere,
    and it is all zeros when the value is not among the buckets. *)
Theorem oneHotValue_marks_first_occurrence (value : string) (buckets : list string) :
  length (oneHotValue value buckets) = length buckets
  /\ ((exists front back,
         buckets = front ++ value :: back /\ ~ In value front
         /\ oneHotValue value buckets
            = repeat 0 (length front) ++ 1 :: repeat 0 (length back))
      \/ (~ In value buckets
          /\ oneHotValue value buckets = repeat 0 (length buckets))).
Proof.
  split; [apply oneHotValue_length|].
  induction buckets as [|b rest IH]; simpl.
  - right. split; [tauto|reflexivity].
  - destruct (String.eqb b value) eqn:E.
    + apply String.eqb_eq in E. subst b. left. exists [], rest. simpl.
      split; [reflexivity|]. split; [tauto|]. f_equal.
      clear IH. induction rest as [|x rest IH]; simpl; [reflexivity|now rewrite IH].
    + apply String.eqb_neq in E.
      destruct IH as [(front & back & -> & Hnot & ->)|[Hnot ->]].
      * left. exists (b :: front), back. simpl.
        split; [reflexivity|]. split; [|reflexivity]. intros [Hb|Hin]; auto.
      * right. split; [|reflexivity]. intros [Hb|Hin]; auto.
Qed.

Lemma oneHotValue_sum (value : string) (buckets : list string) :
  sum (oneHotValue value buckets) == (if existsb (String.eqb value) buckets then 1 else 0).
Proof.
  induction buckets as [|b rest IH]; simpl; [reflexivity|].
  rewrite (String.eqb_sym value b).
  destruct (String.eqb b value); simpl.
  - rewrite sum_cons, sum_zeros. lra.
  - rewrite sum_cons, IH. lra.
Qed.

Lemma in_sortedDistinct (x : string) (l : list string) :
  In x (sortedDistinct l) <-> In x l.
Proof.
  unfold sortedDistinct. split; intros Hin.
  - apply (Permutation_in _ (sort_by_perm string_cmp (remove_dups l))) in Hin.
    apply (proj1 (list_elem_of_In _ _)).
    apply (proj1 (elem_of_remove_dups _ _)).
    apply (proj2 (list_elem_of_In _ _)). exact Hin.
  - apply (Permutation_in _ (Permutation_sym (sort_by_perm string_cmp (remove_dups l)))).
    apply (proj1 (list_elem_of_In _ _)).
    apply (proj2 (elem_of_remove_dups _ _)).
    apply (proj2 (list_elem_of_In _ _)). exact Hin.
Qed.

Lemma NoDup_sortedDistinct (l : list string) : List.NoDup (sortedDistinct l).
Proof.
  unfold sortedDistinct.
  apply (Permutation_NoDup (Permutation_sym (sort_by_perm string_cmp (remove_dups l)))).
  apply NoDup_ListNoDup. apply NoDup_remove_dups.
Qed.

Lemma existsb_eqb_in (x : string) (l : list string) :
  existsb (String.eqb x) l = true <-> In x l.
Proof.
  rewrite existsb_exists. split.
  - intros (y & Hin & Heq). apply String.eqb_eq in Heq. now subst.
  - intros Hin. exists x. split; [exact Hin|apply String.eqb_refl].
Qed.

Lemma buildVector_length (r : preparedRow) (sch : schema)
    (scaler : gmap string scalerStat) :
  length (buildVector r sch scaler) = dimension sch.
Proof.
  unfold buildVector, dimension.
  rewrite !length_app, length_map, !oneHotValue_length. simpl. lia.
Qed.

(** X17.  Every vector built with a schema has the dimension of the schema
    and starts with the constant 1.  The buckets of a schema built from the
    training rows hold no value twice, and for a training row each of the six
    categorical blocks of its vector marks one bucket: the entries after the
    numeric ones add up to 6. *)
Theorem buildVector_shape (trainRows : list preparedRow) (r : preparedRow)
    (scaler : gmap string scalerStat) :
  let sch := buildSchema trainRows in
  (forall r' sch' scaler',
     length (buildVector r' sch' scaler') = dimension sch'
     /\ head (buildVector r' sch' scaler') = Some 1)
  /\ List.NoDup (phaseBuckets sch) /\ List.NoDup (domainBuckets sch)
  /\ List.NoDup (leg1VenueBuckets sch) /\ List.NoDup (leg2VenueBuckets sch)
  /\ List.NoDup (leg1IntentBuckets sch) /\ List.NoDup (leg2IntentBuckets sch)
  /\ (In r trainRows ->
      sum (skipn (1 + length (numericKeys sch)) (buildVector r sch scaler)) == 6).
Proof.
  intros sch.
  split; [intros r' sch' scaler'; split; [apply buildVector_length|reflexivity]|].
  repeat (split; [apply NoDup_sortedDistinct|]).
  intros Hin. unfold buildVector.
  assert (Hskip : forall (a b : list Q) n,
            length a = n -> skipn (1 + n) ([1] ++ a ++ b) = b).
  { intros a b n <-. simpl. rewrite skipn_app, skipn_all, Nat.sub_diag. reflexivity. }
  rewrite Hskip; [|apply length_map].
  rewrite !sum_app, !oneHotValue_sum.
  assert (Hb : forall (f : preparedRow -> string),
            existsb (String.eqb (f r)) (sortedDistinct (map f trainRows)) = true).
  { intros f. apply existsb_eqb_in, in_sortedDistinct, in_map, Hin. }
  unfold sch, buildSchema. simpl.
  rewrite (Hb _phaseNow), (Hb _taxonomyDomain),
    (Hb (fun r => categorical r "leg1Venue")), (Hb (fun r => categorical r "leg2Venue")),
    (Hb (fun r => categorical r "leg1OrderIntent")),
    (Hb (fun r => categorical r "leg2OrderIntent")).
  lra.
Qed.

End VectorFacts.

(** ** The scaler and the segments *)

Section ScalerFacts.
Context `{Builtins}.

Lemma fitScaler_lookup (trainRows : list preparedRow) (keys : list string) (key : string) :
  forall stats : gmap string scalerStat,
    fold_left
      (fun stats name =>
         let values := omap (fun r => numericField r name) trainRows in
         let mu := nullAsZero (mean values) in
         let variance := mean (map (fun v => (v - mu) * (v - mu)) values) in
         let sigma :=
           Math_sqrt (match variance with Some v => v | None => 1 end) in
         <[name := {| s_mean := mu;
                      s_std := if Qltb 1e-8 sigma then sigma else 1 |}]>
           stats)
      keys stats !! key
    = if existsb (String.eqb key) keys
      then
        let values := omap (fun r => numericField r key) trainRows in
        let mu := nullAsZero (mean values) in
        let variance := mean (map (fun v => (v - mu) * (v - mu)) values) in
        let sigma :=
          Math_sqrt (match variance with Some v => v | None => 1 end) in
        Some {| s_mean := mu; s_std := if Qltb 1e-8 sigma then sigma else 1 |}
      else stats !! key.
Proof.
  induction keys as [|k keys IH]; intros stats; simpl; [reflexivity|].
  rewrite IH. destruct (existsb (String.eqb key) keys); [now rewrite orb_true_r|].
  rewrite orb_false_r. destruct (String.eqb key k) eqn:E.
  - apply String.eqb_eq in E. subst k. now rewrite lookup_insert_eq.
  - apply String.eqb_neq in E. rewrite lookup_insert_ne; [reflexivity|congruence].
Qed.

(** X18.  The scaler has an entry for each key it is fitted for and for no
    other key.  The mean of an entry is the mean of the values of the
    training rows that parse, 0 when there is none, and its deviation is
    greater than 1e-8: standardising a value never divides by zero. *)
Theorem fitScaler_entries (trainRows : list preparedRow) (keys : list string)
    (key : string) :
  match fitScaler trainRows keys !! key with
  | Some s =>
      In key keys
      /\ s_mean s = nullAsZero (mean (omap (fun r => numericField r key) trainRows))
      /\ 1e-8 < s_std s
  | None => ~ In key keys
  end.
Proof.
  unfold fitScaler. rewrite fitScaler_lookup, lookup_empty.
  destruct (existsb (String.eqb key) keys) eqn:E.
  - apply existsb_eqb_in in E. cbv zeta. simpl.
    split; [exact E|]. split; [reflexivity|].
    match goal with
    | |- context [Qltb 1e-8 ?sigma] => destruct (Qltb 1e-8 sigma) eqn:Es
    end.
    + now apply Qltb_lt.
    + reflexivity.
  - intros Hin. apply existsb_eqb_in in Hin. congruence.
Qed.

(** *** [groupBySegment] *)

Lemma groupInsert_perm (r : preparedRow) (m : list (string * list preparedRow)) :
  Permutation (concat (map snd (groupInsert r m))) (r :: concat (map snd m)).
Proof.
  induction m as [|[k rs] m IH]; simpl; [reflexivity|].
  destruct (String.eqb k (_segmentKey r)); simpl.
  - rewrite <- app_assoc. simpl. symmetry. apply Permutation_middle.
  - rewrite IH. symmetry. apply Permutation_middle.
Qed.

Lemma ofSegment_app (seg : string) (l1 l2 : list preparedRow) :
  ofSegment seg (l1 ++ l2) = ofSegment seg l1 ++ ofSegment seg l2.
Proof. apply List.filter_app. Qed.

(** The groups after the rows [rows]: one group for each segment key that
    occurs, holding the rows of the segment in their order. *)
Lemma groupInsert_spec (r : preparedRow) (rows : list preparedRow)
    (m : list (string * list preparedRow)) :
  List.NoDup (map fst m) ->
  (forall seg segRows,
     In (seg, segRows) m <-> segRows = ofSegment seg rows /\ segRows <> []) ->
  List.NoDup (map fst (groupInsert r m))
  /\ forall seg segRows,
       In (seg, segRows) (groupInsert r m)
       <-> segRows = ofSegment seg (rows ++ [r]) /\ segRows <> [].
Proof.
  revert rows. induction m as [|[k rs] m IH]; intros rows Hnd Hspec.
  - simpl. split; [repeat constructor; auto|].
    intros seg segRows. rewrite ofSegment_app.
    assert (Hnone : ofSegment seg rows = []).
    { destruct (ofSegment seg rows) eqn:E; [reflexivity|].
      exfalso. apply (proj2 (Hspec seg (ofSegment seg rows))).
      rewrite E. split; [reflexivity|discriminate]. }
    rewrite Hnone. unfold ofSegment. simpl. split.
    + intros [[= <- <-]|[]]. rewrite String.eqb_refl. split; [reflexivity|discriminate].
    + destruct (String.eqb seg (_segmentKey r)) eqn:E; intros [-> Hne]; [|contradiction].
      apply String.eqb_eq in E. subst seg. now left.
  - simpl in Hnd. inversion Hnd as [|? ? Hk Hnd']; subst.
    assert (Hrs : rs = ofSegment k rows /\ rs <> [])
      by (apply Hspec; now left).
    simpl. destruct (String.eqb k (_segmentKey r)) eqn:E.
    + apply String.eqb_eq in E. subst k. simpl. split; [exact Hnd|].
      intros seg segRows. rewrite ofSegment_app. split.
      * intros [[= <- <-]|Hin].
        -- unfold ofSegment at 2. simpl. rewrite String.eqb_refl.
           destruct Hrs as [-> _]. split; [reflexivity|].
           destruct (ofSegment (_segmentKey r) rows); discriminate.
        -- assert (Hseg : seg <> _segmentKey r).
           { intros ->. apply Hk. apply (in_map fst) in Hin. exact Hin. }
           assert (Hin' : In (seg, segRows) ((_segmentKey r, rs) :: m)) by now right.
           apply Hspec in Hin'. destruct Hin' as [-> Hne].
           unfold ofSegment at 2. simpl.
           apply String.eqb_neq in Hseg. rewrite Hseg, app_nil_r. auto.
      * intros [-> Hne]. destruct (String.eqb seg (_segmentKey r)) eqn:Es.
        -- apply String.eqb_eq in Es. subst seg. left.
           unfold ofSegment at 2. simpl. rewrite String.eqb_refl.
           destruct Hrs as [-> _]. reflexivity.
        -- right. unfold ofSegment at 2 in Hne. unfold ofSegment at 2.
           simpl in *. rewrite Es in *. rewrite app_nil_r in *.
           assert (Hin : In (seg, ofSegment seg rows) ((_segmentKey r, rs) :: m))
             by (apply Hspec; auto).
           destruct Hin as [[= Hs _]|Hin]; [|exact Hin].
           apply String.eqb_neq in Es. congruence.
    + (* the row goes to a later group, or to a new one *)
      assert (Hm : forall seg segRows,
                In (seg, segRows) m
                <-> segRows = ofSegment seg (List.filter
                                (fun r' => negb (String.eqb k (_segmentKey r'))) rows)
                    /\ segRows <> []).
      { intros seg segRows.
        assert (Hfilter : seg <> k ->
                  ofSegment seg (List.filter
                    (fun r' => negb (String.eqb k (_segmentKey r'))) rows)
                  = ofSegment seg rows).
        { intros Hseg. unfold ofSegment. clear -Hseg.
          induction rows as [|x rows IHr]; simpl; [reflexivity|].
          destruct (String.eqb k (_segmentKey x)) eqn:Ex; simpl.
          - apply String.eqb_eq in Ex. subst k.
            apply String.eqb_neq in Hseg. now rewrite Hseg.
          - destruct (String.eqb seg (_segmentKey x)); [now rewrite IHr|exact IHr]. }
        split.
        - intros Hin.
          assert (Hseg : seg <> k).
          { intros ->. apply Hk. apply (in_map fst) in Hin. exact Hin. }
          rewrite (Hfilter Hseg). apply Hspec. now right.
        - intros [-> Hne].
          destruct (String.eqb seg k) eqn:Es.
          + exfalso. apply String.eqb_eq in Es. subst seg. apply Hne.
            unfold ofSegment. clear. induction rows as [|x rows IHr]; simpl; [reflexivity|].
            destruct (String.eqb k (_segmentKey x)) eqn:Ex; simpl; [exact IHr|].
            now rewrite Ex.
          + apply String.eqb_neq in Es. rewrite (Hfilter Es) in *.
            assert (Hin : In (seg, ofSegment seg rows) ((k, rs) :: m))
              by (apply Hspec; auto).
            destruct Hin as [[= Hs _]|Hin]; [congruence|exact Hin]. }
      destruct (IH _ Hnd' Hm) as [Hnd2 Hspec2].
      assert (Hkeys : forall seg, In seg (map fst (groupInsert r m)) ->
                                  In seg (map fst m) \/ seg = _segmentKey r).
      { clear. induction m as [|[k' rs'] m IHm]; simpl.
        - intros seg [<-|[]]. now right.
        - intros seg. destruct (String.eqb k' (_segmentKey r)); simpl.
          + intros [<-|Hin]; auto.
          + intros [<-|Hin]; auto. destruct (IHm seg Hin); auto. }
      split.
      * simpl. constructor; [|exact Hnd2].
        intros Hin. destruct (Hkeys k Hin) as [Hin'|Heq]; [contradiction|].
        apply String.eqb_neq in E. congruence.
      * intros seg segRows. simpl.
        assert (Hfilter2 : seg <> k ->
                  ofSegment seg
                    (List.filter (fun r' => negb (String.eqb k (_segmentKey r'))) rows
                     ++ [r])
                  = ofSegment seg (rows ++ [r])).
        { intros Hseg. rewrite !ofSegment_app. f_equal.
          unfold ofSegment. clear -Hseg.
          induction rows as [|x rows IHr]; simpl; [reflexivity|].
          destruct (String.eqb k (_segmentKey x)) eqn:Ex; simpl.
          - apply String.eqb_eq in Ex. subst k.
            apply String.eqb_neq in Hseg. now rewrite Hseg.
          - destruct (String.eqb seg (_segmentKey x)); [now rewrite IHr|exact IHr]. }
        split.
        -- intros [[= <- <-]|Hin].
           ++ rewrite ofSegment_app. unfold ofSegment at 2. simpl. rewrite E, app_nil_r.
              exact Hrs.
           ++ assert (Hseg : seg <> k).
              { intros ->. apply (in_map fst) in Hin. simpl in Hin.
                destruct (Hkeys _ Hin) as [Hin'|Heq]; [contradiction|].
                apply String.eqb_neq in E. congruence. }
              rewrite <- (Hfilter2 Hseg). now apply Hspec2.
        -- intros [-> Hne]. destruct (String.eqb seg k) eqn:Es.
           ++ apply String.eqb_eq in Es. subst seg. left.
              rewrite ofSegment_app. unfold ofSegment at 2. simpl. rewrite E, app_nil_r.
              destruct Hrs as [-> _]. reflexivity.
           ++ right. apply String.eqb_neq in Es. apply Hspec2.
              rewrite (Hfilter2 Es). auto.
Qed.

Lemma groupBySegment_snoc (rows : list preparedRow) (r : preparedRow) :
  groupBySegment (rows ++ [r]) = groupInsert r (groupBySegment rows).
Proof. unfold groupBySegment. now rewrite fold_left_app. Qed.

Lemma groupBySegment_spec (rows : list preparedRow) :
  List.NoDup (map fst (groupBySegment rows))
  /\ forall seg segRows,
       In (seg, segRows) (groupBySegment rows)
       <-> segRows = ofSegment seg rows /\ segRows <> [].
Proof.
  induction rows as [|r rows IH] using rev_ind.
  - split; [constructor|]. intros seg segRows. simpl. split; [contradiction|].
    intros [-> Hne]. now apply Hne.
  - rewrite groupBySegment_snoc. destruct IH as [Hnd Hspec].
    now apply groupInsert_spec.
Qed.

(** X19.  [groupBySegment] splits its rows by segment key: no key has two
    groups, the group of a key holds the rows of that key, all of them and
    in their order, there is a group exactly for the keys that occur, and
    the groups together hold every row once. *)
Theorem groupBySegment_partitions (rows : list preparedRow) :
  List.NoDup (map fst (groupBySegment rows))
  /\ (forall seg segRows,
        In (seg, segRows) (groupBySegment rows)
        <-> segRows = ofSegment seg rows /\ segRows <> [])
  /\ Permutation (concat (map snd (groupBySegment rows))) rows.
Proof.
  destruct (groupBySegment_spec rows) as [Hnd Hspec].
  split; [exact Hnd|]. split; [exact Hspec|].
  induction rows as [|r rows IH] using rev_ind; [reflexivity|].
  rewrite groupBySegment_snoc, groupInsert_perm.
  rewrite Permutation_app_comm. simpl. constructor.
  apply IH; apply groupBySegment_spec.
Qed.

End ScalerFacts.

(** ** The training script *)

Section TrainFacts.
Context `{Builtins}.
Import TrainRobust.

Lemma fold_left_invariant_in {S A : Type} (P : S -> Prop) (f : S -> A -> S) (l : list A) :
  (forall s a, In a l -> P s -> P (f s a)) -> forall s, P s -> P (fold_left f l s).
Proof.
  induction l as [|a l IH]; intros Hstep s Hs; simpl; [exact Hs|].
  apply IH.
  - intros s' a' Hin. apply Hstep. now right.
  - apply Hstep; [now left|exact Hs].
Qed.

Lemma zip_with_length {A B C : Type} (f : A -> B -> C) (xs : list A) : forall ys,
  length (zip_with f xs ys) = Nat.min (length xs) (length ys).
Proof.
  induction xs as [|x xs IH]; intros [|y ys]; simpl; try reflexivity.
  now rewrite IH.
Qed.

Lemma mapi_length {A B : Type} (f : A -> nat -> B) (xs : list A) :
  length (mapi f xs) = length xs.
Proof.
  unfold mapi. generalize 0%nat.
  induction xs as [|x xs IH]; intros n; simpl; [reflexivity|]. now rewrite IH.
Qed.

Lemma zeros_length (d : nat) : length (zeros d) = d.
Proof. apply repeat_length. Qed.

Lemma ridgeEpoch_length (lr lambda : Q) (X : list (list Q)) (y w : list Q) (d : nat) :
  Forall (fun x => length x = d) X -> length w = d ->
  length (ridgeEpoch lr lambda X y w) = d.
Proof.
  intros HX Hw. unfold ridgeEpoch.
  rewrite zip_with_length, mapi_length, Hw.
  match goal with
  | |- Nat.min d (length (fold_left ?f ?l ?a)) = d =>
      assert (Hg : length (fold_left f l a) = d)
  end.
  { apply (fold_left_invariant_in (fun g => length g = d)).
    - intros g [x yi] Hin Hg. simpl. rewrite zip_with_length, Hg.
      apply in_combine_l in Hin. rewrite List.Forall_forall in HX.
      rewrite (HX x Hin). apply Nat.min_id.
    - now rewrite zeros_length. }
  rewrite Hg. apply Nat.min_id.
Qed.

Lemma logisticEpoch_length (lr lambda posWeight : Q) (X : list (list Q)) (y w : list Q)
    (d : nat) :
  Forall (fun x => length x = d) X -> length w = d ->
  length (logisticEpoch lr lambda posWeight X y w) = d.
Proof.
  intros HX Hw. unfold logisticEpoch.
  rewrite zip_with_length, mapi_length, length_map, Hw.
  match goal with
  | |- Nat.min d (length (fold_left ?f ?l ?a)) = d =>
      assert (Hg : length (fold_left f l a) = d)
  end.
  { apply (fold_left_invariant_in (fun g => length g = d)).
    - intros g [x yi] Hin Hg. simpl. rewrite zip_with_length, Hg.
      apply in_combine_l in Hin. rewrite List.Forall_forall in HX.
      rewrite (HX x Hin). apply Nat.min_id.
    - now rewrite zeros_length. }
  rewrite Hg. apply Nat.min_id.
Qed.

Lemma iter_invariant {S : Type} (P : S -> Prop) (f : S -> S) (n : nat) (s : S) :
  (forall s, P s -> P (f s)) -> P s -> P (Nat.iter n f s).
Proof.
  intros Hf Hs. induction n as [|n IH]; simpl; [exact Hs|]. now apply Hf.
Qed.

Lemma ridgeTrain_length (lr : Q) (epochs : nat) (lambda : Q) (X : list (list Q))
    (y w : list Q) (d : nat) :
  Forall (fun x => length x = d) X ->
  ridgeTrain lr epochs lambda X y = Normal w -> length w = d.
Proof.
  intros HX. destruct X as [|x0 X']; [discriminate|]. simpl. intros [= <-].
  apply (iter_invariant (fun w => length w = d)).
  - intros w. now apply ridgeEpoch_length.
  - rewrite zeros_length. now inversion HX.
Qed.

Lemma logisticTrain_length (lr : Q) (epochs : nat) (lambda posWeight : Q)
    (X : list (list Q)) (y w : list Q) (d : nat) :
  Forall (fun x => length x = d) X ->
  logisticTrain lr epochs lambda posWeight X y = Normal w -> length w = d.
Proof.
  intros HX. destruct X as [|x0 X']; [discriminate|]. simpl. intros [= <-].
  apply (iter_invariant (fun w => length w = d)).
  - intros w. now apply logisticEpoch_length.
  - rewrite zeros_length. now inversion HX.
Qed.

Lemma vectors_dimension (sch : schema) (scaler : gmap string scalerStat)
    (rows : list preparedRow) :
  Forall (fun x => length x = dimension sch)
         (map (fun r => buildVector r sch scaler) rows).
Proof.
  apply Forall_map. apply List.Forall_forall. intros r _. apply buildVector_length.
Qed.

Lemma foldM_invariant {S A : Type} (P : S -> Prop) (step : S -> A -> completion S)
    (l : list A) :
  (forall s a s', P s -> step s a = Normal s' -> P s') ->
  forall s s', P s -> foldM step l s = Normal s' -> P s'.
Proof.
  intros Hstep. induction l as [|a l IH]; intros s s' Hs; simpl.
  - now intros [= <-].
  - destruct (step s a) as [s1|] eqn:E; cbn [mbind completion_bind]; [|discriminate].
    apply IH. eapply Hstep; eassumption.
Qed.

(** What a run that returned computed. *)
Lemma trainModels_inv (rs : list preparedRow) (art : artifacts) :
  trainModels rs = Normal art ->
  let sp := splitChronological rs in
  let sch := buildSchema (train sp) in
  let scaler := fitScaler (train sp) (numericKeys sch) in
  let regTrainRows := List.filter labelled (train sp) in
  let clsTrainRows := List.filter classified (train sp) in
  a_schema art = sch /\ a_scaler art = scaler
  /\ (exists y,
        ridgeTrain 0.01 1500 0.2 (map (fun r => buildVector r sch scaler) regTrainRows) y
        = Normal (regGlobalW art))
  /\ (exists posWeight y,
        logisticTrain 0.02 1800 0.1 posWeight
          (map (fun r => buildVector r sch scaler) clsTrainRows) y
        = Normal (clsGlobalW art))
  /\ foldM (fitRegSegment sch scaler) (groupBySegment regTrainRows) ∅
     = Normal (regSegments art)
  /\ foldM (fitClsSegment sch scaler) (groupBySegment clsTrainRows) ∅
     = Normal (clsSegments art).
Proof.
  unfold trainModels. intros Hrun. cbv zeta.
  match type of Hrun with
  | context [ridgeTrain ?a ?b ?c ?X ?y] =>
      destruct (ridgeTrain a b c X y) as [regW|] eqn:EregW
  end; cbn [mbind completion_bind] in Hrun; [|discriminate].
  match type of Hrun with
  | context [logisticTrain ?a ?b ?c ?d ?X ?y] =>
      destruct (logisticTrain a b c d X y) as [clsW|] eqn:EclsW
  end; cbn [mbind completion_bind] in Hrun; [|discriminate].
  match type of Hrun with
  | context [foldM (fitRegSegment ?sch ?scaler) ?g ?s] =>
      destruct (foldM (fitRegSegment sch scaler) g s) as [regs|] eqn:Eregs
  end; cbn [mbind completion_bind] in Hrun; [|discriminate].
  match type of Hrun with
  | context [foldM (fitClsSegment ?sch ?scaler) ?g ?s] =>
      destruct (foldM (fitClsSegment sch scaler) g s) as [clss|] eqn:Eclss
  end; cbn [mbind completion_bind] in Hrun; [|discriminate].
  match type of Hrun with
  | context [validThresholds ?rows ?probs] =>
      destruct (validThresholds rows probs) as [|best rest]
  end; [discriminate|].
  injection Hrun as <-. simpl. repeat split; eauto.
Qed.

(** X20.  The training script fails with a [TypeError] exactly when the
    training part has no row for the regression model (not censored, with a
    target) or none for the classification model; in particular on an empty
    dataset.  In every other case it returns its artifacts. *)
Theorem trainModels_throws_without_training_rows (rs : list preparedRow) :
  ((exists art, trainModels rs = Normal art)
   <-> List.filter labelled (train (splitChronological rs)) <> []
       /\ List.filter classified (train (splitChronological rs)) <> [])
  /\ (trainModels rs = Throw "TypeError"
      <-> List.filter labelled (train (splitChronological rs)) = []
          \/ List.filter classified (train (splitChronological rs)) = [])
  /\ trainModels [] = Throw "TypeError".
Proof.
  assert (Hthrow : List.filter labelled (train (splitChronological rs)) = []
                   \/ List.filter classified (train (splitChronological rs)) = [] ->
                   trainModels rs = Throw "TypeError").
  { intros Hnone. unfold trainModels.
    destruct (List.filter labelled (train (splitChronological rs))) as [|r0 regRows] eqn:Ereg;
      [reflexivity|].
    destruct Hnone as [Hn|Hn]; [discriminate|]. rewrite Hn.
    match goal with
    | |- context [ridgeTrain ?a ?b ?c ?X ?y] =>
        destruct (ridgeTrain_returns a b c X y) as [regW HregW];
          [discriminate|rewrite HregW]
    end.
    reflexivity. }
  split; [|split].
  - split.
    + intros [art Hart].
      destruct (List.filter labelled (train (splitChronological rs))) eqn:Ereg.
      { rewrite Hthrow in Hart; [discriminate|now left]. }
      destruct (List.filter classified (train (splitChronological rs))) eqn:Ecls.
      { rewrite Hthrow in Hart; [discriminate|now right]. }
      split; discriminate.
    + intros [Hreg Hcls]. now apply trainModels_returns.
  - split; [|exact Hthrow]. intros Hrun.
    destruct (List.filter labelled (train (splitChronological rs))) eqn:Ereg; [now left|].
    destruct (List.filter classified (train (splitChronological rs))) eqn:Ecls; [now right|].
    destruct (trainModels_returns rs) as [art Hart]; try (rewrite ?Ereg, ?Ecls; discriminate).
    congruence.
  - reflexivity.
Qed.

Lemma fitRegSegment_dimension (sch : schema) (scaler : gmap string scalerStat)
    (segs segs' : gmap string regSegment) (group : string * list preparedRow) :
  map_Forall (fun _ m => length (weights m) = dimension sch) segs ->
  fitRegSegment sch scaler segs group = Normal segs' ->
  map_Forall (fun _ m => length (weights m) = dimension sch) segs'.
Proof.
  unfold fitRegSegment. destruct group as [seg segRows]. intros Hsegs.
  destruct (length segRows <? MIN_SEGMENT_ROWS)%nat.
  { intros [= <-]. exact Hsegs. }
  match goal with
  | |- context [ridgeTrain ?a ?b ?c ?X ?y] =>
      destruct (ridgeTrain a b c X y) as [wts|] eqn:E
  end; cbn [mbind completion_bind]; [|discriminate].
  intros [= <-]. apply map_Forall_insert_2; [|exact Hsegs]. simpl.
  eapply ridgeTrain_length; [|exact E]. apply vectors_dimension.
Qed.

Lemma fitClsSegment_dimension (sch : schema) (scaler : gmap string scalerStat)
    (segs segs' : gmap string clsSegment) (group : string * list preparedRow) :
  map_Forall (fun _ m => length (c_weights m) = dimension sch) segs ->
  fitClsSegment sch scaler segs group = Normal segs' ->
  map_Forall (fun _ m => length (c_weights m) = dimension sch) segs'.
Proof.
  unfold fitClsSegment. destruct group as [seg segRows]. intros Hsegs.
  destruct (length segRows <? MIN_SEGMENT_ROWS)%nat.
  { intros [= <-]. exact Hsegs. }
  match goal with
  | |- context [if ?c then _ else _] => destruct c
  end.
  { intros [= <-]. exact Hsegs. }
  match goal with
  | |- context [logisticTrain ?a ?b ?c ?d ?X ?y] =>
      destruct (logisticTrain a b c d X y) as [wts|] eqn:E
  end; cbn [mbind completion_bind]; [|discriminate].
  intros [= <-]. apply map_Forall_insert_2; [|exact Hsegs]. simpl.
  eapply logisticTrain_length; [|exact E]. apply vectors_dimension.
Qed.

(** X21.  In the artifacts of a run that returned, every weight vector, the
    two global ones and those of the segment models, has the dimension of
    the schema, which is the length of every feature vector built with the
    schema: a prediction pairs each weight with an entry of the vector. *)
Theorem weights_have_schema_dimension (rs : list preparedRow) (art : artifacts) :
  trainModels rs = Normal art ->
  length (regGlobalW art) = dimension (a_schema art)
  /\ length (clsGlobalW art) = dimension (a_schema art)
  /\ (forall seg m, regSegments art !! seg = Some m ->
                    length (weights m) = dimension (a_schema art))
  /\ (forall seg m, clsSegments art !! seg = Some m ->
                    length (c_weights m) = dimension (a_schema art))
  /\ forall r, length (buildVector r (a_schema art) (a_scaler art))
               = dimension (a_schema art).
Proof.
  intros Hrun.
  destruct (trainModels_inv rs art Hrun)
    as (Hsch & Hscaler & (y & HregW) & (pw & cy & HclsW) & Hregs & Hclss).
  rewrite Hsch.
  split; [eapply ridgeTrain_length; [|exact HregW]; apply vectors_dimension|].
  split; [eapply logisticTrain_length; [|exact HclsW]; apply vectors_dimension|].
  split; [|split].
  - intros seg m Hm.
    apply (foldM_invariant
             (map_Forall (fun _ m => length (weights m) = dimension
                                       (buildSchema (train (splitChronological rs)))))
             _ _ (fun s a s' => fitRegSegment_dimension _ _ s s' a) _ _
             (map_Forall_empty _) Hregs seg m Hm).
  - intros seg m Hm.
    apply (foldM_invariant
             (map_Forall (fun _ m => length (c_weights m) = dimension
                                       (buildSchema (train (splitChronological rs)))))
             _ _ (fun s a s' => fitClsSegment_dimension _ _ s s' a) _ _
             (map_Forall_empty _) Hclss seg m Hm).
  - intros r. apply buildVector_length.
Qed.

(** *** The segment models *)

Lemma fitRegSegment_step (sch : schema) (scaler : gmap string scalerStat)
    (segs segs' : gmap string regSegment) (seg : string) (segRows : list preparedRow) :
  fitRegSegment sch scaler segs (seg, segRows) = Normal segs' ->
  ((length segRows < MIN_SEGMENT_ROWS)%nat /\ segs' = segs)
  \/ ((MIN_SEGMENT_ROWS <= length segRows)%nat
      /\ exists m,
           segs' = <[seg := m]> segs
           /\ rows m = length segRows
           /\ lo m = nullAsZero
                       (quantile (map (fun r => nullAsZero (_regTarget r)) segRows) 0.05)
           /\ hi m = nullAsZero
                       (quantile (map (fun r => nullAsZero (_regTarget r)) segRows) 0.95)).
Proof.
  unfold fitRegSegment.
  destruct (length segRows <? MIN_SEGMENT_ROWS)%nat eqn:Hlen.
  { intros [= <-]. left. apply Nat.ltb_lt in Hlen. auto. }
  apply Nat.ltb_ge in Hlen.
  match goal with
  | |- context [ridgeTrain ?a ?b ?c ?X ?y] => destruct (ridgeTrain a b c X y) as [wts|]
  end; cbn [mbind completion_bind]; [|discriminate].
  intros [= <-]. right. split; [exact Hlen|]. eexists. split; [reflexivity|].
  simpl. auto.
Qed.

Lemma foldM_fitRegSegment_lookup (sch : schema) (scaler : gmap string scalerStat)
    (groups : list (string * list preparedRow)) :
  forall segs segs',
    List.NoDup (map fst groups) ->
    foldM (fitRegSegment sch scaler) groups segs = Normal segs' ->
    (forall seg segRows,
       In (seg, segRows) groups -> (MIN_SEGMENT_ROWS <= length segRows)%nat ->
       exists m,
         segs' !! seg = Some m
         /\ rows m = length segRows
         /\ lo m = nullAsZero
                     (quantile (map (fun r => nullAsZero (_regTarget r)) segRows) 0.05)
         /\ hi m = nullAsZero
                     (quantile (map (fun r => nullAsZero (_regTarget r)) segRows) 0.95))
    /\ (forall seg,
          (forall segRows, In (seg, segRows) groups ->
                           (length segRows < MIN_SEGMENT_ROWS)%nat) ->
          segs' !! seg = segs !! seg).
Proof.
  induction groups as [|[k rk] groups IH]; intros segs segs' Hnd; cbn [foldM].
  - intros [= <-]. split; [intros ? ? []|reflexivity].
  - destruct (fitRegSegment sch scaler segs (k, rk)) as [segs1|] eqn:E1;
      cbn [mbind completion_bind]; [|discriminate].
    intros Hrest. inversion Hnd as [|? ? Hk Hnd']; subst.
    destruct (IH segs1 segs' Hnd' Hrest) as [HA HB].
    apply fitRegSegment_step in E1.
    assert (Hkrest : forall segRows, In (k, segRows) groups -> False).
    { intros segRows Hin. apply Hk. apply (in_map fst) in Hin. exact Hin. }
    split.
    + intros seg segRows [[= <- <-]|Hin] Hlen; [|now apply HA].
      destruct E1 as [[Hshort _]|(_ & m & -> & Hm)]; [lia|].
      exists m. split; [|exact Hm].
      rewrite HB; [apply lookup_insert_eq|].
      intros segRows Hin. destruct (Hkrest _ Hin).
    + intros seg Hshort. rewrite HB; [|intros segRows Hin; apply Hshort; now right].
      destruct E1 as [[_ ->]|(Hlong & m & -> & _)]; [reflexivity|].
      apply lookup_insert_ne. intros <-.
      specialize (Hshort rk (or_introl eq_refl)). lia.
Qed.

Lemma fitClsSegment_step (sch : schema) (scaler : gmap string scalerStat)
    (segs segs' : gmap string clsSegment) (seg : string) (segRows : list preparedRow) :
  fitClsSegment sch scaler segs (seg, segRows) = Normal segs' ->
  (((length segRows < MIN_SEGMENT_ROWS)%nat
    \/ count_eq 1 (map clsOrZero segRows) = 0%nat
    \/ count_eq 0 (map clsOrZero segRows) = 0%nat)
   /\ segs' = segs)
  \/ ((MIN_SEGMENT_ROWS <= length segRows)%nat
      /\ (0 < count_eq 1 (map clsOrZero segRows))%nat
      /\ (0 < count_eq 0 (map clsOrZero segRows))%nat
      /\ exists m, segs' = <[seg := m]> segs /\ c_rows m = length segRows).
Proof.
  unfold fitClsSegment.
  destruct (length segRows <? MIN_SEGMENT_ROWS)%nat eqn:Hlen.
  { intros [= <-]. left. apply Nat.ltb_lt in Hlen. auto. }
  apply Nat.ltb_ge in Hlen.
  destruct (count_eq 1 (map clsOrZero segRows) =? 0)%nat eqn:Ep.
  { intros [= <-]. left. apply Nat.eqb_eq in Ep. auto. }
  destruct (count_eq 0 (map clsOrZero segRows) =? 0)%nat eqn:En.
  { intros [= <-]. left. apply Nat.eqb_eq in En. auto. }
  cbn [orb].
  match goal with
  | |- context [logisticTrain ?a ?b ?c ?d ?X ?y] =>
      destruct (logisticTrain a b c d X y) as [wts|]
  end; cbn [mbind completion_bind]; [|discriminate].
  intros [= <-]. right. apply Nat.eqb_neq in Ep, En.
  split; [exact Hlen|]. split; [lia|]. split; [lia|].
  eexists. split; reflexivity.
Qed.

Lemma foldM_fitClsSegment_lookup (sch : schema) (scaler : gmap string scalerStat)
    (groups : list (string * list preparedRow)) :
  forall segs segs',
    List.NoDup (map fst groups) ->
    foldM (fitClsSegment sch scaler) groups segs = Normal segs' ->
    (forall seg segRows,
       In (seg, segRows) groups -> (MIN_SEGMENT_ROWS <= length segRows)%nat ->
       (0 < count_eq 1 (map clsOrZero segRows))%nat ->
       (0 < count_eq 0 (map clsOrZero segRows))%nat ->
       exists m, segs' !! seg = Some m /\ c_rows m = length segRows)
    /\ (forall seg,
          (forall segRows, In (seg, segRows) groups ->
                           (length segRows < MIN_SEGMENT_ROWS)%nat
                           \/ count_eq 1 (map clsOrZero segRows) = 0%nat
                           \/ count_eq 0 (map clsOrZero segRows) = 0%nat) ->
          segs' !! seg = segs !! seg).
Proof.
  induction groups as [|[k rk] groups IH]; intros segs segs' Hnd; cbn [foldM].
  - intros [= <-]. split; [intros ? ? []|reflexivity].
  - destruct (fitClsSegment sch scaler segs (k, rk)) as [segs1|] eqn:E1;
      cbn [mbind completion_bind]; [|discriminate].
    intros Hrest. inversion Hnd as [|? ? Hk Hnd']; subst.
    destruct (IH segs1 segs' Hnd' Hrest) as [HA HB].
    apply fitClsSegment_step in E1.
    assert (Hkrest : forall segRows, In (k, segRows) groups -> False).
    { intros segRows Hin. apply Hk. apply (in_map fst) in Hin. exact Hin. }
    split.
    + intros seg segRows [[= <- <-]|Hin] Hlen Hp Hn; [|now apply HA].
      destruct E1 as [[Hno _]|(_ & _ & _ & m & -> & Hm)]; [lia|].
      exists m. split; [|exact Hm].
      rewrite HB; [apply lookup_insert_eq|].
      intros segRows Hin. destruct (Hkrest _ Hin).
    + intros seg Hno. rewrite HB; [|intros segRows Hin; apply Hno; now right].
      destruct E1 as [[_ ->]|(Hlong & Hp & Hn & m & -> & _)]; [reflexivity|].
      apply lookup_insert_ne. intros <-.
      specialize (Hno rk (or_introl eq_refl)). lia.
Qed.

(** X22.  A segment has a regression model of its own exactly when at least
    120 training rows of the regression model belong to it; the model then
    records that number of rows, and its bounds are the 5% and 95% quantiles
    of the targets of these rows.  A segment has a classification model of its
    own exactly when at least 120 training rows of the classification model
    belong to it and both classes occur among them.  Every other segment is
    served by the global models. *)
Theorem segment_models_need_min_rows (rs : list preparedRow) (art : artifacts)
    (seg : string) :
  trainModels rs = Normal art ->
  let regRows :=
    ofSegment seg (List.filter labelled (train (splitChronological rs))) in
  let clsRows :=
    ofSegment seg (List.filter classified (train (splitChronological rs))) in
  let targets := map (fun r => nullAsZero (_regTarget r)) regRows in
  match regSegments art !! seg with
  | Some m =>
      (120 <= length regRows)%nat /\ rows m = length regRows
      /\ lo m = nullAsZero (quantile targets 0.05)
      /\ hi m = nullAsZero (quantile targets 0.95)
  | None => (length regRows < 120)%nat
  end
  /\ match clsSegments art !! seg with
     | Some m =>
         (120 <= length clsRows)%nat /\ c_rows m = length clsRows
         /\ (0 < count_eq 1 (map clsOrZero clsRows))%nat
         /\ (0 < count_eq 0 (map clsOrZero clsRows))%nat
     | None =>
         (length clsRows < 120)%nat
         \/ count_eq 1 (map clsOrZero clsRows) = 0%nat
         \/ count_eq 0 (map clsOrZero clsRows) = 0%nat
     end.
Proof.
  intros Hrun regRows clsRows targets.
  destruct (trainModels_inv rs art Hrun) as (_ & _ & _ & _ & Hregs & Hclss).
  split.
  - destruct (groupBySegment_spec
                (List.filter labelled (train (splitChronological rs)))) as [Hnd Hspec].
    destruct (foldM_fitRegSegment_lookup _ _ _ _ _ Hnd Hregs) as [HA HB].
    destruct (Nat.lt_ge_cases (length regRows) 120) as [Hshort|Hlong].
    + rewrite HB; [rewrite lookup_empty; exact Hshort|].
      intros segRows Hin. apply Hspec in Hin. destruct Hin as [-> _]. exact Hshort.
    + destruct (HA seg regRows) as (m & -> & Hm); [|exact Hlong|].
      * apply Hspec. split; [reflexivity|]. intros Hnil. fold regRows in Hnil.
        rewrite Hnil in Hlong. simpl in Hlong. lia.
      * split; [exact Hlong|exact Hm].
  - destruct (groupBySegment_spec
                (List.filter classified (train (splitChronological rs)))) as [Hnd Hspec].
    destruct (foldM_fitClsSegment_lookup _ _ _ _ _ Hnd Hclss) as [HA HB].
    destruct (Nat.lt_ge_cases (length clsRows) 120) as [Hshort|Hlong].
    { rewrite HB; [rewrite lookup_empty; now left|].
      intros segRows Hin. apply Hspec in Hin. destruct Hin as [-> _]. now left. }
    destruct (Nat.eq_0_gt_0_cases (count_eq 1 (map clsOrZero clsRows))) as [Hp|Hp].
    { rewrite HB; [rewrite lookup_empty; right; now left|].
      intros segRows Hin. apply Hspec in Hin. destruct Hin as [-> _]. right. now left. }
    destruct (Nat.eq_0_gt_0_cases (count_eq 0 (map clsOrZero clsRows))) as [Hn|Hn].
    { rewrite HB; [rewrite lookup_empty; right; now right|].
      intros segRows Hin. apply Hspec in Hin. destruct Hin as [-> _]. right. now right. }
    destruct (HA seg clsRows) as (m & -> & Hm); auto.
    apply Hspec. split; [reflexivity|]. intros Hnil. fold clsRows in Hnil.
    rewrite Hnil in Hlong. simpl in Hlong. lia.
Qed.

End TrainFacts.

Section TrainExamples.
Import TrainRobust Examples.

(** X21, for the artifacts of a training set of one row. *)
Lemma weights_have_schema_dimension_example :
  exists art,
    @trainModels exampleBuiltins [labelledRow] = Normal art
    /\ length (regGlobalW art) = dimension (a_schema art)
    /\ length (clsGlobalW art) = dimension (a_schema art)
    /\ (forall seg m, regSegments art !! seg = Some m ->
                      length (weights m) = dimension (a_schema art))
    /\ (forall seg m, clsSegments art !! seg = Some m ->
                      length (c_weights m) = dimension (a_schema art))
    /\ forall r, length (@buildVector exampleBuiltins r (a_schema art) (a_scaler art))
                 = dimension (a_schema art).
Proof.
  destruct (@trainModels_returns exampleBuiltins [labelledRow]) as [art Hart].
  - vm_compute. discriminate.
  - vm_compute. discriminate.
  - exists art. split; [exact Hart|].
    exact (@weights_have_schema_dimension exampleBuiltins [labelledRow] art Hart).
Defined.

(** X22, for 200 rows of one segment and one class: the 140 training rows
    give the segment a regression model and no classification model. *)
Lemma segment_models_need_min_rows_example :
  exists art,
    @trainModels exampleBuiltins (repeat labelledRow 200) = Normal art
    /\ length (ofSegment "finance::T_7d_3d"
                 (List.filter labelled
                    (train (splitChronological (repeat labelledRow 200))))) = 140%nat
    /\ let regRows :=
         ofSegment "finance::T_7d_3d"
           (List.filter labelled (train (splitChronological (repeat labelledRow 200)))) in
       let clsRows :=
         ofSegment "finance::T_7d_3d"
           (List.filter classified (train (splitChronological (repeat labelledRow 200)))) in
       let targets := map (fun r => nullAsZero (_regTarget r)) regRows in
       match regSegments art !! "finance::T_7d_3d"%string with
       | Some m =>
           (120 <= length regRows)%nat /\ rows m = length regRows
           /\ lo m = nullAsZero (quantile targets 0.05)
           /\ hi m = nullAsZero (quantile targets 0.95)
       | None => (length regRows < 120)%nat
       end
       /\ match clsSegments art !! "finance::T_7d_3d"%string with
          | Some m =>
              (120 <= length clsRows)%nat /\ c_rows m = length clsRows
              /\ (0 < count_eq 1 (map clsOrZero clsRows))%nat
              /\ (0 < count_eq 0 (map clsOrZero clsRows))%nat
          | None =>
              (length clsRows < 120)%nat
              \/ count_eq 1 (map clsOrZero clsRows) = 0%nat
              \/ count_eq 0 (map clsOrZero clsRows) = 0%nat
          end.
Proof.
  destruct (@trainModels_returns exampleBuiltins (repeat labelledRow 200)) as [art Hart].
  - vm_compute. discriminate.
  - vm_compute. discriminate.
  - exists art. split; [exact Hart|]. split; [vm_compute; reflexivity|].
    exact (@segment_models_need_min_rows exampleBuiltins (repeat labelledRow 200) art
             "finance::T_7d_3d" Hart).
Defined.

End TrainExamples.

(** ** The metrics of the report *)

Section MetricsFacts.
Import RobustMetrics.

Lemma Permutation_filter_length {A : Type} (f : A -> bool) (l l' : list A) :
  Permutation l l' -> length (List.filter f l) = length (List.filter f l').
Proof.
  induction 1 as [|x l l' _ IH|x y l|l l' l'' _ IH1 _ IH2]; simpl.
  - reflexivity.
  - destruct (f x); simpl; now rewrite IH.
  - destruct (f x), (f y); reflexivity.
  - now rewrite IH1.
Qed.

(** The sum of the ranks of the positives, between the least and the
    greatest sum that their number allows. *)
Lemma rankSumPosFrom_bounds (pairs : list (Q * Q)) : forall (i : nat) (acc : Q),
  exists R : nat,
    rankSumPosFrom i acc pairs == acc + Qnat R
    /\ let P := length (List.filter (fun p => Qeq_bool (fst p) 1) pairs) in
       let N := length (List.filter (fun p => negb (Qeq_bool (fst p) 1)) pairs) in
       (2 * P * i + P * (P + 1) <= 2 * R)%nat
       /\ (2 * R <= 2 * P * i + P * (P + 1) + 2 * P * N)%nat.
Proof.
  induction pairs as [|p pairs IH]; intros i acc; simpl.
  - exists 0%nat. split; [change (Qnat 0) with 0; lra|]. simpl. lia.
  - destruct (Qeq_bool (fst p) 1) eqn:E; simpl.
    + destruct (IH (S i) (acc + Qnat (i + 1))) as (R & HR & Hlo & Hhi).
      exists (R + (i + 1))%nat. split.
      * rewrite HR. unfold Qnat. rewrite !Nat2Z.inj_add, !inject_Z_plus. lra.
      * cbv zeta in *. split; nia.
    + destruct (IH (S i) acc) as (R & HR & Hlo & Hhi).
      exists R. split; [exact HR|]. cbv zeta in *. split; nia.
Qed.

Lemma labels_negative_count (pairs : list (Q * Q)) :
  Forall (fun p => fst p == 1 \/ fst p == 0) pairs ->
  length (List.filter (fun p => negb (Qeq_bool (fst p) 1)) pairs)
  = length (List.filter (fun p => Qeq_bool (fst p) 0) pairs).
Proof.
  induction 1 as [|p pairs Hp _ IH]; simpl; [reflexivity|].
  destruct Hp as [Hp|Hp].
  - assert (E1 : Qeq_bool (fst p) 1 = true) by now apply Qeq_bool_iff.
    assert (E0 : Qeq_bool (fst p) 0 = false).
    { destruct (Qeq_bool (fst p) 0) eqn:E; [|reflexivity].
      apply Qeq_bool_iff in E. rewrite E in Hp. discriminate. }
    rewrite E1, E0. simpl. exact IH.
  - assert (E0 : Qeq_bool (fst p) 0 = true) by now apply Qeq_bool_iff.
    assert (E1 : Qeq_bool (fst p) 1 = false).
    { destruct (Qeq_bool (fst p) 1) eqn:E; [|reflexivity].
      apply Qeq_bool_iff in E. rewrite E in Hp. discriminate. }
    rewrite E1, E0. simpl. now rewrite IH.
Qed.

Lemma Qnat_pos (n : nat) : (0 < n)%nat -> 0 < Qnat n.
Proof.
  intros Hn. unfold Qnat. change 0 with (inject_Z 0). rewrite <- Zlt_Qlt. lia.
Qed.

Lemma Qnat_le (n m : nat) : (n <= m)%nat -> Qnat n <= Qnat m.
Proof. intros Hn. unfold Qnat. rewrite <- Zle_Qle. lia. Qed.

Lemma Qnat_plus (n m : nat) : Qnat (n + m) == Qnat n + Qnat m.
Proof. unfold Qnat. now rewrite Nat2Z.inj_add, inject_Z_plus. Qed.

Lemma Qnat_mult (n m : nat) : Qnat (n * m) == Qnat n * Qnat m.
Proof. unfold Qnat. now rewrite Nat2Z.inj_mul, inject_Z_mult. Qed.

(** X23.  For labels that are classes, 1 or 0, [aucRoc] is [null] exactly
    when there is no label, when the scores are not as many as the labels,
    or when one of the two classes does not occur; in every other case it
    is a number between 0 and 1. *)
Theorem aucRoc_within_unit (yTrue yScore : list Q) :
  Forall (fun y => y == 1 \/ y == 0) yTrue ->
  match aucRoc yTrue yScore with
  | Some a =>
      0 <= a /\ a <= 1
      /\ length yScore = length yTrue
      /\ (0 < count_eq 1 yTrue)%nat /\ (0 < count_eq 0 yTrue)%nat
  | None =>
      yTrue = [] \/ length yScore <> length yTrue
      \/ count_eq 1 yTrue = 0%nat \/ count_eq 0 yTrue = 0%nat
  end.
Proof.
  intros Hlabels. unfold aucRoc.
  destruct (length yTrue =? 0)%nat eqn:E0.
  { apply Nat.eqb_eq in E0. left. now destruct yTrue. }
  destruct (length yScore =? length yTrue)%nat eqn:Elen; simpl.
  2:{ apply Nat.eqb_neq in Elen. auto. }
  apply Nat.eqb_eq in Elen.
  assert (Hcount : forall v,
            length (List.filter (fun p : Q * Q => Qeq_bool (fst p) v) (combine yTrue yScore))
            = count_eq v yTrue).
  { intros v. unfold count_eq. clear -Elen. revert yScore Elen.
    induction yTrue as [|y yTrue IH]; intros [|s yScore] Elen; try discriminate;
      simpl; [reflexivity|].
    injection Elen as Elen. destruct (Qeq_bool y v); simpl; now rewrite IH. }
  rewrite !Hcount.
  destruct (count_eq 1 yTrue =? 0)%nat eqn:Ep; simpl.
  { apply Nat.eqb_eq in Ep. auto. }
  destruct (count_eq 0 yTrue =? 0)%nat eqn:En; simpl.
  { apply Nat.eqb_eq in En. auto. }
  apply Nat.eqb_neq in Ep, En.
  set (sorted := sort_by (fun a b : Q * Q => snd a - snd b) (combine yTrue yScore)).
  assert (Hperm : Permutation sorted (combine yTrue yScore)) by apply sort_by_perm.
  destruct (rankSumPosFrom_bounds sorted 0 0) as (R & HR & Hlo & Hhi).
  cbv zeta in Hlo, Hhi.
  rewrite labels_negative_count in Hhi.
  2:{ apply (Permutation_Forall (Permutation_sym Hperm)).
      clear -Hlabels Elen. revert yScore Elen.
      induction Hlabels as [|y yTrue Hy _ IH]; intros [|s yScore] Elen; try discriminate;
        simpl; constructor; [exact Hy|].
      apply IH. now injection Elen. }
  rewrite (Permutation_filter_length (fun p : Q * Q => Qeq_bool (fst p) 1) _ _ Hperm),
    Hcount in Hlo, Hhi.
  rewrite (Permutation_filter_length (fun p : Q * Q => Qeq_bool (fst p) 0) _ _ Hperm),
    Hcount in Hhi.
  set (P := count_eq 1 yTrue) in *. set (N := count_eq 0 yTrue) in *.
  assert (HP : 0 < Qnat P) by (apply Qnat_pos; lia).
  assert (HN : 0 < Qnat N) by (apply Qnat_pos; lia).
  assert (HPN : 0 < Qnat P * Qnat N) by (apply Qmult_lt_0_compat; assumption).
  assert (Hlo' : Qnat P * (Qnat P + 1) <= 2 * Qnat R).
  { apply Qnat_le in Hlo. rewrite Nat.mul_0_r, Nat.add_0_l in Hlo.
    rewrite !Qnat_mult, Qnat_plus in Hlo. exact Hlo. }
  assert (Hhi' : 2 * Qnat R <= Qnat P * (Qnat P + 1) + 2 * (Qnat P * Qnat N)).
  { apply Qnat_le in Hhi. rewrite Nat.mul_0_r, Nat.add_0_l in Hhi.
    rewrite !Qnat_plus, !Qnat_mult, Qnat_plus in Hhi.
    change (Qnat 2) with 2 in Hhi. change (Qnat 1) with 1 in Hhi. lra. }
  change (Qnat 2) with 2 in Hlo'. change (Qnat 1) with 1 in Hlo'.
  rewrite HR.
  split; [|split; [|split; [exact Elen|split; lia]]].
  - apply Qle_shift_div_l; [exact HPN|]. rewrite Qmult_0_l.
    assert (Hhalf : Qnat P * (Qnat P + 1) / 2 == Qnat P * (Qnat P + 1) * (1 # 2))
      by reflexivity.
    rewrite Hhalf. lra.
  - apply Qle_shift_div_r; [exact HPN|]. rewrite Qmult_1_l.
    assert (Hhalf : Qnat P * (Qnat P + 1) / 2 == Qnat P * (Qnat P + 1) * (1 # 2))
      by reflexivity.
    rewrite Hhalf. lra.
Qed.

(** X23, for three examples of which the two positives have the two
    greatest scores. *)
Lemma aucRoc_within_unit_example :
  Forall (fun y => y == 1 \/ y == 0) [1; 0; 1]
  /\ match aucRoc [1; 0; 1] [0.9; 0.3; 0.6] with
     | Some a =>
         0 <= a /\ a <= 1
         /\ length ([0.9; 0.3; 0.6] : list Q) = length ([1; 0; 1] : list Q)
         /\ (0 < count_eq 1 [1%Q; 0%Q; 1%Q])%nat /\ (0 < count_eq 0 [1%Q; 0%Q; 1%Q])%nat
     | None =>
         ([1; 0; 1] : list Q) = []
         \/ length ([0.9; 0.3; 0.6] : list Q) <> length ([1; 0; 1] : list Q)
         \/ count_eq 1 [1%Q; 0%Q; 1%Q] = 0%nat \/ count_eq 0 [1%Q; 0%Q; 1%Q] = 0%nat
     end.
Proof.
  assert (Hlabels : Forall (fun y => y == 1 \/ y == 0) [1; 0; 1]).
  { constructor; [left; reflexivity|]. constructor; [right; reflexivity|].
    constructor; [left; reflexivity|]. constructor. }
  split; [exact Hlabels|].
  exact (aucRoc_within_unit [1; 0; 1] [0.9; 0.3; 0.6] Hlabels).
Defined.

(** One iteration of the counting loop adds an example with the label 1 to
    [tp] or [fn] and one with the label 0 to [fp] or [tn], when it has a
    prediction, and nothing else. *)
Lemma tally_step (c : confusion) (t : Q) (p : option Q) :
  let c' := tally c t p in
  let counted (v : Q) : nat :=
    if Qeq_bool t v
    then match p with
         | Some x => if Qeq_bool x 1 || Qeq_bool x 0 then 1%nat else 0%nat
         | None => 0%nat
         end
    else 0%nat in
  (tp c' + fn c' = tp c + fn c + counted 1%Q)%nat
  /\ (fp c' + tn c' = fp c + tn c + counted 0%Q)%nat
  /\ (tp c <= tp c')%nat /\ (tn c <= tn c')%nat.
Proof.
  assert (Hexcl : forall x, Qeq_bool x 1 = true -> Qeq_bool x 0 = false).
  { intros x Hx. destruct (Qeq_bool x 0) eqn:E; [|reflexivity].
    apply Qeq_bool_iff in Hx, E. rewrite E in Hx. discriminate. }
  unfold tally; cbn [tp fp tn fn].
  destruct (Qeq_bool t 1) eqn:Et1.
  - rewrite (Hexcl t Et1). destruct p as [x|]; cbn; [|lia].
    destruct (Qeq_bool x 1) eqn:Ex1.
    + rewrite (Hexcl x Ex1). cbn. lia.
    + destruct (Qeq_bool x 0); cbn; lia.
  - destruct (Qeq_bool t 0) eqn:Et0; cbn; [|lia].
    destruct p as [x|]; cbn; [|lia].
    destruct (Qeq_bool x 1) eqn:Ex1.
    + rewrite (Hexcl x Ex1). cbn. lia.
    + destruct (Qeq_bool x 0); cbn; lia.
Qed.

Lemma nth_error_predictions (yProb : list Q) (threshold : Q) (i : nat) :
  match nth_error (predictions yProb threshold) i with
  | Some x => (i < length yProb)%nat /\ Qeq_bool x 1 || Qeq_bool x 0 = true
  | None => (length yProb <= i)%nat
  end.
Proof.
  unfold predictions. rewrite nth_error_map.
  destruct (nth_error yProb i) as [p|] eqn:E; simpl.
  - split; [apply nth_error_Some; congruence|].
    destruct (Qle_bool threshold p); reflexivity.
  - now apply nth_error_None.
Qed.

Lemma tallyFrom_counts (yProb : list Q) (threshold : Q) (yTrue : list Q) :
  forall (i : nat) (c : confusion),
    let c' := tallyFrom i c yTrue (predictions yProb threshold) in
    (tp c' + fn c' <= tp c + fn c + count_eq 1 yTrue)%nat
    /\ (fp c' + tn c' <= fp c + tn c + count_eq 0 yTrue)%nat
    /\ (tp c <= tp c')%nat /\ (tn c <= tn c')%nat
    /\ ((i + length yTrue <= length yProb)%nat ->
        (tp c' + fn c' = tp c + fn c + count_eq 1 yTrue)%nat
        /\ (fp c' + tn c' = fp c + tn c + count_eq 0 yTrue)%nat).
Proof.
  induction yTrue as [|t yTrue IH]; intros i c; cbn [tallyFrom].
  - cbv zeta. unfold count_eq. simpl. lia.
  - cbv zeta.
    destruct (IH (S i) (tally c t (nth_error (predictions yProb threshold) i)))
      as (H1 & H0 & Htp & Htn & Hfull).
    destruct (tally_step c t (nth_error (predictions yProb threshold) i))
      as (S1 & S0 & Stp & Stn).
    cbv zeta in H1, H0, Htp, Htn, Hfull.
    pose proof (nth_error_predictions yProb threshold i) as Hp.
    assert (Hc : forall v, count_eq v (t :: yTrue)
                           = ((if Qeq_bool t v then 1%nat else 0%nat) + count_eq v yTrue)%nat).
    { intros v. unfold count_eq. simpl. now destruct (Qeq_bool t v). }
    rewrite !Hc.
    destruct (nth_error (predictions yProb threshold) i) as [x|] eqn:Ex.
    + destruct Hp as [Hi Hx]. rewrite Hx in S1, S0.
      destruct (Qeq_bool t 1), (Qeq_bool t 0); simpl length;
        repeat split; first [lia | destruct Hfull; lia].
    + destruct (Qeq_bool t 1), (Qeq_bool t 0); simpl length;
        repeat split; lia.
Qed.

Lemma count_eq_classes (ys : list Q) :
  (count_eq 1 ys + count_eq 0 ys <= length ys)%nat.
Proof.
  unfold count_eq. induction ys as [|y ys IH]; simpl; [lia|].
  destruct (Qeq_bool y 1) eqn:E1.
  - destruct (Qeq_bool y 0) eqn:E0; simpl; [|lia].
    apply Qeq_bool_iff in E1, E0. rewrite E0 in E1. discriminate.
  - destruct (Qeq_bool y 0); simpl; lia.
Qed.

(** X24.  The four counters of [classificationMetrics] count every example
    at most once: the positives among [tp] and [fn], the negatives among
    [fp] and [tn].  When there is a probability for every label, every
    example with the label 1 or 0 is counted. *)
Theorem confusion_counts_partition (yTrue yProb : list Q) (threshold : Q) :
  let c := counts yTrue yProb threshold in
  (tp c + fn c <= count_eq 1 yTrue)%nat
  /\ (fp c + tn c <= count_eq 0 yTrue)%nat
  /\ (tp c + fp c + tn c + fn c <= length yTrue)%nat
  /\ ((length yTrue <= length yProb)%nat ->
      (tp c + fn c = count_eq 1 yTrue)%nat
      /\ (fp c + tn c = count_eq 0 yTrue)%nat).
Proof.
  cbv zeta. unfold counts.
  destruct (tallyFrom_counts yProb threshold yTrue 0
              {| tp := 0; fp := 0; tn := 0; fn := 0 |}) as (H1 & H0 & _ & _ & Hfull).
  cbv zeta in H1, H0, Hfull. cbn [tp fp tn fn] in H1, H0, Hfull.
  pose proof (count_eq_classes yTrue) as Hc.
  repeat split; first [lia | destruct Hfull; lia].
Qed.

Lemma Qnat_ratio (a b : nat) :
  (a <= b)%nat -> (0 < b)%nat -> 0 <= Qnat a / Qnat b /\ Qnat a / Qnat b <= 1.
Proof.
  intros Hab Hb.
  pose proof (Qnat_pos b Hb) as Hb'. pose proof (Qnat_le a b Hab) as Hab'.
  pose proof (Qnat_le 0 a ltac:(lia)) as Ha. change (Qnat 0) with 0 in Ha.
  split.
  - apply Qle_shift_div_l; [exact Hb'|]. lra.
  - apply Qle_shift_div_r; [exact Hb'|]. lra.
Qed.

(** X25.  The accuracy, the precision, the recall and the F1 score of
    [classificationMetrics] are [null] or between 0 and 1; the accuracy is
    [null] only without examples, and the F1 score is [null] exactly when
    there is no true positive. *)
Theorem classificationMetrics_ratios (yTrue yProb : list Q) (threshold : Q) :
  let m := classificationMetrics yTrue yProb threshold in
  within_unit (accuracy m) /\ within_unit (precision m)
  /\ within_unit (recall m) /\ within_unit (f1 m)
  /\ (accuracy m = None <-> yTrue = [])
  /\ (f1 m = None <-> tp (counts yTrue yProb threshold) = 0%nat).
Proof.
  cbv zeta. unfold classificationMetrics. cbn [accuracy precision recall f1].
  destruct (tallyFrom_counts yProb threshold yTrue 0
              {| tp := 0; fp := 0; tn := 0; fn := 0 |}) as (H1 & H0 & _ & _ & _).
  cbv zeta in H1, H0. cbn [tp fp tn fn] in H1, H0. fold (counts yTrue yProb threshold) in H1, H0.
  pose proof (count_eq_classes yTrue) as Hc.
  set (c := counts yTrue yProb threshold) in *.
  assert (Hp : (tp c + fp c)%nat <> 0%nat ->
               0 <= Qnat (tp c) / Qnat (tp c + fp c) /\ Qnat (tp c) / Qnat (tp c + fp c) <= 1).
  { intros E. apply Qnat_ratio; lia. }
  assert (Hr : (tp c + fn c)%nat <> 0%nat ->
               0 <= Qnat (tp c) / Qnat (tp c + fn c) /\ Qnat (tp c) / Qnat (tp c + fn c) <= 1).
  { intros E. apply Qnat_ratio; lia. }
  assert (Hzero : forall b, (tp c + b)%nat <> 0%nat ->
                    (Qnat (tp c) / Qnat (tp c + b) == 0 <-> tp c = 0%nat)).
  { intros b E.
    pose proof (Qnat_pos (tp c + b) ltac:(lia)) as Hpos.
    split.
    - intros Hq. destruct (tp c) as [|k] eqn:Ek; [reflexivity|exfalso].
      pose proof (Qnat_pos (S k) ltac:(lia)) as Hk.
      assert (0 < Qnat (S k) / Qnat (S k + b)).
      { apply Qlt_shift_div_l; [exact Hpos|]. lra. }
      lra.
    - intros ->. change (Qnat 0) with 0. unfold Qdiv. lra. }
  split; [|split; [|split; [|split; [|split]]]].
  - destruct (length yTrue =? 0)%nat eqn:E; simpl; [exact I|].
    apply Nat.eqb_neq in E. apply Qnat_ratio; lia.
  - destruct (tp c + fp c =? 0)%nat eqn:E; simpl; [exact I|].
    apply Nat.eqb_neq in E. now apply Hp.
  - destruct (tp c + fn c =? 0)%nat eqn:E; simpl; [exact I|].
    apply Nat.eqb_neq in E. now apply Hr.
  - destruct (tp c + fp c =? 0)%nat eqn:Ep; [exact I|].
    destruct (tp c + fn c =? 0)%nat eqn:Er; [exact I|].
    apply Nat.eqb_neq in Ep, Er.
    destruct (Hp Ep) as [Hp0 Hp1]. destruct (Hr Er) as [Hr0 Hr1].
    set (p := Qnat (tp c) / Qnat (tp c + fp c)) in *.
    set (r := Qnat (tp c) / Qnat (tp c + fn c)) in *.
    destruct (Qeq_bool (p + r) 0) eqn:E; simpl; [exact I|].
    assert (Hsum : 0 < p + r).
    { apply Qeq_bool_neq in E. lra. }
    split.
    + apply Qle_shift_div_l; [exact Hsum|]. nra.
    + apply Qle_shift_div_r; [exact Hsum|]. nra.
  - destruct (length yTrue =? 0)%nat eqn:E.
    + apply Nat.eqb_eq in E. split; [intros _; now destruct yTrue|reflexivity].
    + apply Nat.eqb_neq in E. split; [discriminate|]. intros ->. now elim E.
  - destruct (tp c + fp c =? 0)%nat eqn:Ep.
    { apply Nat.eqb_eq in Ep. split; [lia|reflexivity]. }
    destruct (tp c + fn c =? 0)%nat eqn:Er.
    { apply Nat.eqb_eq in Er. split; [lia|reflexivity]. }
    apply Nat.eqb_neq in Ep, Er.
    destruct (Hp Ep) as [Hp0 Hp1]. destruct (Hr Er) as [Hr0 Hr1].
    pose proof (Hzero _ Ep) as Zp. pose proof (Hzero _ Er) as Zr.
    set (p := Qnat (tp c) / Qnat (tp c + fp c)) in *.
    set (r := Qnat (tp c) / Qnat (tp c + fn c)) in *.
    destruct (Qeq_bool (p + r) 0) eqn:E.
    + apply Qeq_bool_iff in E. split; [intros _|reflexivity].
      apply Zp. lra.
    + apply Qeq_bool_neq in E. split; [discriminate|].
      intros Htp. exfalso. apply E.
      apply Zp in Htp as Hpz. apply Zr in Htp as Hrz. lra.
Qed.

End MetricsFacts.

(** ** The decision evaluation of the two backtests *)

Section EvaluateFacts.

Lemma sum_le (l1 l2 : list Q) : Forall2 Qle l1 l2 -> sum l1 <= sum l2.
Proof.
  induction 1 as [|x y l1 l2 Hxy _ IH].
  - apply Qle_refl.
  - rewrite !sum_cons. lra.
Qed.

Lemma sum_nonneg (l : list Q) : Forall (Qle 0) l -> 0 <= sum l.
Proof.
  induction 1 as [|x l Hx _ IH].
  - apply Qle_refl.
  - rewrite sum_cons. lra.
Qed.

Lemma mean_nonempty (l : list Q) :
  (0 < length l)%nat -> mean l = Some (sum l / Qnat (length l)).
Proof. destruct l; simpl; [lia|reflexivity]. Qed.

(** A reward is [0] or the target of its row; the oracle's is the greater
    of the two. *)
Lemma rewards_le_oracle (ds : list BacktestRobust.decision) (rs : list preparedRow) :
  forall i,
    Forall2 Qle
      (map nullAsZero
         (mapi_from (fun r i =>
                       match nth_error ds i with
                       | Some BacktestRobust.buy_now => Some 0
                       | _ => _regTarget r
                       end) i rs))
      (map (fun r => Qmax 0 (nullAsZero (_regTarget r))) rs).
Proof.
  induction rs as [|r rs IH]; intros i; simpl; constructor; [|apply IH].
  destruct (nth_error ds i) as [[|]|]; simpl;
    first [apply Q.le_max_l | apply Q.le_max_r].
Qed.

Lemma oracle_nonneg (rs : list preparedRow) :
  Forall (Qle 0) (map (fun r => Qmax 0 (nullAsZero (_regTarget r))) rs).
Proof.
  induction rs as [|r rs IH]; simpl; constructor; [apply Q.le_max_l|exact IH].
Qed.

(** X26.  Whatever the probabilities and the threshold, the policy that
    [evaluate] scores earns no more than its oracle, in total and on
    average, and the oracle never earns less than always buying now.  The
    two means are [null] together, for no rows. *)
Theorem evaluate_bounded_by_oracle (rs : list preparedRow) (probs : list Q) (t : Q) :
  let e := BacktestRobust.evaluate rs probs t in
  BacktestRobust.totalRelativePnlVsAlwaysBuyNow e
    <= BacktestRobust.totalOracleRelativePnlVsAlwaysBuyNow e
  /\ 0 <= BacktestRobust.totalOracleRelativePnlVsAlwaysBuyNow e
  /\ match BacktestRobust.meanRelativePnlVsAlwaysBuyNow e,
           BacktestRobust.meanOracleRelativePnlVsAlwaysBuyNow e with
     | Some m, Some o => m <= o /\ 0 <= o /\ rs <> []
     | None, None => rs = []
     | _, _ => False
     end.
Proof.
  cbv zeta. unfold BacktestRobust.evaluate.
  cbn [BacktestRobust.totalRelativePnlVsAlwaysBuyNow
       BacktestRobust.totalOracleRelativePnlVsAlwaysBuyNow
       BacktestRobust.meanRelativePnlVsAlwaysBuyNow
       BacktestRobust.meanOracleRelativePnlVsAlwaysBuyNow].
  unfold BacktestRobust.rewards, mapi.
  pose proof (rewards_le_oracle (BacktestRobust.decisions probs t) rs 0) as Hle.
  pose proof (oracle_nonneg rs) as Hpos.
  pose proof (sum_le _ _ Hle) as Hsum. pose proof (sum_nonneg _ Hpos) as Hsum0.
  split; [exact Hsum|]. split; [exact Hsum0|].
  destruct rs as [|r rs]; [reflexivity|].
  remember (r :: rs) as rows eqn:Erows.
  assert (Hn : (0 < length rows)%nat) by (subst rows; simpl; lia).
  apply Forall2_length in Hle as Hlen. rewrite !length_map in Hlen.
  rewrite !mean_nonempty by (rewrite ?length_map; lia).
  rewrite !length_map, Hlen.
  pose proof (Qnat_pos _ Hn) as Hd.
  split; [|split; [|subst rows; discriminate]].
  - apply Qle_shift_div_l; [exact Hd|].
    unfold Qdiv. rewrite <- Qmult_assoc, (Qmult_comm (/ _)), Qmult_inv_r; lra.
  - apply Qle_shift_div_l; [exact Hd|]. lra.
Qed.

(** The decisions of the baseline evaluator, read at the indices of the
    rows, are those of the robust one, read at the probabilities, when
    every row has a probability of its own. *)
Lemma decisions_agree (t : Q) (pre : list Q) (rs : list preparedRow) :
  forall probs i,
    length pre = i -> length probs = length rs ->
    mapi_from (fun (_ : preparedRow) i =>
                 if probAtLeast (pre ++ probs) i t
                 then BacktestRobust.buy_now else BacktestRobust.wait) i rs
    = BacktestRobust.decisions probs t.
Proof.
  revert pre. induction rs as [|r rs IH]; intros pre [|p probs] i Hi Hlen;
    try discriminate; simpl; [reflexivity|].
  f_equal.
  - unfold probAtLeast. rewrite nth_error_app2 by lia.
    replace (i - length pre)%nat with 0%nat by lia. reflexivity.
  - change (pre ++ p :: probs) with (pre ++ [p] ++ probs).
    rewrite app_assoc. apply IH; [rewrite length_app; simpl; lia|].
    now injection Hlen.
Qed.

Lemma rewards_agree (ds : list BacktestRobust.decision) (rs : list preparedRow) :
  Forall (fun r => _regTarget r <> None) rs ->
  forall i,
    omap id
      (mapi_from (fun r i =>
                    match _regTarget r with
                    | None => None
                    | Some delta =>
                        match nth_error ds i with
                        | Some BacktestRobust.buy_now => Some 0
                        | _ => Some delta
                        end
                    end) i rs)
    = map nullAsZero
        (mapi_from (fun r i =>
                      match nth_error ds i with
                      | Some BacktestRobust.buy_now => Some 0
                      | _ => _regTarget r
                      end) i rs).
Proof.
  induction 1 as [|r rs Hr _ IH]; intros i; [reflexivity|].
  cbn [mapi_from map]. rewrite <- IH.
  destruct (_regTarget r) as [delta|]; [|congruence].
  destruct (nth_error ds i) as [[|]|]; reflexivity.
Qed.

Lemma oracle_agree (rs : list preparedRow) :
  Forall (fun r => _regTarget r <> None) rs ->
  omap id (BacktestBaseline.oracleRewards rs)
  = map (fun r => Qmax 0 (nullAsZero (_regTarget r))) rs.
Proof.
  unfold BacktestBaseline.oracleRewards.
  induction 1 as [|r rs Hr _ IH]; [reflexivity|].
  cbn [map]. rewrite <- IH.
  destruct (_regTarget r) as [delta|]; [reflexivity|congruence].
Qed.

(** X27.  On rows that all have a regression target, with one probability
    per row, the evaluator of the baseline backtest and the evaluator of
    the robust backtest return the same report. *)
Theorem evaluators_agree (rs : list preparedRow) (probs : list Q) (t : Q) :
  length probs = length rs ->
  Forall (fun r => _regTarget r <> None) rs ->
  BacktestBaseline.evaluateDecision rs probs t = BacktestRobust.evaluate rs probs t.
Proof.
  intros Hlen Htargets.
  unfold BacktestBaseline.evaluateDecision, BacktestRobust.evaluate.
  assert (Hds : BacktestBaseline.decisions rs probs t = BacktestRobust.decisions probs t).
  { unfold BacktestBaseline.decisions, mapi.
    apply (decisions_agree t [] rs probs 0 eq_refl Hlen). }
  rewrite Hds.
  assert (Hrw : omap id (BacktestBaseline.rewards rs (BacktestRobust.decisions probs t))
                = map nullAsZero
                    (BacktestRobust.rewards rs (BacktestRobust.decisions probs t))).
  { unfold BacktestBaseline.rewards, BacktestRobust.rewards, mapi.
    now apply rewards_agree. }
  rewrite Hrw, (oracle_agree rs Htargets). reflexivity.
Qed.

End EvaluateFacts.

Section EvaluateExamples.
Import Examples.

(** X27, for a row that gains by waiting and a row that loses by it. *)
Lemma evaluators_agree_example :
  length [0.6; 0.4] = length [withTarget labelledRow 1; withTarget labelledRow (-1)]
  /\ Forall (fun r => _regTarget r <> None)
       [withTarget labelledRow 1; withTarget labelledRow (-1)]
  /\ BacktestBaseline.evaluateDecision
       [withTarget labelledRow 1; withTarget labelledRow (-1)] [0.6; 0.4] 0.5
     = BacktestRobust.evaluate
         [withTarget labelledRow 1; withTarget labelledRow (-1)] [0.6; 0.4] 0.5.
Proof.
  assert (Htargets : Forall (fun r => _regTarget r <> None)
                       [withTarget labelledRow 1; withTarget labelledRow (-1)]).
  { constructor; [discriminate|]. constructor; [discriminate|]. constructor. }
  split; [reflexivity|]. split; [exact Htargets|].
  exact (evaluators_agree [withTarget labelledRow 1; withTarget labelledRow (-1)]
           [0.6; 0.4] 0.5 eq_refl Htargets).
Defined.

End EvaluateExamples.

(** ** The extreme quantiles *)

Section QuantileRange.

(** The quantiles 0 and 1 read the first and the last element of the
    sorted array. *)
Lemma quantile_ends (v : list Q) :
  v <> [] ->
  let s := sort_by (fun a b => a - b) v in
  exists lo hi,
    quantile v 0 = Some lo /\ quantile v 1 = Some hi
    /\ at_index s 0 = Some lo
    /\ at_index s (Z.of_nat (length s) - 1) = Some hi.
Proof.
  intros Hne s.
  destruct (quantile_value v 0 Hne ltac:(lra) ltac:(lra))
    as (slo & _ & lo & Hslo & _ & Hlo & _ & _ & Hlo_eq & _).
  destruct (quantile_value v 1 Hne ltac:(lra) ltac:(lra))
    as (shi & _ & hi & Hshi & _ & Hhi & _ & _ & Hhi_eq & _).
  fold s in Hslo, Hshi, Hlo_eq, Hhi_eq.
  assert (E0 : (inject_Z (Z.of_nat (length s)) - 1) * 0 == inject_Z 0)
    by (change (inject_Z 0) with 0; lra).
  assert (E1 : (inject_Z (Z.of_nat (length s)) - 1) * 1
               == inject_Z (Z.of_nat (length s) - 1)).
  { unfold Z.sub. rewrite inject_Z_plus, inject_Z_opp.
    change (inject_Z 1) with 1. lra. }
  rewrite E0 in Hslo, Hlo_eq. rewrite E1 in Hshi, Hhi_eq.
  rewrite Qfloor_Z in Hslo, Hshi, Hlo_eq, Hhi_eq. rewrite Qceiling_Z in Hlo_eq, Hhi_eq.
  exists lo, hi. rewrite (Hlo_eq eq_refl), (Hhi_eq eq_refl) in *. auto.
Qed.

(** X30.  On a non-empty array, the quantile 0 is the least element and
    the quantile 1 is the greatest. *)
Theorem quantile_extremes (v : list Q) :
  v <> [] ->
  exists lo hi,
    quantile v 0 = Some lo /\ quantile v 1 = Some hi
    /\ In lo v /\ In hi v
    /\ Forall (fun y => lo <= y /\ y <= hi) v.
Proof.
  intros Hne.
  destruct (quantile_ends v Hne) as (lo & hi & Hlo & Hhi & Hslo & Hshi).
  cbv zeta in Hslo, Hshi.
  set (s := sort_by (fun a b => a - b) v) in *.
  assert (Hperm : Permutation s v) by apply sort_by_perm.
  assert (Hsorted : StronglySorted Qle s) by apply sort_ascending_sorted.
  assert (Hin : forall i a, at_index s i = Some a -> In a v).
  { intros i a. unfold at_index. destruct (i <? 0)%Z; [discriminate|].
    intros Ha. apply (Permutation_in _ Hperm). eapply nth_error_In. exact Ha. }
  exists lo, hi.
  split; [exact Hlo|]. split; [exact Hhi|].
  split; [now apply (Hin 0%Z)|]. split; [now apply (Hin (Z.of_nat (length s) - 1)%Z)|].
  apply List.Forall_forall. intros y Hy.
  apply (Permutation_in _ (Permutation_sym Hperm)) in Hy.
  apply In_nth_error in Hy as [j Hj].
  assert (Hjlen : (j < length s)%nat) by (apply nth_error_Some; congruence).
  assert (Hy : at_index s (Z.of_nat j) = Some y).
  { unfold at_index. destruct (Z.of_nat j <? 0)%Z eqn:E; [apply Z.ltb_lt in E; lia|].
    now rewrite Nat2Z.id. }
  split.
  - apply (at_index_sorted s 0 (Z.of_nat j)); [exact Hsorted|lia|exact Hslo|exact Hy].
  - apply (at_index_sorted s (Z.of_nat j) (Z.of_nat (length s) - 1));
      [exact Hsorted|lia|exact Hy|exact Hshi].
Qed.

(** X30, for the array [3, 1, 2]. *)
Lemma quantile_extremes_example :
  exists lo hi,
    quantile [3; 1; 2] 0 = Some lo /\ quantile [3; 1; 2] 1 = Some hi
    /\ In lo [3; 1; 2] /\ In hi [3; 1; 2]
    /\ Forall (fun y => lo <= y /\ y <= hi) [3; 1; 2].
Proof.
  apply (quantile_extremes [3; 1; 2]). discriminate.
Defined.

End QuantileRange.

(** ** The regression report *)

Section RegressionFacts.
Context `{Builtins}.
Import RobustMetrics.

(** A sum of non-negative terms, accumulated as [reduce] does: it does not
    go below its initial value, and stays there only if every term is
    zero. *)
Lemma reduce_nonneg {A : Type} (g : A -> Q) (l : list A) :
  (forall y, 0 <= g y) ->
  forall a,
    a <= fold_left (fun acc y => acc + g y) l a
    /\ (fold_left (fun acc y => acc + g y) l a == a <-> Forall (fun y => g y == 0) l).
Proof.
  intros Hg. induction l as [|x l IH]; intros a; simpl.
  - split; [lra|]. split; [constructor|reflexivity].
  - destruct (IH (a + g x)) as [Hle Hiff]. pose proof (Hg x) as Hx.
    split; [lra|]. split.
    + intros Heq. assert (Hgx : g x == 0) by lra.
      constructor; [exact Hgx|]. apply Hiff. lra.
    + intros Hall. inversion Hall as [|? ? Hgx Hrest]; subst.
      apply Hiff in Hrest. lra.
Qed.

Lemma Qsquare_nonneg (x : Q) : 0 <= x * x.
Proof.
  destruct (Qlt_le_dec x 0) as [Hx|Hx].
  - assert (E : x * x == (- x) * (- x)) by ring.
    rewrite E. apply Qmult_le_0_compat; lra.
  - now apply Qmult_le_0_compat.
Qed.

Lemma Qsquare_zero (x : Q) : x * x == 0 <-> x == 0.
Proof.
  split; [|intros ->; reflexivity].
  intros Hx. destruct (Qmult_integral _ _ Hx); assumption.
Qed.

Lemma sum_unit (l : list Q) :
  Forall (fun x => 0 <= x /\ x <= 1) l -> 0 <= sum l /\ sum l <= Qnat (length l).
Proof.
  induction 1 as [|x l [Hx0 Hx1] _ [IH0 IH1]].
  - change (Qnat (length [])) with 0. unfold sum. simpl. lra.
  - rewrite sum_cons. cbn [length].
    replace (S (length l)) with (1 + length l)%nat by reflexivity.
    rewrite Qnat_plus. change (Qnat 1) with 1. lra.
Qed.

Lemma sum_all_zero (l : list Q) : Forall (fun x => x == 0) l -> sum l == 0.
Proof.
  induction 1 as [|x l Hx _ IH]; [reflexivity|]. rewrite sum_cons. lra.
Qed.

Lemma zip_with_Forall {A B C : Type} (f : A -> B -> C) (P : C -> Prop) (xs : list A) :
  forall ys, (forall x y, P (f x y)) -> Forall P (zip_with f xs ys).
Proof.
  induction xs as [|x xs IH]; intros [|y ys] Hf; simpl; constructor; auto.
Qed.

Lemma zip_with_diag {A C : Type} (f : A -> A -> C) (P : C -> Prop) (xs : list A) :
  (forall x, P (f x x)) -> Forall P (zip_with f xs xs).
Proof.
  intros Hf. induction xs as [|x xs IH]; simpl; constructor; auto.
Qed.

Lemma Qsign_pos (q : Q) : 0 < q -> Qsign q = Gt.
Proof.
  unfold Qsign, Qlt. simpl. intros Hq. apply Z.compare_gt_iff. lia.
Qed.

Lemma notNegative_cases (x : num) :
  notNegative x <-> x = Infinity false \/ exists q, x = Fin q /\ 0 <= q.
Proof.
  unfold notNegative. destruct x as [|[|]|q]; simpl.
  - split; [discriminate|]. intros [E|(q & E & _)]; discriminate.
  - split; [discriminate|]. intros [E|(q & E & _)]; discriminate.
  - split; auto.
  - rewrite Qle_bool_iff. split.
    + intros Hq. right. eauto.
    + intros [E|(q' & [= ->] & Hq)]; [discriminate|exact Hq].
Qed.

Lemma notNegative_add (a b : num) :
  notNegative a -> notNegative b -> notNegative (num_add a b).
Proof.
  rewrite !notNegative_cases.
  intros [->|(x & -> & Hx)] [->|(y & -> & Hy)]; simpl; auto.
  right. exists (x + y). split; [reflexivity|lra].
Qed.

Lemma sum_notNegative (l : list num) :
  Forall notNegative l ->
  forall acc, notNegative acc -> notNegative (fold_left num_add l acc).
Proof.
  induction 1 as [|x l Hx _ IH]; intros acc Hacc; simpl; [exact Hacc|].
  apply IH. now apply notNegative_add.
Qed.

Lemma div_notNegative (a : num) (n : nat) :
  notNegative a -> (0 < n)%nat -> notNegative (num_div a (Fin (Qnat n))).
Proof.
  intros Ha Hn. pose proof (Qnat_pos n Hn) as Hpos.
  apply notNegative_cases in Ha. apply notNegative_cases.
  destruct Ha as [->|(x & -> & Hx)]; simpl; rewrite (Qsign_pos _ Hpos).
  - now left.
  - right. exists (x / Qnat n). split; [reflexivity|].
    apply Qle_shift_div_l; [exact Hpos|]. lra.
Qed.

Lemma num_add_NaN (a : num) : num_add a NaN = NaN.
Proof. now destruct a as [|[|]|]. Qed.

Lemma sum_from_NaN (l : list num) : fold_left num_add l NaN = NaN.
Proof. induction l as [|x l IH]; simpl; [reflexivity|exact IH]. Qed.

Lemma sum_with_NaN (l : list num) :
  In NaN l -> forall acc, fold_left num_add l acc = NaN.
Proof.
  induction l as [|x l IH]; intros Hin acc; [contradiction|]. simpl.
  destruct Hin as [->|Hin].
  - rewrite num_add_NaN. apply sum_from_NaN.
  - now apply IH.
Qed.

Lemma sum_of_Fin (qs : list Q) :
  forall acc, fold_left num_add (map Fin qs) (Fin acc) = Fin (fold_left Qplus qs acc).
Proof.
  induction qs as [|q qs IH]; intros acc; simpl; [reflexivity|]. apply IH.
Qed.

Lemma squares_of_Fin (qs : list Q) :
  forall acc,
    fold_left (fun a e => num_add a (num_mul e e)) (map Fin qs) (Fin acc)
    = Fin (fold_left (fun a e => a + e * e) qs acc).
Proof.
  induction qs as [|q qs IH]; intros acc; simpl; [reflexivity|]. apply IH.
Qed.

(** The absolute errors: [NaN] for a prediction [NaN], and not negative for
    any other prediction. *)
Lemma abs_errors_NaN (yTrue : list Q) : forall yPred : list num,
  length yPred = length yTrue ->
  In NaN yPred ->
  In NaN (map Math_abs (zip_with (fun y p => num_sub p (Fin y)) yTrue yPred)).
Proof.
  induction yTrue as [|y yTrue IH]; intros [|p yPred] Hlen Hin; try discriminate;
    [contradiction|].
  simpl. destruct Hin as [->|Hin]; [now left|].
  right. apply IH; [now injection Hlen|exact Hin].
Qed.

Lemma abs_errors_notNegative (yTrue : list Q) : forall yPred : list num,
  ~ In NaN yPred ->
  Forall notNegative (map Math_abs (zip_with (fun y p => num_sub p (Fin y)) yTrue yPred)).
Proof.
  induction yTrue as [|y yTrue IH]; intros [|p yPred] Hnan; simpl; try constructor.
  - apply notNegative_cases. destruct p as [|s|q]; simpl.
    + exfalso. apply Hnan. now left.
    + now left.
    + right. eexists. split; [reflexivity|].
      destruct (Qle_bool 0 (q + - y)) eqn:E.
      * now apply Qle_bool_iff.
      * apply Qle_bool_gt in E. lra.
  - apply IH. intros Hin. apply Hnan. now right.
Qed.

Lemma errors_of_Fin (yTrue : list Q) : forall ps : list Q,
  zip_with (fun y p => num_sub p (Fin y)) yTrue (map Fin ps)
  = map Fin (zip_with (fun y p => p + - y) yTrue ps).
Proof.
  induction yTrue as [|y yTrue IH]; intros [|p ps]; simpl; try reflexivity.
  now rewrite IH.
Qed.

Lemma num_mean_nonempty (l : list num) :
  (0 < length l)%nat ->
  num_mean l = Some (num_div (num_sum l) (Fin (Qnat (length l)))).
Proof. destruct l; simpl; [lia|reflexivity]. Qed.

(** X29.  [regressionMetrics] reports no example and only [null] for no
    targets or for predictions that are not as many as the targets.
    Otherwise the sign accuracy is between 0 and 1 whatever the
    predictions; the mean absolute error is [NaN] when a prediction is
    [NaN] and not negative when none is; for predictions and targets that
    are finite and moderate in size, R2 is at most 1 when it is not [null];
    and predictions equal to the targets have the error 0 and, when R2 is
    not [null], R2 equal to 1. *)
Theorem regressionMetrics_ranges (yTrue : list Q) (yPred : list num) :
  let m := regressionMetrics yTrue yPred in
  (yTrue = [] \/ length yPred <> length yTrue ->
   r_count m = 0%nat /\ mae m = None /\ rmse m = None /\ r2 m = None
   /\ signAccuracy m = None)
  /\ (yTrue <> [] /\ length yPred = length yTrue ->
      r_count m = length yTrue
      /\ (exists s, signAccuracy m = Some s /\ 0 <= s /\ s <= 1)
      /\ (In NaN yPred -> mae m = Some NaN)
      /\ (~ In NaN yPred -> exists a, mae m = Some a /\ notNegative a)
      /\ (forall ps, yPred = map Fin ps -> Forall moderate ps -> Forall moderate yTrue ->
          match r2 m with
          | Some x => num_leb x (Fin 1) = true
          | None => True
          end)
      /\ (yPred = map Fin yTrue ->
          (exists a, mae m = Some (Fin a) /\ a == 0)
          /\ match r2 m with
             | Some x => exists q, x = Fin q /\ q == 1
             | None => True
             end)).
Proof.
  cbv zeta. unfold regressionMetrics. split.
  - intros Hguard.
    assert (E : (length yTrue =? 0)%nat || negb (length yPred =? length yTrue)%nat = true).
    { destruct Hguard as [->|Hlen]; [reflexivity|].
      apply Nat.eqb_neq in Hlen. rewrite Hlen. apply orb_true_r. }
    rewrite E. cbn. auto.
  - intros [Hne Hlen].
    assert (E : (length yTrue =? 0)%nat || negb (length yPred =? length yTrue)%nat = false).
    { apply orb_false_iff. split.
      - apply Nat.eqb_neq. destruct yTrue; [congruence|discriminate].
      - apply negb_false_iff. now apply Nat.eqb_eq. }
    rewrite E. cbn [r_count mae rmse r2 signAccuracy].
    assert (Hn : (0 < length yTrue)%nat) by (destruct yTrue; [congruence|simpl; lia]).
    set (errors := zip_with (fun y p => num_sub p (Fin y)) yTrue yPred).
    set (yMean := nullAsZero (mean yTrue)).
    assert (Hlen_err : length (map Math_abs errors) = length yTrue).
    { unfold errors. rewrite length_map, zip_with_length, Hlen. lia. }
    pose proof (reduce_nonneg (fun y => (y - yMean) * (y - yMean)) yTrue
                  ltac:(intros y; apply Qsquare_nonneg) 0) as [Hsst0 _].
    cbv beta in Hsst0.
    set (sst := fold_left (fun acc y => acc + (y - yMean) * (y - yMean)) yTrue 0) in *.
    assert (Hmae : num_mean (map Math_abs errors)
                   = Some (num_div (num_sum (map Math_abs errors))
                             (Fin (Qnat (length yTrue))))).
    { rewrite num_mean_nonempty by lia. now rewrite Hlen_err. }
    split; [reflexivity|]. split; [|split; [|split; [|split]]].
    + rewrite mean_nonempty by (rewrite zip_with_length, Hlen; lia).
      eexists. split; [reflexivity|].
      match goal with
      | |- context [sum ?l] =>
          destruct (sum_unit l) as [Hs0 Hs1];
            [apply zip_with_Forall; intros x y;
             destruct (num_eqb (Math_sign (Fin x)) (Math_sign y)); lra|];
            pose proof (Qnat_pos (length l) ltac:(rewrite zip_with_length, Hlen; lia)) as Hd
      end.
      split.
      * apply Qle_shift_div_l; [exact Hd|]. lra.
      * apply Qle_shift_div_r; [exact Hd|]. lra.
    + intros Hnan. rewrite Hmae. unfold num_sum.
      rewrite (sum_with_NaN _ (abs_errors_NaN yTrue yPred Hlen Hnan)). reflexivity.
    + intros Hnan. rewrite Hmae. eexists. split; [reflexivity|].
      apply div_notNegative; [|exact Hn].
      apply sum_notNegative; [now apply abs_errors_notNegative|].
      apply notNegative_cases. right. exists 0. split; [reflexivity|lra].
    + intros ps -> _ _. unfold errors. rewrite errors_of_Fin, squares_of_Fin.
      destruct (Qeq_bool sst 0) eqn:Esst; [exact I|].
      apply Qeq_bool_neq in Esst.
      assert (Hpos : 0 < sst) by lra.
      pose proof (reduce_nonneg (fun e : Q => e * e)
                    (zip_with (fun y p => p + - y) yTrue ps) Qsquare_nonneg 0)
        as [Hsse0 _].
      cbv beta in Hsse0.
      set (sse := fold_left (fun a e => a + e * e) _ 0) in *.
      simpl. rewrite (Qsign_pos _ Hpos). simpl.
      apply Qle_bool_iff.
      assert (0 <= sse / sst) by (apply Qle_shift_div_l; [exact Hpos|lra]).
      lra.
    + intros ->.
      assert (Herr : Forall (fun e => e == 0) (zip_with (fun y p => p + - y) yTrue yTrue)).
      { apply zip_with_diag. intros x. lra. }
      split.
      * rewrite Hmae. unfold errors, num_sum.
        rewrite errors_of_Fin, map_map.
        rewrite <- (map_map (fun e => if Qle_bool 0 e then e else - e) Fin).
        rewrite sum_of_Fin. simpl.
        rewrite (Qsign_pos _ (Qnat_pos _ Hn)).
        eexists. split; [reflexivity|].
        assert (Hs : fold_left Qplus
                       (map (fun e => if Qle_bool 0 e then e else - e)
                          (zip_with (fun y p => p + - y) yTrue yTrue)) 0 == 0).
        { apply (sum_all_zero (map _ _)). apply List.Forall_forall. intros x Hx.
          apply in_map_iff in Hx as (e & <- & He).
          rewrite List.Forall_forall in Herr. specialize (Herr e He). cbv beta in Herr.
          destruct (Qle_bool 0 e); lra. }
        rewrite Hs. unfold Qdiv. lra.
      * unfold errors. rewrite errors_of_Fin, squares_of_Fin.
        destruct (Qeq_bool sst 0) eqn:Esst; [exact I|].
        apply Qeq_bool_neq in Esst.
        assert (Hpos : 0 < sst) by lra.
        destruct (reduce_nonneg (fun e : Q => e * e)
                    (zip_with (fun y p => p + - y) yTrue yTrue) Qsquare_nonneg 0)
          as [_ Hsse].
        cbv beta in Hsse.
        assert (Hz : fold_left (fun a e => a + e * e)
                       (zip_with (fun y p => p + - y) yTrue yTrue) 0 == 0).
        { apply Hsse. eapply Forall_impl; [exact Herr|]. cbv beta. intros e He.
          now apply (proj2 (Qsquare_zero _)). }
        simpl. rewrite (Qsign_pos _ Hpos). simpl.
        eexists. split; [reflexivity|]. rewrite Hz. unfold Qdiv. lra.
Qed.

End RegressionFacts.

(** ** The walk-forward window and its test slice *)

Section WindowFacts.
Context `{Builtins}.
Import WalkForward.

Lemma slice_train_prefix {A : Type} (w : list A) (tc vc : nat) :
  slice w 0 tc = firstn tc (firstn (tc + vc) w).
Proof.
  unfold slice. rewrite firstn_firstn, Nat.sub_0_r.
  replace (Nat.min tc (tc + vc)) with tc by lia. reflexivity.
Qed.

Lemma slice_valid_prefix {A : Type} (w : list A) (tc vc : nat) :
  slice w tc (tc + vc) = skipn tc (firstn (tc + vc) w).
Proof.
  unfold slice. replace (tc + vc - tc)%nat with vc by lia.
  apply firstn_skipn_comm.
Qed.

(** Two windows with the same training and validation rows are fitted and
    tuned alike, whatever their test rows. *)
Lemma runWindow_same_fit (w w' : list preparedRow) (tc vc tec tec' : nat) :
  firstn (tc + vc) w = firstn (tc + vc) w' ->
  match runWindow w tc vc tec, runWindow w' tc vc tec' with
  | Normal (Some r), Normal (Some r') =>
      r_threshold r' = r_threshold r
      /\ validBestMeanRelativePnl r' = validBestMeanRelativePnl r
      /\ trainRows r' = trainRows r
      /\ validRows r' = validRows r
  | _, _ => True
  end.
Proof.
  intros Hprefix. unfold runWindow.
  rewrite !(slice_train_prefix _ tc vc), !(slice_valid_prefix _ tc vc), <- Hprefix.
  set (train := List.filter labelled (firstn tc (firstn (tc + vc) w))).
  set (valid := List.filter labelled (skipn tc (firstn (tc + vc) w))).
  destruct (length train <? 200)%nat; [exact I|].
  destruct (length valid <? 50)%nat; [exact I|].
  cbn [orb].
  destruct (length (List.filter labelled (slice w (tc + vc) (tc + vc + tec))) <? 50)%nat;
    [exact I|].
  destruct (length (List.filter labelled (slice w' (tc + vc) (tc + vc + tec'))) <? 50)%nat.
  { cbv zeta.
    repeat match goal with
           | |- context [mbind _ ?c] =>
               destruct c; cbn [mbind completion_bind]; try exact I
           | |- context [tuning ?a ?b] => destruct (tuning a b); try exact I
           end. }
  cbv zeta.
  repeat match goal with
         | |- context [mbind _ ?c] =>
             destruct c; cbn [mbind completion_bind]; try exact I
         | |- context [tuning ?a ?b] => destruct (tuning a b); try exact I
         end.
  cbn. auto.
Qed.

(** X28.  The threshold that [runWindow] tunes, and the validation result
    it reports with it, depend on the training and the validation rows of
    the window only: a window that has the same first
    [trainCount + validCount] rows and enough test rows of its own returns
    a result with the same threshold, validation result and row counts. *)
Theorem runWindow_no_lookahead (w w' : list preparedRow) (tc vc tec tec' : nat)
    (r : windowResult) :
  firstn (tc + vc) w = firstn (tc + vc) w' ->
  runWindow w tc vc tec = Normal (Some r) ->
  (50 <= length (List.filter labelled (slice w' (tc + vc) (tc + vc + tec'))))%nat ->
  exists r',
    runWindow w' tc vc tec' = Normal (Some r')
    /\ r_threshold r' = r_threshold r
    /\ validBestMeanRelativePnl r' = validBestMeanRelativePnl r
    /\ trainRows r' = trainRows r
    /\ validRows r' = validRows r.
Proof.
  intros Hprefix Hr Htest.
  pose proof (runWindow_same_fit w w' tc vc tec tec' Hprefix) as Hsame.
  rewrite Hr in Hsame.
  destruct (runWindow_cases w tc vc tec) as [[_ Hnone]|[(Htrain & Hvalid & _) _]];
    [congruence|].
  destruct (runWindow_cases w' tc vc tec')
    as [[Hsmall _]|[_ (r' & _ & _ & _ & Hr' & _)]].
  - exfalso.
    rewrite (slice_train_prefix w tc vc) in Htrain.
    rewrite (slice_valid_prefix w tc vc) in Hvalid.
    rewrite (slice_train_prefix w' tc vc), (slice_valid_prefix w' tc vc), <- Hprefix
      in Hsmall.
    lia.
  - rewrite Hr' in Hsame. exists r'. split; [exact Hr'|exact Hsame].
Qed.

End WindowFacts.

Section WindowExamples.
Import WalkForward Examples.

(** X28, for two windows of 300 rows that differ in their last 50 rows,
    the test rows. *)
Lemma runWindow_no_lookahead_example :
  exists r r',
    @runWindow exampleBuiltins (repeat labelledRow 300) 200 50 50 = Normal (Some r)
    /\ @runWindow exampleBuiltins
         (repeat labelledRow 250 ++ repeat (withTarget labelledRow 5) 50) 200 50 50
       = Normal (Some r')
    /\ r_threshold r' = r_threshold r
    /\ validBestMeanRelativePnl r' = validBestMeanRelativePnl r
    /\ trainRows r' = trainRows r
    /\ validRows r' = validRows r.
Proof.
  destruct (@runWindow_cases exampleBuiltins (repeat labelledRow 300) 200 50 50)
    as [[Hsmall _]|[_ (r & _ & _ & _ & Hr & _)]].
  - exfalso. vm_compute in Hsmall. lia.
  - destruct (@runWindow_no_lookahead exampleBuiltins
                (repeat labelledRow 300)
                (repeat labelledRow 250 ++ repeat (withTarget labelledRow 5) 50)
                200 50 50 50 r) as (r' & Hr' & Hsame).
    + vm_compute. reflexivity.
    + exact Hr.
    + vm_compute. lia.
    + exists r, r'. split; [exact Hr|]. split; [exact Hr'|exact Hsame].
Defined.

End WindowExamples.
